(** * MineSweeper: the board engine and the AutoPlay solver

    A shallow embedding of [src/Minesweeper.py] (class [Board] and the
    classifier [get_solver_board]) and of [src/Minesweeper_AutoPlay.py]
    ([check] and [solution]), with the properties of the design document
    stated and settled against it.

    The handlers of the window [MinesweeperGUI] of the same file, with
    the options that they set on the Tk buttons, and the encoding of a
    view for the network of [src/V2.0/Minesweeper_AI.py] are embedded as
    well; further properties of the code follow those of the design
    document.

    Python values are kept as the code has them: coordinates and counts are
    unbounded integers ([Z]), the three parallel arrays are lists of lists
    indexed the Python way (a negative index counts from the end, an index
    out of range raises [IndexError]), the mine set is a finite set of
    coordinate pairs, and the solver's view is a matrix of strings. *)

From stdpp Require Import gmap strings list pretty.
From Stdlib Require Import ZArith Lia Ascii.

Local Open Scope Z_scope.

(** ** Python primitives *)

(** The exceptions the modelled code can raise.  [NoUnseenLeft] is the
    [Exception("SOLUTION FUNCTION FAILUER: There is no unseen squer left!")]
    of [solution]. *)
Inductive exn := IndexError | ValueError | NoUnseenLeft.

(** Result of a pure Python expression that may raise. *)
Inductive pyres (A : Type) :=
| Ok (a : A)
| Raise (e : exn).
Arguments Ok {A} a.
Arguments Raise {A} e.

(** Sequencing: the first exception raised ends the evaluation.  With
    these instances [x ← e; k] is stdpp's monadic notation. *)
#[global] Instance pyres_bind : MBind pyres := λ A B f m,
  match m with
  | Ok a => f a
  | Raise e => Raise e
  end.
#[global] Instance pyres_ret : MRet pyres := λ A a, Ok a.

(** [range(n)] and [range(lo, hi)] over the integers. *)
Definition range (n : Z) : list Z := Z.of_nat <$> seq 0 (Z.to_nat n).
Definition range2 (lo hi : Z) : list Z :=
  (λ k, lo + Z.of_nat k) <$> seq 0 (Z.to_nat (hi - lo)).

(** Python list indexing: [-len <= i < 0] wraps, out of range is [None]. *)
Definition py_index (len : nat) (i : Z) : option nat :=
  if bool_decide (0 ≤ i < Z.of_nat len) then Some (Z.to_nat i)
  else if bool_decide (- Z.of_nat len ≤ i < 0) then Some (Z.to_nat (Z.of_nat len + i))
  else None.

(** [l[i]] *)
Definition getitem {A} (l : list A) (i : Z) : pyres A :=
  match py_index (length l) i with
  | Some k => match l !! k with Some x => Ok x | None => Raise IndexError end
  | None => Raise IndexError
  end.

(** [l[i] = x] *)
Definition setitem {A} (l : list A) (i : Z) (x : A) : pyres (list A) :=
  match py_index (length l) i with
  | Some k => Ok (<[k := x]> l)
  | None => Raise IndexError
  end.

(** [m[r][c]] *)
Definition get2 {A} (m : list (list A)) (r c : Z) : pyres A :=
  row ← getitem m r; getitem row c.

(** [m[r][c] = x]: the row object is fetched, then updated in place. *)
Definition set2 {A} (m : list (list A)) (r c : Z) (x : A) : pyres (list (list A)) :=
  row ← getitem m r;
  row' ← setitem row c x;
  setitem m r row'.

(** The cells of an [m] by [n] grid in the order of
    [for i in range(m): for j in range(n)]. *)
Definition grid_cells (m n : Z) : list (Z * Z) :=
  i ← range m; (λ j, (i, j)) <$> range n.

(** ** Strings: [int(s)] and [str(n)] *)

(** A string stands for the Python [str] with one code point below 256
    for each of its characters.

    Python's [int(s)] in base 10 on such a string: the surrounding
    whitespace is stripped, one sign is allowed, then come decimal digits
    with single underscores between digits; anything else raises
    [ValueError], and so does a numeral of more than [max_str_digits]
    digits.  The whitespace of [int] is the ASCII whitespace (9 to 13 and
    32) and, above the ASCII range, the next-line and no-break-space
    characters (133 and 160); the separators 28 to 31 are not stripped.
    The only decimal digits below 256 are [0] to [9]. *)
Definition is_space (a : ascii) : bool :=
  let n := nat_of_ascii a in
  bool_decide ((9 ≤ n ≤ 13)%nat ∨ n = 32%nat ∨ n = 133%nat ∨ n = 160%nat).

Definition digit_val (a : ascii) : option Z :=
  let n := nat_of_ascii a in
  if bool_decide (48 ≤ n ≤ 57)%nat then Some (Z.of_nat n - 48) else None.

Fixpoint lstrip (s : list ascii) : list ascii :=
  match s with
  | a :: s' => if is_space a then lstrip s' else s
  | [] => []
  end.

Definition strip (s : list ascii) : list ascii :=
  reverse (lstrip (reverse (lstrip s))).

Fixpoint parse_digits (acc : Z) (after_digit : bool) (s : list ascii) : option Z :=
  match s with
  | [] => if after_digit then Some acc else None
  | a :: s' =>
      match digit_val a with
      | Some d => parse_digits (10 * acc + d) true s'
      | None =>
          if bool_decide (a = "_"%char) && after_digit
          then parse_digits acc false s'
          else None
      end
  end.

(** [sys.get_int_max_str_digits()], as the interpreter starts. *)
Definition max_str_digits : Z := 4300.

(** The digits of a numeral, leading zeros included, underscores not. *)
Definition count_digits (s : list ascii) : Z :=
  Z.of_nat (length (filter (λ a, is_Some (digit_val a)) s)).

Definition py_int (s : string) : pyres Z :=
  let body := strip (String.list_ascii_of_string s) in
  let parsed :=
    match body with
    | "+"%char :: ds => parse_digits 0 false ds
    | "-"%char :: ds => Z.opp <$> parse_digits 0 false ds
    | ds => parse_digits 0 false ds
    end in
  match parsed with
  | Some z =>
      if bool_decide (max_str_digits < count_digits body) then Raise ValueError
      else Ok z
  | None => Raise ValueError
  end.

(** The decimal numeral of an integer. *)
Definition numeral (n : Z) : string := pretty n.

(** [str(n)] of an integer: its decimal numeral; [ValueError] if that has
    more than [max_str_digits] digits. *)
Definition py_str (n : Z) : pyres string :=
  if bool_decide (max_str_digits < Z.of_nat (String.length (numeral (Z.abs n))))
  then Raise ValueError
  else Ok (numeral n).

(** ** The solver: [src/Minesweeper_AutoPlay.py] *)

Module AutoPlay.

Definition FLAGGED : string := "F".
Definition UNSEEN : string := "#".

(** Action codes of the returned pair: [0] presses, [1] flags. *)
Definition REVEAL : Z := 0.
Definition FLAG : Z := 1.

(** A deduction: the action code and the coordinates it applies to. *)
Definition move : Type := Z * list (Z * Z).

(** The pairs visited by
    [for i in range(t - 1, t + 2): for j in range(k - 1, k + 2)]. *)
Definition window (t k : Z) : list (Z * Z) :=
  i ← range2 (t - 1) (t + 2); (λ j, (i, j)) <$> range2 (k - 1) (k + 2).

(** The body of the two loops of [check], threading [flagged] and
    [unseen]. *)
Fixpoint scan_window (board : list (list string)) (m n : Z)
    (ps : list (Z * Z)) (flagged : Z) (unseen : list (Z * Z))
    : pyres (Z * list (Z * Z)) :=
  match ps with
  | [] => Ok (flagged, unseen)
  | (i, j) :: ps' =>
      if bool_decide (i >= 0 ∧ j >= 0 ∧ i < m ∧ j < n) then
        s ← get2 board i j;
        let flagged' := if bool_decide (s = FLAGGED) then flagged + 1 else flagged in
        s' ← get2 board i j;
        let unseen' := if bool_decide (s' = UNSEEN) then unseen ++ [(i, j)] else unseen in
        scan_window board m n ps' flagged' unseen'
      else scan_window board m n ps' flagged unseen
  end.

(** [check(board, t, k, m, n)]; the result [-1] is [None]. *)
Definition check (board : list (list string)) (t k m n : Z) : pyres (option move) :=
  target_number ← get2 board t k;
  if bool_decide (target_number = UNSEEN ∨ target_number = FLAGGED) then Ok None
  else
    a ← py_int target_number;
    z ← py_int "0";
    let target_number := a - z in
    '(flagged, unseen) ← scan_window board m n (window t k) 0 [];
    if bool_decide (length unseen ≠ 0%nat) then
      if bool_decide (flagged = target_number) then Ok (Some (0, unseen))
      else if bool_decide (target_number - flagged = Z.of_nat (length unseen))
      then Ok (Some (1, unseen))
      else Ok None
    else Ok None.

(** The two loops of [solution] over the remaining cells [ps], with the
    current [doomsday_plan]; the code after the loops is the [[]] case. *)
Fixpoint scan (board : list (list string)) (m n : Z)
    (ps : list (Z * Z)) (doomsday_plan : Z * Z) : pyres move :=
  match ps with
  | [] =>
      if bool_decide (doomsday_plan = (-1, -1)) then Raise NoUnseenLeft
      else Ok (0, [doomsday_plan])
  | (i, j) :: ps' =>
      result ← check board i j m n;
      s ← get2 board i j;
      let doomsday_plan := if bool_decide (s = UNSEEN) then (i, j) else doomsday_plan in
      match result with
      | Some r => Ok r
      | None => scan board m n ps' doomsday_plan
      end
  end.

(** [solution(board, m, n)] *)
Definition solution (board : list (list string)) (m n : Z) : pyres move :=
  scan board m n (grid_cells m n) (-1, -1).

End AutoPlay.

(** ** The board engine: class [Board] of [src/Minesweeper.py] *)

Definition MINE : Z := -1.

Record Board := mkBoard {
  rows : Z;
  cols : Z;
  mines_count : Z;
  mines : gset (Z * Z);
  revealed : list (list bool);
  flagged : list (list bool);
  board : list (list Z);
  placed : bool;
  game_over : bool;
  victory : bool
}.

(** Field assignments [self.x = v]. *)
Definition with_mines (b : Board) (s : gset (Z * Z)) : Board :=
  mkBoard (rows b) (cols b) (mines_count b) s (revealed b) (flagged b)
          (board b) (placed b) (game_over b) (victory b).
Definition with_revealed (b : Board) (m : list (list bool)) : Board :=
  mkBoard (rows b) (cols b) (mines_count b) (mines b) m (flagged b)
          (board b) (placed b) (game_over b) (victory b).
Definition with_flagged (b : Board) (m : list (list bool)) : Board :=
  mkBoard (rows b) (cols b) (mines_count b) (mines b) (revealed b) m
          (board b) (placed b) (game_over b) (victory b).
Definition with_board (b : Board) (m : list (list Z)) : Board :=
  mkBoard (rows b) (cols b) (mines_count b) (mines b) (revealed b) (flagged b)
          m (placed b) (game_over b) (victory b).
Definition with_placed (b : Board) (v : bool) : Board :=
  mkBoard (rows b) (cols b) (mines_count b) (mines b) (revealed b) (flagged b)
          (board b) v (game_over b) (victory b).
Definition with_game_over (b : Board) (v : bool) : Board :=
  mkBoard (rows b) (cols b) (mines_count b) (mines b) (revealed b) (flagged b)
          (board b) (placed b) v (victory b).
Definition with_victory (b : Board) (v : bool) : Board :=
  mkBoard (rows b) (cols b) (mines_count b) (mines b) (revealed b) (flagged b)
          (board b) (placed b) (game_over b) v.

(** How a method call ends: it returns, or it raises; either way the
    object is left in the state [b] reached at that point. *)
Inductive outcome :=
| Done (b : Board)
| Raised (e : exn) (b : Board).

Definition and_then (o : outcome) (k : Board → outcome) : outcome :=
  match o with
  | Done b => k b
  | Raised e b => Raised e b
  end.

(** Evaluate an expression in state [b]; an exception leaves [b] as it is. *)
Definition eval {A} (b : Board) (x : pyres A) (k : A → outcome) : outcome :=
  match x with
  | Ok a => k a
  | Raise e => Raised e b
  end.

(** [[[v]*cols for _ in range(rows)]]; a negative size gives no element. *)
Definition fresh {A} (nrows ncols : Z) (v : A) : list (list A) :=
  replicate (Z.to_nat nrows) (replicate (Z.to_nat ncols) v).

(** [Board.reset] *)
Definition reset (b : Board) : Board :=
  mkBoard (rows b) (cols b) (mines_count b) ∅
          (fresh (rows b) (cols b) false)
          (fresh (rows b) (cols b) false)
          (fresh (rows b) (cols b) 0)
          false false false.

(** [Board.__init__]: the three sizes are stored, then [reset] builds
    every other field. *)
Definition Board_init (nrows ncols nmines : Z) : Board :=
  reset (mkBoard nrows ncols nmines ∅ [] [] [] false false false).

(** [Board.in_bounds] *)
Definition in_bounds (b : Board) (r c : Z) : bool :=
  bool_decide (0 ≤ r < rows b ∧ 0 ≤ c < cols b).

(** [Board.neighbors]: the generator's items, in the order it yields them. *)
Definition neighbors (b : Board) (r c : Z) : list (Z * Z) :=
  dr ← [-1; 0; 1];
  dc ← [-1; 0; 1];
  if bool_decide (dr = 0 ∧ dc = 0) then []
  else
    let nr := r + dr in
    let nc := c + dc in
    if in_bounds b nr nc then [(nr, nc)] else [].

(** [random.sample(population, k)].  The generator's draws are the
    parameter [rnd]: each of the [k] rounds removes the element at
    position [draw mod size] from what is left of the population, so the
    result is [k] elements at distinct positions, and every such choice is
    the result for some [rnd].  A [k] that is negative or larger than the
    population raises [ValueError]. *)
Fixpoint sample_draws {A} (rnd : list nat) (population : list A) (k : nat) : list A :=
  match k with
  | O => []
  | S k' =>
      let i := (hd 0 rnd `mod` length population)%nat in
      match population !! i with
      | Some x => x :: sample_draws (tl rnd) (delete i population) k'
      | None => []
      end
  end.

Definition random_sample {A} (rnd : list nat) (population : list A) (k : Z)
    : pyres (list A) :=
  if bool_decide (0 ≤ k ≤ Z.of_nat (length population))
  then Ok (sample_draws rnd population (Z.to_nat k))
  else Raise ValueError.

(** [self.board[r][c] = v], [self.revealed[r][c] = v], [self.flagged[r][c] = v] *)
Definition store_board (b : Board) (r c v : Z) : outcome :=
  eval b (set2 (board b) r c v) (λ m, Done (with_board b m)).
Definition store_revealed (b : Board) (r c : Z) (v : bool) : outcome :=
  eval b (set2 (revealed b) r c v) (λ m, Done (with_revealed b m)).
Definition store_flagged (b : Board) (r c : Z) (v : bool) : outcome :=
  eval b (set2 (flagged b) r c v) (λ m, Done (with_flagged b m)).

(** [for r,c in self.mines: self.board[r][c] = self.MINE] *)
Fixpoint mark_mines (ps : list (Z * Z)) (b : Board) : outcome :=
  match ps with
  | [] => Done b
  | (r, c) :: ps' => and_then (store_board b r c MINE) (mark_mines ps')
  end.

(** [sum(1 for nr,nc in self.neighbors(r,c) if (nr,nc) in self.mines)] *)
Definition count_adjacent (b : Board) (r c : Z) : Z :=
  Z.of_nat (length (filter (λ p, p ∈ mines b) (neighbors b r c))).

(** The counting loops of [place_mines] over the remaining cells. *)
Fixpoint fill_counts (ps : list (Z * Z)) (b : Board) : outcome :=
  match ps with
  | [] => Done b
  | (r, c) :: ps' =>
      eval b (get2 (board b) r c) (λ v,
        if bool_decide (v = MINE) then fill_counts ps' b
        else and_then (store_board b r c (count_adjacent b r c)) (fill_counts ps'))
  end.

(** The locals [safe_zone] and [available] of [place_mines]. *)
Definition safe_zone (b : Board) (safe_r safe_c : Z) : gset (Z * Z) :=
  {[ (safe_r, safe_c) ]} ∪ list_to_set (neighbors b safe_r safe_c).

Definition available (b : Board) (safe_r safe_c : Z) : list (Z * Z) :=
  let cells := grid_cells (rows b) (cols b) in
  filter (λ pos, pos ∉ safe_zone b safe_r safe_c) cells.

(** [Board.place_mines] *)
Definition place_mines (b : Board) (safe_r safe_c : Z) (rnd : list nat) : outcome :=
  eval b (random_sample rnd (available b safe_r safe_c) (mines_count b)) (λ picked,
    let b := with_mines b (list_to_set picked) in
    and_then (mark_mines (elements (mines b)) b) (λ b,
    and_then (fill_counts (grid_cells (rows b) (cols b)) b) (λ b,
    Done (with_placed b true)))).

(** [sum(1 for r in range(self.rows) for c in range(self.cols)
         if self.revealed[r][c])] over the remaining cells. *)
Fixpoint count_revealed (m : list (list bool)) (ps : list (Z * Z)) : pyres Z :=
  match ps with
  | [] => Ok 0
  | (r, c) :: ps' =>
      v ← get2 m r c;
      n ← count_revealed m ps';
      Ok (if v : bool then 1 + n else n)
  end.

(** [Board.check_victory] *)
Definition check_victory (b : Board) : outcome :=
  if game_over b then Done b
  else
    eval b (count_revealed (revealed b) (grid_cells (rows b) (cols b)))
      (λ revealed_count,
        if bool_decide (revealed_count = rows b * cols b - mines_count b)
        then Done (with_victory (with_game_over b true) true)
        else Done b).

(** The inner [for nr, nc in self.neighbors(cr, cc)] of the cascade:
    an unrevealed, unflagged neighbour is appended to the stack.  The
    stack is kept with its top (the end of the Python list) first. *)
Fixpoint push_neighbors (b : Board) (ns : list (Z * Z)) (stack : list (Z * Z))
    : pyres (list (Z * Z)) :=
  match ns with
  | [] => Ok stack
  | (nr, nc) :: ns' =>
      v ← get2 (revealed b) nr nc;
      if v : bool then push_neighbors b ns' stack
      else
        f ← get2 (flagged b) nr nc;
        if f : bool then push_neighbors b ns' stack
        else push_neighbors b ns' ((nr, nc) :: stack)
  end.

(** How one iteration of the [while stack:] loop ends: with the stack and
    the board for the next test of the loop, or with an exception. *)
Inductive iteration :=
| Continue (stack : list (Z * Z)) (b : Board)
| Break (e : exn) (b : Board).

(** The body of the loop, after [cr, cc = stack.pop()] has left [stack]. *)
Definition cascade_body (cr cc : Z) (stack : list (Z * Z)) (b : Board) : iteration :=
  match get2 (revealed b) cr cc with
  | Raise e => Break e b
  | Ok true => Continue stack b
  | Ok false =>
      match store_revealed b cr cc true with
      | Raised e b' => Break e b'
      | Done b' =>
          match get2 (board b') cr cc with
          | Raise e => Break e b'
          | Ok v =>
              if bool_decide (v = 0) then
                match push_neighbors b' (neighbors b' cr cc) stack with
                | Raise e => Break e b'
                | Ok stack' => Continue stack' b'
                end
              else Continue stack b'
          end
      end
  end.

(** [while stack: ...] of [reveal].  Each unit of [fuel] pays for one
    test of the loop condition; [None] means the fuel ran out before the
    stack emptied. *)
Fixpoint cascade (fuel : nat) (stack : list (Z * Z)) (b : Board) : option outcome :=
  match fuel with
  | O => None
  | S fuel' =>
      match stack with
      | [] => Some (Done b)
      | (cr, cc) :: stack' =>
          match cascade_body cr cc stack' b with
          | Break e b' => Some (Raised e b')
          | Continue stack'' b' => cascade fuel' stack'' b'
          end
      end
  end.

(** Number of cells not yet revealed. *)
Definition unrevealed (b : Board) : nat :=
  length (filter (λ v, v = false) (concat (revealed b))).

(** Iterations granted to the cascade of one [reveal]: every iteration
    pops one entry, and only the revealing of a new cell pushes entries,
    eight at most. *)
Definition cascade_fuel (b : Board) : nat := 2 + 9 * unrevealed b.

(** The statements of [reveal] that follow the placement of the mines. *)
Definition reveal_placed (b : Board) (r c : Z) : option outcome :=
  if bool_decide ((r, c) ∈ mines b) then
    Some (and_then (store_revealed b r c true) (λ b,
            Done (with_victory (with_game_over b true) false)))
  else
    match cascade (cascade_fuel b) [(r, c)] b with
    | None => None
    | Some o => Some (and_then o check_victory)
    end.

(** [Board.reveal].  [rnd] is what the random generator draws if this
    call places the mines.  The result is [None] only if the cascade ran
    out of fuel, which [reveal_returns] excludes. *)
Definition reveal (b : Board) (r c : Z) (rnd : list nat) : option outcome :=
  if game_over b then Some (Done b)
  else
    match get2 (flagged b) r c with
    | Raise e => Some (Raised e b)
    | Ok true => Some (Done b)
    | Ok false =>
        match get2 (revealed b) r c with
        | Raise e => Some (Raised e b)
        | Ok true => Some (Done b)
        | Ok false =>
            match (if placed b then Done b else place_mines b r c rnd) with
            | Raised e b' => Some (Raised e b')
            | Done b' => reveal_placed b' r c
            end
        end
    end.

(** [Board.toggle_flag] *)
Definition toggle_flag (b : Board) (r c : Z) : outcome :=
  if game_over b then Done b
  else
    eval b (get2 (revealed b) r c) (λ v,
      if v : bool then Done b
      else
        eval b (get2 (flagged b) r c) (λ f,
          and_then (store_flagged b r c (negb f)) check_victory)).

(** ** The classifier: [MinesweeperGUI.get_solver_board] *)

Definition BOMB : string := "*".

(** The symbol appended for the cell [(r, c)]. *)
Definition classify_cell (b : Board) (r c : Z) : pyres string :=
  f ← get2 (flagged b) r c;
  if f : bool then Ok AutoPlay.FLAGGED
  else
    v ← get2 (revealed b) r c;
    if negb v then Ok AutoPlay.UNSEEN
    else
      val ← get2 (board b) r c;
      if bool_decide (val = MINE) then Ok BOMB else py_str val.

(** The body of [get_solver_board].  The method reads [self.rows],
    [self.cols] and [self.board]: the loops run over the sizes [nr] and
    [nc] that the window holds, whatever the sizes of the board [b]
    are. *)
Definition get_solver_board (nr nc : Z) (b : Board) : pyres (list (list string)) :=
  mapM (λ r, mapM (λ c, classify_cell b r c) (range nc)) (range nr).


(** ** The window: class [MinesweeperGUI] of [src/Minesweeper.py]

    The window holds its own [rows], [cols] and [mines], the board, and
    the grid of buttons.  Of a Tk button the options that the code sets
    are kept; the message boxes that a handler opens are appended to
    [w_messages].  An exception that leaves a handler is reported by Tk
    and the window stays as the handler left it. *)

Module GUI.

Inductive relief := RAISED | SUNKEN.
Inductive state := NORMAL | DISABLED.

Record Button := mkButton {
  text : string;
  btn_relief : relief;
  btn_state : state;
  fg : option string
}.

(** [tk.Button(self.board_frame, width=2, height=1, command=...)] *)
Definition new_button : Button := mkButton "" RAISED NORMAL None.

(** The message boxes: [showerror('Error', 'Invalid settings')],
    [showinfo('Victory', 'You won!')],
    [showinfo('Game Over', 'You hit a mine!')] and
    [showinfo("AutoPlay", str(e))]. *)
Inductive message :=
| Invalid_settings
| You_won
| You_hit_a_mine
| AutoPlay_failed (e : exn).

Record Window := mkWindow {
  w_rows : Z;
  w_cols : Z;
  w_mines : Z;
  w_board : Board;
  w_buttons : list (list Button);
  w_messages : list message
}.

Definition with_rows (w : Window) (v : Z) : Window :=
  mkWindow v (w_cols w) (w_mines w) (w_board w) (w_buttons w) (w_messages w).
Definition with_cols (w : Window) (v : Z) : Window :=
  mkWindow (w_rows w) v (w_mines w) (w_board w) (w_buttons w) (w_messages w).
Definition with_mines (w : Window) (v : Z) : Window :=
  mkWindow (w_rows w) (w_cols w) v (w_board w) (w_buttons w) (w_messages w).
Definition with_board (w : Window) (b : Board) : Window :=
  mkWindow (w_rows w) (w_cols w) (w_mines w) b (w_buttons w) (w_messages w).
Definition with_buttons (w : Window) (bs : list (list Button)) : Window :=
  mkWindow (w_rows w) (w_cols w) (w_mines w) (w_board w) bs (w_messages w).
Definition show (w : Window) (msg : message) : Window :=
  mkWindow (w_rows w) (w_cols w) (w_mines w) (w_board w) (w_buttons w)
           (w_messages w ++ [msg]).

(** How a handler ends: it returns, or an exception leaves it. *)
Inductive handled :=
| Returned (w : Window)
| Failed (e : exn) (w : Window).

Definition window_of (h : handled) : Window :=
  match h with
  | Returned w => w
  | Failed _ w => w
  end.

Definition and_then (h : handled) (k : Window → handled) : handled :=
  match h with
  | Returned w => k w
  | Failed e w => Failed e w
  end.

(** A method call on [self.board]. *)
Definition on_board (w : Window) (o : outcome) : handled :=
  match o with
  | Done b => Returned (with_board w b)
  | Raised e b => Failed e (with_board w b)
  end.

(** The body of the loops of [update_ui] for the cell [(r, c)]; the
    result is the grid of buttons after the [config] call. *)
Definition config_cell (w : Window) (r c : Z) : pyres (list (list Button)) :=
  btn ← get2 (w_buttons w) r c;
  v ← get2 (revealed (w_board w)) r c;
  if v : bool then
    val ← get2 (board (w_board w)) r c;
    if bool_decide ((r, c) ∈ mines (w_board w)) then
      set2 (w_buttons w) r c (mkButton "*" SUNKEN DISABLED (Some "blue"))
    else if bool_decide (val = 0) then
      set2 (w_buttons w) r c (mkButton "" SUNKEN DISABLED (fg btn))
    else
      txt ← py_str val;
      set2 (w_buttons w) r c (mkButton txt SUNKEN DISABLED (Some "blue"))
  else
    f ← get2 (flagged (w_board w)) r c;
    if f : bool then
      set2 (w_buttons w) r c (mkButton "F" (btn_relief btn) (btn_state btn) (fg btn))
    else
      set2 (w_buttons w) r c (mkButton "" (btn_relief btn) (btn_state btn) (fg btn)).

Fixpoint update_cells (ps : list (Z * Z)) (w : Window) : handled :=
  match ps with
  | [] => Returned w
  | (r, c) :: ps' =>
      match config_cell w r c with
      | Ok bs => update_cells ps' (with_buttons w bs)
      | Raise e => Failed e w
      end
  end.

(** [MinesweeperGUI.update_ui] *)
Definition update_ui (w : Window) : handled :=
  update_cells (grid_cells (w_rows w) (w_cols w)) w.

(** The loops of [end_game]: [self.board.revealed[r][c] = True]. *)
Fixpoint reveal_all (ps : list (Z * Z)) (w : Window) : handled :=
  match ps with
  | [] => Returned w
  | (r, c) :: ps' =>
      and_then (on_board w (store_revealed (w_board w) r c true)) (reveal_all ps')
  end.

(** [MinesweeperGUI.end_game] *)
Definition end_game (w : Window) : handled :=
  and_then (reveal_all (grid_cells (w_rows w) (w_cols w)) w) (λ w,
  and_then (update_ui w) (λ w,
  if victory (w_board w) then Returned (show w You_won)
  else Returned (show w You_hit_a_mine))).

(** [MinesweeperGUI.draw_board]: a new button for every cell, then
    [update_ui]. *)
Definition draw_board (w : Window) : handled :=
  update_ui (with_buttons w (fresh (w_rows w) (w_cols w) new_button)).

(** [MinesweeperGUI.new_game] *)
Definition new_game (w : Window) : handled :=
  draw_board (with_board w (Board_init (w_rows w) (w_cols w) (w_mines w))).

(** [MinesweeperGUI.__init__] with [build_ui]. *)
Definition init : handled :=
  draw_board (mkWindow 20 20 80 (Board_init 20 20 80) [] []).

(** [MinesweeperGUI.apply_settings]; the three strings are what the
    entries hold when the button is pressed. *)
Definition apply_settings (w : Window) (rows_entry cols_entry mines_entry : string)
    : handled :=
  match py_int rows_entry with
  | Raise _ => Returned (show w Invalid_settings)
  | Ok v =>
      let w := with_rows w v in
      match py_int cols_entry with
      | Raise _ => Returned (show w Invalid_settings)
      | Ok v =>
          let w := with_cols w v in
          match py_int mines_entry with
          | Raise _ => Returned (show w Invalid_settings)
          | Ok v => new_game (with_mines w v)
          end
      end
  end.

(** The end of the three handlers that play:
    [self.update_ui()] and [if self.board.game_over: self.end_game()]. *)
Definition refresh (w : Window) : handled :=
  and_then (update_ui w) (λ w,
    if game_over (w_board w) then end_game w else Returned w).

(** [MinesweeperGUI.left_click]; [rnd] is what the random generator draws
    if the call places the mines. *)
Definition left_click (w : Window) (r c : Z) (rnd : list nat) : option handled :=
  o ← reveal (w_board w) r c rnd;
  Some (and_then (on_board w o) refresh).

(** [MinesweeperGUI.right_click] *)
Definition right_click (w : Window) (r c : Z) : handled :=
  and_then (on_board w (toggle_flag (w_board w) r c)) refresh.

(** [MinesweeperGUI.get_solver_board], over the window's own [rows] and
    [cols]. *)
Definition get_solver_board (w : Window) : pyres (list (list string)) :=
  get_solver_board (w_rows w) (w_cols w) (w_board w).

(** [for (r, c) in coords: ...] of [autoplay_step]. *)
Fixpoint apply_move (action : Z) (coords : list (Z * Z)) (rnd : list nat)
    (w : Window) : option handled :=
  match coords with
  | [] => Some (Returned w)
  | (r, c) :: coords' =>
      if bool_decide (action = 0) then
        o ← reveal (w_board w) r c rnd;
        match on_board w o with
        | Returned w' => apply_move action coords' rnd w'
        | Failed e w' => Some (Failed e w')
        end
      else if bool_decide (action = 1) then
        match on_board w (toggle_flag (w_board w) r c) with
        | Returned w' => apply_move action coords' rnd w'
        | Failed e w' => Some (Failed e w')
        end
      else apply_move action coords' rnd w
  end.

(** [MinesweeperGUI.autoplay_step] *)
Definition autoplay_step (w : Window) (rnd : list nat) : option handled :=
  match get_solver_board w with
  | Raise e => Some (Failed e w)
  | Ok solver_board =>
      match AutoPlay.solution solver_board (w_rows w) (w_cols w) with
      | Raise e => Some (Returned (show w (AutoPlay_failed e)))
      | Ok (action, coords) =>
          h ← apply_move action coords rnd w;
          Some (and_then h refresh)
      end
  end.

End GUI.

(** ** The input and output of the network: [src/V2.0/Minesweeper_AI.py]

    The network itself is not modelled.  What remains of the class
    [MinesweeperAITrainer] is the encoding of a view as the flat list that
    is fed to the network, and the passage between a cell and the index of
    the network's output for it.  The cell codes [UNSEEN], [FLAGGED] and
    [BOMB] come from a module that the sources do not contain; they are
    parameters here. *)

Module AI.

Section Codes.

Variables UNSEEN FLAGGED BOMB : string.

(** [mapping = {UNSEEN: 0, FLAGGED: -1, BOMB: -2}]: a later key of a
    dictionary display replaces an equal earlier one. *)
Definition mapping : gmap string Z :=
  <[BOMB := -2]> (<[FLAGGED := -1]> (<[UNSEEN := 0]> ∅)).

(** What the body of the loops appends for [cell]; the bare [except]
    turns every failure of [int(cell)] into [0]. *)
Definition encode_cell (cell : string) : Z :=
  match mapping !! cell with
  | Some v => v
  | None =>
      match py_int cell with
      | Ok v => v
      | Raise _ => 0
      end
  end.

(** [MinesweeperAITrainer.encode_board] *)
Definition encode_board (board : list (list string)) : list Z :=
  row ← board; cell ← row; [encode_cell cell].

End Codes.

(** [self.coord] of [make_guess]:
    [(coord_idx // self.board_cols, coord_idx % self.board_cols)];
    [None] is the [ZeroDivisionError]. *)
Definition coord (board_cols coord_idx : Z) : option (Z * Z) :=
  if bool_decide (board_cols = 0) then None
  else Some (coord_idx `div` board_cols, coord_idx `mod` board_cols).

(** [true_coord] of [adjust_based_on_feedback]:
    [coord[0] * self.board_cols + coord[1]]. *)
Definition true_coord (board_cols : Z) (coord : Z * Z) : Z :=
  coord.1 * board_cols + coord.2.

End AI.

(** * Vocabulary of the properties *)

(** ** Matrices read by position *)

(** [m] has [nr] rows of [nc] entries. *)
Definition mat_shape {A} (nr nc : nat) (m : list (list A)) : Prop :=
  length m = nr ∧ Forall (λ row, length row = nc) m.

(** The entry at row [i], column [j]. *)
Definition mget {A} (m : list (list A)) (i j : nat) : option A :=
  m !! i ≫= λ row, row !! j.

(** The matrix with the entry at row [i], column [j] replaced by [x]. *)
Definition mset {A} (m : list (list A)) (i j : nat) (x : A) : list (list A) :=
  match m !! i with
  | Some row => <[i := <[j := x]> row]> m
  | None => m
  end.

(** ** Boards and their cells *)

(** [q] is one of the eight cells around [p]. *)
Definition adjacent (p q : Z * Z) : Prop :=
  Z.abs (p.1 - q.1) ≤ 1 ∧ Z.abs (p.2 - q.2) ≤ 1 ∧ p ≠ q.

#[global] Instance adjacent_dec p q : Decision (adjacent p q).
Proof. unfold adjacent. apply _. Defined.

(** Numbers of rows and columns of the arrays that [reset] builds. *)
Definition nrows (b : Board) : nat := Z.to_nat (rows b).
Definition ncols (b : Board) : nat := Z.to_nat (cols b).

(** The three arrays have [rows] rows of [cols] entries. *)
Definition shaped (b : Board) : Prop :=
  mat_shape (nrows b) (ncols b) (revealed b) ∧
  mat_shape (nrows b) (ncols b) (flagged b) ∧
  mat_shape (nrows b) (ncols b) (board b).

(** What [place_mines] stores in the cell at position [(i, j)]. *)
Definition cell_value (b : Board) (i j : nat) : Z :=
  if decide ((Z.of_nat i, Z.of_nat j) ∈ mines b) then MINE
  else count_adjacent b (Z.of_nat i) (Z.of_nat j).

(** The board [place_mines] leaves when the sampling returns [picked] and
    the loops have stored the matrix [m]. *)
Definition placed_board (b : Board) (picked : list (Z * Z)) (m : list (list Z)) : Board :=
  mkBoard (rows b) (cols b) (mines_count b) (list_to_set picked)
          (revealed b) (flagged b) m true (game_over b) (victory b).

(** Position in the arrays of the cell that the index pair [p] reads. *)
Definition position (b : Board) (p : Z * Z) : option (nat * nat) :=
  i ← py_index (nrows b) p.1; j ← py_index (ncols b) p.2; Some (i, j).

(** The test of the inner loop: not revealed and not flagged. *)
Definition pushable (b : Board) (p : Z * Z) : Prop :=
  get2 (revealed b) p.1 p.2 = Ok false ∧ get2 (flagged b) p.1 p.2 = Ok false.

#[global] Instance exn_eq_dec : EqDecision exn.
Proof. solve_decision. Defined.

#[global] Instance pyres_eq_dec {A} `{EqDecision A} : EqDecision (pyres A).
Proof. solve_decision. Defined.

#[global] Instance pushable_dec b p : Decision (pushable b p).
Proof. unfold pushable. apply _. Defined.

(** ** The cascade *)

(** The measure that every iteration of the cascade decreases. *)
Definition weight (stack : list (Z * Z)) (b : Board) : nat :=
  length stack + 9 * unrevealed b.

(** What every test of the loop condition finds, for a cascade started on
    the board [b0] with the index pair [s]: only [revealed] has changed and
    it has only grown, by unflagged cells; the stack holds index pairs of
    unflagged cells; the cell of [s] is revealed or [s] is on the stack. *)
Definition cascade_inv (b0 : Board) (s : Z * Z) (stack : list (Z * Z)) (b : Board) : Prop :=
  shaped b ∧
  (∃ m, b = with_revealed b0 m) ∧
  (∀ p, p ∈ stack →
     ∃ i j, position b0 p = Some (i, j) ∧ mget (flagged b0) i j = Some false) ∧
  (∀ i j, mget (revealed b0) i j = Some true → mget (revealed b) i j = Some true) ∧
  (∀ i j, mget (revealed b) i j = Some true →
     mget (revealed b0) i j = Some true ∨ mget (flagged b0) i j = Some false) ∧
  (∀ i j, position b0 s = Some (i, j) →
     mget (revealed b) i j = Some true ∨ s ∈ stack).

(** ** Calls, reachable boards and their invariant *)

(** Number of revealed cells of the grid. *)
Definition revealed_count (b : Board) : Z :=
  Z.of_nat (length (filter (λ p, get2 (revealed b) p.1 p.2 = Ok true)
                           (grid_cells (rows b) (cols b)))).

(** Number of cells that are not mines according to the configuration. *)
Definition safe_cells (b : Board) : Z := rows b * cols b - mines_count b.

(** A call of one of the two mutating methods. *)
Inductive call :=
| Reveal (r c : Z) (rnd : list nat)
| ToggleFlag (r c : Z).

(** The outcome of a call; [None] if its cascade ran out of fuel. *)
Definition perform (b : Board) (k : call) : option outcome :=
  match k with
  | Reveal r c rnd => reveal b r c rnd
  | ToggleFlag r c => Some (toggle_flag b r c)
  end.

(** The object after the call, whether it returned or raised. *)
Definition state_of (o : outcome) : Board :=
  match o with
  | Done b => b
  | Raised _ b => b
  end.

(** Boards obtained from a freshly constructed one by any sequence of
    [reveal] and [toggle_flag] calls, with any arguments. *)
Inductive reachable : Board → Prop :=
| reachable_init nr nc nm : reachable (Board_init nr nc nm)
| reachable_call b k o :
    reachable b → perform b k = Some o → reachable (state_of o).

(** What holds of every reachable board. *)
Record Inv (b : Board) : Prop := {
  inv_shaped : shaped b;
  inv_mines : ∀ p, p ∈ mines b → in_bounds b p.1 p.2 = true;
  inv_exclusive : ∀ i j,
    mget (flagged b) i j = Some true → mget (revealed b) i j = Some true → False;
  inv_victory :
    victory b = true → game_over b = true ∧ revealed_count b = safe_cells b;
  inv_lost :
    game_over b = true → victory b = false → placed b = true;
  inv_unplaced :
    placed b = false →
    board b = fresh (rows b) (cols b) 0 ∧ mines b = ∅ ∧
    revealed b = fresh (rows b) (cols b) false;
  inv_placed :
    placed b = true →
    Z.of_nat (size (mines b)) = mines_count b ∧
    ∀ i j, (i < nrows b)%nat → (j < ncols b)%nat →
      mget (board b) i j = Some (cell_value b i j)
}.

(** The board after the call [k]. *)
Definition after (b : Board) (k : call) : Board :=
  match perform b k with
  | Some o => state_of o
  | None => b
  end.

(** The number of grid cells around [(r, c)] that are mines. *)
Definition adjacent_mines (b : Board) (r c : Z) : Z :=
  Z.of_nat (length (filter (λ p, p ∈ mines b ∧ adjacent (r, c) p)
                           (grid_cells (rows b) (cols b)))).

(** What a call leaves alone: the configuration always, and the mine
    layout with its counts once the mines are placed. *)
Definition same_layout (b b' : Board) : Prop :=
  rows b' = rows b ∧ cols b' = cols b ∧ mines_count b' = mines_count b ∧
  (placed b = true →
   placed b' = true ∧ board b' = board b ∧ mines b' = mines b).

(** ** Some games *)

(** A 3 by 3 game: the centre is flagged, then the corner [(0, 0)] is
    revealed with the mine drawn at [(2, 2)]. *)
Definition flagged_centre : Board :=
  after (after (Board_init 3 3 1) (ToggleFlag 1 1)) (Reveal 0 0 [4%nat]).

(** A 1 by 4 game with one mine, drawn at [(0, 2)]: the first reveal opens
    [(0, 0)] and [(0, 1)], the second one hits the mine. *)
Definition mine_hit : Board :=
  after (after (Board_init 1 4 1) (Reveal 0 0 [0%nat])) (Reveal 0 2 []).

(** A 1 by 5 game with two mines, drawn at [(0, 0)] and [(0, 4)]: with
    [(0, 1)] flagged the first reveal opens [(0, 2)] and [(0, 3)] only. *)
Definition two_opened : Board :=
  after (after (Board_init 1 5 2) (ToggleFlag 0 1)) (Reveal 0 2 []).

(** The flag is taken back and the mine at [(0, 0)] is hit. *)
Definition lost_left : Board :=
  after (after two_opened (ToggleFlag 0 1)) (Reveal 0 0 []).

(** The flag stays and the mine at [(0, 4)] is hit. *)
Definition lost_right : Board := after two_opened (Reveal 0 4 []).

(** A 1 by 7 game with one mine, drawn at [(0, 4)]: the first reveal opens
    [(0, 6)] and [(0, 5)]; then [(0, 1)] is flagged.  The counts of the
    row are 0 0 0 1 * 1 0. *)
Definition flag_in_region : Board :=
  after (after (Board_init 1 7 1) (Reveal 0 6 [4%nat])) (ToggleFlag 0 1).

(** The 1 by 7 game with its mine at [(0, 4)], opened at [(0, 6)]: the
    counts are 0 0 0 1 * 1 0, the two cells on the right are revealed, and
    no cell is flagged. *)
Definition right_opened : Board := after (Board_init 1 7 1) (Reveal 0 6 [4%nat]).

(** ** Wrapped indices and the reach of a cascade *)

(** The index that Python reads for [i] in a list of length [n]. *)
Definition wrap (n i : Z) : Z := if bool_decide (i < 0) then n + i else i.

(** The cell [p] stores the count zero. *)
Definition zero_cell (b : Board) (p : Z * Z) : Prop :=
  get2 (board b) p.1 p.2 = Ok 0.

(** The cells that a cascade started at [s] is to reach on the board
    [b].  A step goes from a cell to one of the up to eight cells of the
    grid next to it, in a row, a column or a diagonal; it enters only
    cells that are neither revealed nor flagged, and it leaves only cells
    whose count is zero. *)
Inductive spread (b : Board) (s : Z * Z) : Z * Z → Prop :=
| spread_start :
    in_bounds b s.1 s.2 = true → pushable b s → spread b s s
| spread_step p q :
    spread b s p → zero_cell b p →
    in_bounds b q.1 q.2 = true → adjacent p q → pushable b q →
    spread b s q.

(** The maximal connected region of zero-count cells around [s]: the
    cells of the grid that a path of such steps through zero-count cells
    joins to [s]. *)
Inductive zero_region (b : Board) (s : Z * Z) : Z * Z → Prop :=
| region_start : zero_region b s s
| region_step p q :
    zero_region b s p → in_bounds b q.1 q.2 = true → adjacent p q →
    zero_cell b q → zero_region b s q.

(** The region together with its border: the cells of the grid next to
    a cell of the region. *)
Definition opening (b : Board) (s q : Z * Z) : Prop :=
  zero_region b s q ∨
  ∃ p, zero_region b s p ∧ in_bounds b q.1 q.2 = true ∧ adjacent p q.

(** The invariant of the cascade started at the cell [s] of the grid. *)
Definition spread_inv (b0 : Board) (s : Z * Z) (stack : list (Z * Z)) (b : Board) : Prop :=
  cascade_inv b0 s stack b ∧
  (∀ p, p ∈ stack → spread b0 s p) ∧
  (∀ q, in_bounds b0 q.1 q.2 = true → get2 (revealed b) q.1 q.2 = Ok true →
     get2 (revealed b0) q.1 q.2 = Ok true ∨ spread b0 s q) ∧
  (∀ p q, spread b0 s p → get2 (revealed b) p.1 p.2 = Ok true →
     zero_cell b0 p → q ∈ neighbors b0 p.1 p.2 → pushable b0 q →
     get2 (revealed b) q.1 q.2 = Ok true ∨ q ∈ stack).

(** ** The deduction rule of the solver *)

(** The cells of an [m] by [n] view. *)
Definition in_view (m n : Z) (p : Z * Z) : Prop := 0 ≤ p.1 < m ∧ 0 ≤ p.2 < n.

(** The list [U] of unseen neighbours and the number [F] of flagged
    neighbours of [(t, k)], as the design document defines them. *)
Definition unseen_around (view : list (list string)) (m n t k : Z) : list (Z * Z) :=
  filter (λ p, in_view m n p ∧ get2 view p.1 p.2 = Ok AutoPlay.UNSEEN)
         (AutoPlay.window t k).

Definition flagged_around (view : list (list string)) (m n t k : Z) : Z :=
  Z.of_nat (length (filter (λ p, in_view m n p ∧ get2 view p.1 p.2 = Ok AutoPlay.FLAGGED)
                           (AutoPlay.window t k))).

(** The deduction rule of the design document at a cell that shows the
    count [N]. *)
Definition deduction (view : list (list string)) (m n t k N : Z) : option AutoPlay.move :=
  let U := unseen_around view m n t k in
  let F := flagged_around view m n t k in
  if decide (U = []) then None
  else if decide (F = N) then Some (AutoPlay.REVEAL, U)
  else if decide (N - F = Z.of_nat (length U)) then Some (AutoPlay.FLAG, U)
  else None.

(** A cell at which the scan goes on: unseen, flagged, or a number without
    a deduction. *)
Definition quiet (view : list (list string)) (m n : Z) (p : Z * Z) : Prop :=
  ∃ s, get2 view p.1 p.2 = Ok s ∧
       (s = AutoPlay.UNSEEN ∨ s = AutoPlay.FLAGGED ∨
        ∃ N, py_int s = Ok N ∧ deduction view m n p.1 p.2 N = None).

(** The fallback of [solution] for the remembered coordinate [d]. *)
Definition fallback (d : Z * Z) : pyres AutoPlay.move :=
  if bool_decide (d = (-1, -1)) then Raise NoUnseenLeft
  else Ok (AutoPlay.REVEAL, [d]).

(** ** Calls and their outcomes *)

(** The coordinate pair that a call passes. *)
Definition call_cell (k : call) : Z * Z :=
  match k with
  | Reveal r c _ => (r, c)
  | ToggleFlag r c => (r, c)
  end.

(** The pairs that Python indexing accepts on the arrays of [b]. *)
Definition in_range (b : Board) (p : Z * Z) : Prop :=
  - rows b ≤ p.1 < rows b ∧ - cols b ≤ p.2 < cols b.

(** The cells outside the safe zone of [(r, c)] can hold the mines. *)
Definition feasible (b : Board) (r c : Z) : Prop :=
  0 ≤ mines_count b ≤ Z.of_nat (length (available b r c)).

(** The cells of the grid other than [(r, c)] and the up to eight cells
    next to it: the cells that may hold a mine when the first reveal is
    at [(r, c)]. *)
Definition outside_block (b : Board) (r c : Z) : list (Z * Z) :=
  filter (λ q, q ≠ (r, c) ∧ ¬ adjacent (r, c) q) (grid_cells (rows b) (cols b)).

(** The game is over and not won. *)
Definition lost (b : Board) : Prop := game_over b = true ∧ victory b = false.

(** [b1] is the board on which [reveal] goes on after its placement step. *)
Definition mines_ready (b : Board) (r c : Z) (rnd : list nat) (b1 : Board) : Prop :=
  (if placed b then Done b else place_mines b r c rnd) = Done b1.

(** The board of a game that a mine ended. *)
Definition mine_revealed (b : Board) (i j : nat) : Board :=
  with_victory (with_game_over (with_revealed b (mset (revealed b) i j true)) true) false.


(** ** Games played on the grid *)

(** Boards obtained by calls that address cells of the grid, as the
    window makes them: its buttons and the answers of the solver carry
    coordinates of the grid. *)
Inductive played : Board → Prop :=
| played_init nr nc nm : played (Board_init nr nc nm)
| played_call b k o :
    played b → in_bounds b (call_cell k).1 (call_cell k).2 = true →
    perform b k = Some o → played (state_of o).

(** ** What the solver is shown *)

(** The symbol of the cell [p]: a flag hides everything, a closed cell
    is unseen, an open one shows its mine or the number of mines around
    it. *)
Definition shown (b : Board) (p : Z * Z) : string :=
  if decide (get2 (flagged b) p.1 p.2 = Ok true) then AutoPlay.FLAGGED
  else if decide (get2 (revealed b) p.1 p.2 = Ok true) then
    if decide (p ∈ mines b) then BOMB else numeral (adjacent_mines b p.1 p.2)
  else AutoPlay.UNSEEN.

(** The view with the symbol of every cell of the grid. *)
Definition view_of (b : Board) : list (list string) :=
  (λ r, (λ c, shown b (r, c)) <$> range (cols b)) <$> range (rows b).

(** The view of the first [nr] rows and [nc] columns. *)
Definition view_over (nr nc : Z) (b : Board) : list (list string) :=
  (λ r, (λ c, shown b (r, c)) <$> range nc) <$> range nr.

(** The 3 by 3 game of [flagged_centre] with the flag moved from the
    centre to the mine at [(2, 2)].  The view is 0 0 0 / 0 # 1 / 0 1 F. *)
Definition flag_on_mine : Board :=
  after (after flagged_centre (ToggleFlag 1 1)) (ToggleFlag 2 2).

(** ** The window and its board *)

(** The sizes of the window are those of its board, and the grid of
    buttons has a button for every cell. *)
Definition agrees (w : GUI.Window) : Prop :=
  GUI.w_rows w = rows (GUI.w_board w) ∧ GUI.w_cols w = cols (GUI.w_board w) ∧
  mat_shape (nrows (GUI.w_board w)) (ncols (GUI.w_board w)) (GUI.w_buttons w).

(** What [update_ui] can draw: the grids of the board have its sizes,
    and the values of its cells are those that the engine writes, the
    mine or a count. *)
Definition drawable (b : Board) : Prop :=
  shaped b ∧
  ∀ r c v, in_bounds b r c = true → get2 (board b) r c = Ok v → -1 ≤ v ≤ 8.

(** The text of an open cell that is not a mine. *)
Definition count_text (v : Z) : string := if decide (v = 0) then "" else numeral v.

(** The text that the board asks for on the button of the cell [p]: an
    open cell shows its mine or its count, a closed one its flag. *)
Definition label (b : Board) (p : Z * Z) : string :=
  if decide (get2 (revealed b) p.1 p.2 = Ok true) then
    if decide (p ∈ mines b) then "*"
    else match get2 (board b) p.1 p.2 with
         | Ok v => count_text v
         | Raise _ => ""
         end
  else if decide (get2 (flagged b) p.1 p.2 = Ok true) then "F" else "".

(** The button [btn] shows the cell [p] of [b]. *)
Definition shows (b : Board) (p : Z * Z) (btn : GUI.Button) : Prop :=
  GUI.text btn = label b p ∧
  (get2 (revealed b) p.1 p.2 = Ok true → GUI.btn_state btn = GUI.DISABLED).

(** Every button shows its cell. *)
Definition in_sync (w : GUI.Window) : Prop :=
  ∀ r c, in_bounds (GUI.w_board w) r c = true →
    ∃ btn, get2 (GUI.w_buttons w) r c = Ok btn ∧ shows (GUI.w_board w) (r, c) btn.

(** The board after the loops of [end_game]. *)
Definition shown_all (b : Board) : Board :=
  with_revealed b (fresh (rows b) (cols b) true).

(** What the handlers keep: the window agrees with its board and shows
    it, and the board is that of a game played on the grid, with every
    cell opened once the game is over. *)
Definition steady (w : GUI.Window) : Prop :=
  agrees w ∧ in_sync w ∧
  ((game_over (GUI.w_board w) = false ∧ played (GUI.w_board w)) ∨
   (∃ b0, played b0 ∧ game_over b0 = true ∧ GUI.w_board w = shown_all b0)).

(** What the user and the buttons do. *)
Inductive event :=
| New_game
| Apply_settings (rows_entry cols_entry mines_entry : string)
| Left_click (r c : Z) (rnd : list nat)
| Right_click (r c : Z)
| Autoplay_step (rnd : list nat).

Definition handle (w : GUI.Window) (ev : event) : option GUI.handled :=
  match ev with
  | New_game => Some (GUI.new_game w)
  | Apply_settings r c m => Some (GUI.apply_settings w r c m)
  | Left_click r c rnd => GUI.left_click w r c rnd
  | Right_click r c => Some (GUI.right_click w r c)
  | Autoplay_step rnd => GUI.autoplay_step w rnd
  end.

(** The events that the window of a running program gets: a click comes
    from a button of the grid; the entries hold three numerals, or the
    first of them is none (then nothing is stored). *)
Definition on_screen (w : GUI.Window) (ev : event) : Prop :=
  match ev with
  | Left_click r c _ | Right_click r c =>
      0 ≤ r < GUI.w_rows w ∧ 0 ≤ c < GUI.w_cols w
  | Apply_settings r c m =>
      py_int r = Raise ValueError ∨
      ∃ vr vc vm, py_int r = Ok vr ∧ py_int c = Ok vc ∧ py_int m = Ok vm
  | _ => True
  end.

(** The windows of a program in which the settings are whole. *)
Inductive displayed : GUI.Window → Prop :=
| displayed_init : displayed (GUI.window_of GUI.init)
| displayed_event w ev h :
    displayed w → on_screen w ev → handle w ev = Some h →
    displayed (GUI.window_of h).

(** The boards that a handler hands to [refresh]: that of a game played
    on the grid, or one that [end_game] has opened already. *)
Definition presentable (b : Board) : Prop :=
  played b ∨ ∃ b0, played b0 ∧ game_over b0 = true ∧ b = shown_all b0.


(** The window after an event. *)
Definition after_event (w : GUI.Window) (ev : event) : GUI.Window :=
  match handle w ev with
  | Some h => GUI.window_of h
  | None => w
  end.

(** A 1 by 1 game with one mine, set up through the entries: the right
    click on its only cell flags it and wins, as there is no cell to
    open. *)
Definition won_window : GUI.Window :=
  after_event (after_event (GUI.window_of GUI.init) (Apply_settings "1" "1" "1"))
              (Right_click 0 0).


(** A 2 by 3 game with its mine at [(1, 2)], opened at [(0, 0)], in a
    window whose number of rows a half-applied [apply_settings] has set
    to 1: the classifier shows the first row only, 0 1 #. *)
Definition cropped : GUI.Window :=
  after_event
    (after_event
       (GUI.window_of (GUI.new_game (GUI.mkWindow 2 3 1 (Board_init 2 3 1) [] [])))
       (Left_click 0 0 [1%nat]))
    (Apply_settings "1" "x" "1").

(** ** The automatic player *)

(** Every flag of the grid stands on a mine. *)
Definition flags_right (b : Board) : Prop :=
  ∀ r c, in_bounds b r c = true → get2 (flagged b) r c = Ok true → (r, c) ∈ mines b.

(** The windows of games that only the automatic step plays, from a new
    game on. *)
Inductive autoplayed : GUI.Window → Prop :=
| autoplayed_new w : autoplayed (GUI.window_of (GUI.new_game w))
| autoplayed_step w rnd h :
    autoplayed w → GUI.autoplay_step w rnd = Some h →
    autoplayed (GUI.window_of h).

(** A 3 by 3 game with two mines, drawn at [(0, 0)] and [(0, 1)], that
    the automatic step plays: its first step opens the last cell and with
    it the two lower rows, its second step flags the two mines.  The view
    is then F F # / 2 2 1 / 0 0 0. *)
Definition auto_opened : GUI.Window :=
  after_event (GUI.window_of (GUI.new_game (GUI.mkWindow 3 3 2 (Board_init 3 3 2) [] [])))
              (Autoplay_step [0%nat; 0%nat]).

Definition auto_flagged : GUI.Window := after_event auto_opened (Autoplay_step []).


(** ** The input of the network *)

(** The number that stands for the cell [p] in the input of the network,
    when the cell codes are those that the classifier writes. *)
Definition code (b : Board) (p : Z * Z) : Z :=
  if decide (get2 (flagged b) p.1 p.2 = Ok true) then -1
  else if decide (get2 (revealed b) p.1 p.2 = Ok true) then
    if decide (p ∈ mines b) then -2 else adjacent_mines b p.1 p.2
  else 0.

(** * Properties *)

(** ** Indexing *)

Lemma py_index_lt len i k : py_index len i = Some k → (k < len)%nat.
Proof.
  unfold py_index. repeat case_bool_decide; intros; simplify_eq; lia.
Qed.

Lemma py_index_nonneg len i :
  0 ≤ i < Z.of_nat len → py_index len i = Some (Z.to_nat i).
Proof. intros. unfold py_index. by rewrite bool_decide_true. Qed.

Lemma py_index_neg len i :
  - Z.of_nat len ≤ i < 0 → py_index len i = Some (Z.to_nat (Z.of_nat len + i)).
Proof.
  intros. unfold py_index.
  rewrite bool_decide_false by lia. by rewrite bool_decide_true.
Qed.

Lemma py_index_out len i :
  i < - Z.of_nat len ∨ Z.of_nat len ≤ i → py_index len i = None.
Proof.
  intros. unfold py_index. by rewrite !bool_decide_false by lia.
Qed.

Lemma getitem_Ok {A} (l : list A) i x :
  getitem l i = Ok x ↔ ∃ k, py_index (length l) i = Some k ∧ l !! k = Some x.
Proof.
  unfold getitem. split.
  - destruct (py_index _ _) as [k|] eqn:E; [|done].
    destruct (l !! k) eqn:E'; [|done]. intros [= ->]. eauto.
  - intros (k & -> & ->). done.
Qed.

Lemma getitem_Raise {A} (l : list A) i e :
  getitem l i = Raise e → e = IndexError ∧ py_index (length l) i = None.
Proof.
  unfold getitem. destruct (py_index _ _) as [k|] eqn:E.
  - apply py_index_lt in E. destruct (lookup_lt_is_Some_2 l k E) as [x ->]. done.
  - by intros [= <-].
Qed.

(** ** Matrices: lists of rows of one length, read by position *)

Lemma mat_shape_row {A} nr nc (m : list (list A)) i row :
  mat_shape nr nc m → m !! i = Some row → length row = nc ∧ (i < nr)%nat.
Proof.
  intros [Hl Hf] Hi. split.
  - eapply Forall_lookup_1 in Hf; eauto.
  - rewrite <- Hl. by eapply lookup_lt_Some.
Qed.

Lemma mget_is_Some {A} nr nc (m : list (list A)) i j :
  mat_shape nr nc m → (i < nr)%nat → (j < nc)%nat → is_Some (mget m i j).
Proof.
  intros Hm Hi Hj. unfold mget.
  destruct (lookup_lt_is_Some_2 m i) as [row Hrow]; [destruct Hm; lia|].
  rewrite Hrow. simpl. apply lookup_lt_is_Some_2.
  destruct (mat_shape_row _ _ _ _ _ Hm Hrow). lia.
Qed.

Lemma mat_shape_mset {A} nr nc (m : list (list A)) i j x :
  mat_shape nr nc m → mat_shape nr nc (mset m i j x).
Proof.
  intros [Hl Hf]. unfold mset. destruct (m !! i) as [row|] eqn:Hrow; [|done].
  split; [by rewrite length_insert|].
  apply Forall_insert; [done|]. rewrite length_insert.
  by eapply Forall_lookup_1 in Hf.
Qed.

Lemma mget_mset {A} nr nc (m : list (list A)) i j x i' j' :
  mat_shape nr nc m → (i < nr)%nat → (j < nc)%nat →
  mget (mset m i j x) i' j' =
    if decide (i = i' ∧ j = j') then Some x else mget m i' j'.
Proof.
  intros Hm Hi Hj. unfold mset, mget.
  destruct (lookup_lt_is_Some_2 m i) as [row Hrow]; [destruct Hm; lia|].
  rewrite Hrow. destruct (mat_shape_row _ _ _ _ _ Hm Hrow) as [Hlen _].
  destruct (decide (i = i')) as [<-|Hne].
  - rewrite list_lookup_insert_eq by (by eapply lookup_lt_Some). simpl.
    destruct (decide (j = j')) as [<-|Hne'].
    + rewrite list_lookup_insert_eq by lia. by rewrite decide_True.
    + rewrite list_lookup_insert_ne by done. rewrite decide_False by tauto.
      by rewrite Hrow.
  - rewrite list_lookup_insert_ne by done. by rewrite decide_False by tauto.
Qed.

Lemma get2_Ok {A} nr nc (m : list (list A)) r c x :
  mat_shape nr nc m →
  get2 m r c = Ok x ↔
    ∃ i j, py_index nr r = Some i ∧ py_index nc c = Some j ∧ mget m i j = Some x.
Proof.
  intros Hm. unfold get2. split.
  - destruct (getitem m r) as [row|] eqn:E; [|done]. simpl.
    apply getitem_Ok in E as (i & Hi & Hrow). intros E.
    apply getitem_Ok in E as (j & Hj & Hx).
    destruct (mat_shape_row _ _ _ _ _ Hm Hrow) as [Hlen _].
    exists i, j. destruct Hm as [<- _]. rewrite <- Hlen.
    unfold mget. rewrite Hrow. done.
  - intros (i & j & Hi & Hj & Hx). unfold mget in Hx.
    destruct (m !! i) as [row|] eqn:Hrow; [|done]. simpl in Hx.
    destruct (mat_shape_row _ _ _ _ _ Hm Hrow) as [Hlen _].
    assert (getitem m r = Ok row) as ->.
    { apply getitem_Ok. exists i. destruct Hm as [-> _]. done. }
    simpl. apply getitem_Ok. exists j. by rewrite Hlen.
Qed.

Lemma get2_Raise {A} nr nc (m : list (list A)) r c e :
  mat_shape nr nc m →
  get2 m r c = Raise e ↔
    e = IndexError ∧ (py_index nr r = None ∨ py_index nc c = None).
Proof.
  intros Hm. unfold get2. split.
  - destruct (getitem m r) as [row|] eqn:E; simpl.
    + apply getitem_Ok in E as (i & Hi & Hrow).
      destruct (mat_shape_row _ _ _ _ _ Hm Hrow) as [Hlen _].
      intros [-> E]%getitem_Raise. rewrite Hlen in E. auto.
    + apply getitem_Raise in E as [-> E]. destruct Hm as [<- _].
      intros [= <-]. auto.
  - intros [-> H].
    destruct (py_index nr r) as [i|] eqn:Hi.
    + destruct H as [|Hc]; [done|].
      destruct (lookup_lt_is_Some_2 m i) as [row Hrow].
      { apply py_index_lt in Hi. destruct Hm. lia. }
      assert (getitem m r = Ok row) as ->.
      { apply getitem_Ok. exists i. destruct Hm as [-> _]. done. }
      simpl. destruct (mat_shape_row _ _ _ _ _ Hm Hrow) as [Hlen _].
      unfold getitem. by rewrite Hlen, Hc.
    + unfold getitem. destruct Hm as [-> _]. by rewrite Hi.
Qed.

Lemma set2_Ok {A} nr nc (m : list (list A)) r c x i j :
  mat_shape nr nc m →
  py_index nr r = Some i → py_index nc c = Some j →
  set2 m r c x = Ok (mset m i j x).
Proof.
  intros Hm Hi Hj. unfold set2, mset.
  destruct (lookup_lt_is_Some_2 m i) as [row Hrow].
  { apply py_index_lt in Hi. destruct Hm. lia. }
  destruct (mat_shape_row _ _ _ _ _ Hm Hrow) as [Hlen _].
  assert (getitem m r = Ok row) as ->.
  { apply getitem_Ok. exists i. destruct Hm as [-> _]. done. }
  simpl. unfold setitem. rewrite Hlen, Hj. simpl.
  destruct Hm as [-> _]. by rewrite Hi, Hrow.
Qed.

Lemma mat_shape_fresh {A} (nr nc : Z) (v : A) :
  mat_shape (Z.to_nat nr) (Z.to_nat nc) (fresh nr nc v).
Proof.
  unfold fresh. split; [by rewrite length_replicate|].
  apply Forall_replicate. by rewrite length_replicate.
Qed.

Lemma mget_fresh {A} (nr nc : Z) (v : A) i j x :
  mget (fresh nr nc v) i j = Some x → x = v.
Proof.
  unfold mget, fresh. destruct (replicate _ _ !! i) as [row|] eqn:E; [|done].
  apply lookup_replicate in E as [-> _]. simpl.
  by intros [-> _]%lookup_replicate.
Qed.

(** ** The grid and the neighbourhood *)

Lemma elem_of_range n x : x ∈ range n ↔ 0 ≤ x < n.
Proof.
  unfold range. rewrite list_elem_of_fmap. split.
  - intros (k & -> & Hk%elem_of_seq). lia.
  - intros H. exists (Z.to_nat x). split; [lia|]. apply elem_of_seq. lia.
Qed.

Lemma NoDup_range n : NoDup (range n).
Proof.
  unfold range. apply NoDup_fmap_2; [|apply NoDup_seq].
  intros x y. lia.
Qed.

Lemma elem_of_grid_cells m n r c :
  (r, c) ∈ grid_cells m n ↔ 0 ≤ r < m ∧ 0 ≤ c < n.
Proof.
  unfold grid_cells. rewrite list_elem_of_bind. split.
  - intros (i & Hj & Hi%elem_of_range).
    apply list_elem_of_fmap in Hj as (j & [= -> ->] & Hj%elem_of_range). done.
  - intros [Hr Hc]. exists r. split; [|by apply elem_of_range].
    apply list_elem_of_fmap. exists c. split; [done|by apply elem_of_range].
Qed.

Lemma NoDup_grid_cells m n : NoDup (grid_cells m n).
Proof.
  unfold grid_cells. apply NoDup_bind.
  - intros i1 i2 p _ _ (j1 & -> & _)%list_elem_of_fmap (j2 & [= ? _] & _)%list_elem_of_fmap.
    done.
  - intros i _. apply NoDup_fmap_2; [|apply NoDup_range]. by intros x y [= ->].
  - apply NoDup_range.
Qed.

Lemma length_grid_cells m n :
  length (grid_cells m n) = (Z.to_nat m * Z.to_nat n)%nat.
Proof.
  unfold grid_cells.
  assert (length (range m) = Z.to_nat m) as <-.
  { unfold range. by rewrite length_fmap, length_seq. }
  induction (range m) as [|i l IH]; [done|].
  rewrite bind_cons, length_app, IH, length_fmap. unfold range at 1.
  rewrite length_fmap, length_seq. simpl. lia.
Qed.

Lemma in_bounds_spec b r c :
  in_bounds b r c = true ↔ 0 ≤ r < rows b ∧ 0 ≤ c < cols b.
Proof. unfold in_bounds. by rewrite bool_decide_eq_true. Qed.

Lemma elem_of_candidate b r c (q : Z * Z) :
  q ∈ (if in_bounds b r c then [(r, c)] else []) ↔
    q = (r, c) ∧ in_bounds b r c = true.
Proof.
  destruct (in_bounds b r c).
  - rewrite list_elem_of_singleton. tauto.
  - rewrite elem_of_nil. split; [done|]. by intros [_ ?].
Qed.

Lemma elem_of_neighbors b r c q :
  q ∈ neighbors b r c ↔ in_bounds b q.1 q.2 = true ∧ adjacent (r, c) q.
Proof.
  destruct q as [r' c']. unfold neighbors, adjacent. simpl.
  rewrite !elem_of_app, !elem_of_candidate, !elem_of_nil. split.
  - intros H.
    repeat match goal with
           | H : _ ∨ _ |- _ => destruct H as [H|H]
           | H : _ ∧ _ |- _ => destruct H as [? H]
           | H : False |- _ => destruct H
           | H : (_, _) = (_, _) |- _ => injection H as ? ?; subst
           end;
      (split; [done|]); (split; [lia|]); (split; [lia|]); intros [= ? ?]; lia.
  - intros (Hb & Hr & Hc & Hne).
    assert (r' = r + -1 ∨ r' = r + 0 ∨ r' = r + 1) as Hr' by lia.
    assert (c' = c + -1 ∨ c' = c + 0 ∨ c' = c + 1) as Hc' by lia.
    destruct Hr' as [-> | [-> | ->]], Hc' as [-> | [-> | ->]]; try tauto.
    exfalso. apply Hne. f_equal; lia.
Qed.

Lemma NoDup_candidate b r c :
  NoDup (if in_bounds b r c then [(r, c)] else []).
Proof. destruct (in_bounds b r c); [apply NoDup_singleton|apply NoDup_nil_2]. Qed.

Lemma NoDup_neighbors b r c : NoDup (neighbors b r c).
Proof.
  unfold neighbors. simpl.
  repeat (apply NoDup_app; split; [|split]);
    try apply NoDup_candidate; try apply NoDup_nil_2;
    intros q; rewrite ?elem_of_app, ?elem_of_candidate, ?elem_of_nil;
    intros H1 H2;
    repeat match goal with
           | H : _ ∨ _ |- _ => destruct H as [H|H]
           | H : _ ∧ _ |- _ => destruct H as [H _]
           | H : False |- _ => destruct H
           end; subst; try done;
    match goal with H : (_, _) = (_, _) |- _ => injection H; lia end.
Qed.

Lemma length_neighbors b r c : (length (neighbors b r c) ≤ 8)%nat.
Proof.
  unfold neighbors. simpl. rewrite !length_app.
  repeat match goal with
         | |- context [if ?x then _ else _] => destruct x
         end; simpl; lia.
Qed.

(** ** Sampling without replacement *)

Lemma sample_draws_length {A} rnd (population : list A) k :
  (k ≤ length population)%nat →
  length (sample_draws rnd population k) = k.
Proof.
  revert rnd population. induction k as [|k IH]; intros rnd pop Hk; [done|].
  simpl. assert (hd 0 rnd `mod` length pop < length pop)%nat as Hi.
  { apply Nat.mod_upper_bound. lia. }
  destruct (lookup_lt_is_Some_2 pop _ Hi) as [x Hx]. rewrite Hx. simpl.
  rewrite IH; [done|]. rewrite length_delete by eauto. lia.
Qed.

Lemma sample_draws_subseteq {A} rnd (population : list A) k x :
  x ∈ sample_draws rnd population k → x ∈ population.
Proof.
  revert rnd population. induction k as [|k IH]; intros rnd pop; simpl.
  - by intros ?%elem_of_nil.
  - destruct (pop !! _) as [y|] eqn:Hy; [|by intros ?%elem_of_nil].
    intros [->|Hx]%elem_of_cons.
    + by eapply list_elem_of_lookup_2.
    + eapply list_elem_of_delete_inv, IH, Hx.
Qed.

Lemma sample_draws_NoDup {A} rnd (population : list A) k :
  NoDup population → NoDup (sample_draws rnd population k).
Proof.
  revert rnd population. induction k as [|k IH]; intros rnd pop Hnd; simpl.
  - apply NoDup_nil_2.
  - destruct (pop !! _) as [y|] eqn:Hy; [|apply NoDup_nil_2].
    apply NoDup_cons. split.
    + intros Hin%sample_draws_subseteq.
      rewrite <- (take_drop_middle pop _ y Hy) in Hnd.
      rewrite delete_take_drop in Hin.
      apply NoDup_app in Hnd as (_ & Hd & Hnd').
      apply NoDup_cons in Hnd' as [Hn _].
      apply elem_of_app in Hin as [Hin|Hin]; [|done].
      apply (Hd y Hin). left.
    + apply IH. eapply sublist_NoDup; eauto using sublist_delete.
Qed.

(** Every choice of elements at distinct positions is the sample of some
    draws. *)
Lemma sample_draws_complete {A} (population picked : list A) :
  NoDup population → NoDup picked → picked ⊆ population →
  ∃ rnd, sample_draws rnd population (length picked) = picked.
Proof.
  revert population. induction picked as [|x rest IH]; intros pop Hpop Hnd Hsub.
  { by exists []. }
  apply NoDup_cons in Hnd as [Hx Hrest].
  destruct (list_elem_of_lookup_1 pop x) as [i Hi]; [apply Hsub; left|].
  destruct (IH (delete i pop)) as [rnd Hrnd]; [|done| |].
  - apply (sublist_NoDup _ pop Hpop), sublist_delete.
  - intros y Hy. assert (y ∈ pop) as Hyp by (apply Hsub; by right).
    rewrite <- (take_drop_middle pop i x Hi) in Hyp.
    rewrite delete_take_drop.
    rewrite elem_of_app, elem_of_cons in Hyp. rewrite elem_of_app.
    destruct Hyp as [?|[->|?]]; [by left|done|by right].
  - exists (i :: rnd). simpl.
    rewrite Nat.mod_small by (by eapply lookup_lt_Some).
    by rewrite Hi, Hrnd.
Qed.

(** ** Shape of a board *)

Lemma in_bounds_index b r c :
  in_bounds b r c = true →
  py_index (nrows b) r = Some (Z.to_nat r) ∧
  py_index (ncols b) c = Some (Z.to_nat c).
Proof.
  intros [Hr Hc]%in_bounds_spec. unfold nrows, ncols.
  split; apply py_index_nonneg; lia.
Qed.

Lemma shaped_Board_init nr nc nm : shaped (Board_init nr nc nm).
Proof. repeat split; simpl; try apply mat_shape_fresh. Qed.

Lemma shaped_with_board b m :
  shaped b → mat_shape (nrows b) (ncols b) m → shaped (with_board b m).
Proof. intros (? & ? & ?) ?. by split; [|split]. Qed.

Lemma shaped_with_revealed b m :
  shaped b → mat_shape (nrows b) (ncols b) m → shaped (with_revealed b m).
Proof. intros (? & ? & ?) ?. by split; [|split]. Qed.

Lemma shaped_with_flagged b m :
  shaped b → mat_shape (nrows b) (ncols b) m → shaped (with_flagged b m).
Proof. intros (? & ? & ?) ?. by split; [|split]. Qed.

(** ** Mine placement *)

Lemma mark_mines_spec ps b :
  shaped b →
  (∀ p, p ∈ ps → in_bounds b p.1 p.2 = true) →
  ∃ m, mark_mines ps b = Done (with_board b m) ∧
       mat_shape (nrows b) (ncols b) m ∧
       ∀ i j, (i < nrows b)%nat → (j < ncols b)%nat →
         mget m i j =
           if decide ((Z.of_nat i, Z.of_nat j) ∈ ps) then Some MINE
           else mget (board b) i j.
Proof.
  revert b. induction ps as [|[r c] ps IH]; intros b Hb Hps.
  - exists (board b). split; [by destruct b|]. split; [apply Hb|].
    intros. rewrite decide_False; [done|apply not_elem_of_nil].
  - pose proof Hb as (Hrv & Hfl & Hbd). simpl.
    destruct (in_bounds_index b r c) as [Hr Hc].
    { apply (Hps (r, c)). left. }
    unfold store_board. rewrite (set2_Ok _ _ _ _ _ _ _ _ Hbd Hr Hc). simpl.
    destruct (IH (with_board b (mset (board b) (Z.to_nat r) (Z.to_nat c) MINE)))
      as (m & Hm & Hsh & Hget).
    { apply shaped_with_board; [done|]. by apply mat_shape_mset. }
    { intros p Hp. apply (Hps p). by right. }
    exists m. split; [by rewrite Hm|]. split; [done|].
    intros i j Hi Hj. rewrite (Hget i j Hi Hj). simpl.
    apply py_index_lt in Hr as Hr', Hc as Hc'.
    rewrite (mget_mset _ _ _ _ _ _ _ _ Hbd Hr' Hc').
    assert (0 ≤ r ∧ 0 ≤ c) as [? ?].
    { specialize (Hps (r, c) ltac:(left)). apply in_bounds_spec in Hps. simpl in Hps. lia. }
    destruct (decide ((Z.of_nat i, Z.of_nat j) ∈ ps)) as [Hin|Hnin].
    + rewrite decide_True; [done|by right].
    + destruct (decide (Z.to_nat r = i ∧ Z.to_nat c = j)) as [[<- <-]|Hne].
      * rewrite decide_True; [done|]. rewrite !Z2Nat.id by lia. left.
      * rewrite decide_False; [done|].
        intros [[= <- <-]|?]%elem_of_cons; [|done].
        apply Hne. by rewrite !Nat2Z.id.
Qed.

Lemma get2_in_bounds {A} b (m : list (list A)) r c :
  mat_shape (nrows b) (ncols b) m → in_bounds b r c = true →
  ∃ x, mget m (Z.to_nat r) (Z.to_nat c) = Some x ∧ get2 m r c = Ok x.
Proof.
  intros Hm Hin. destruct (in_bounds_index _ _ _ Hin) as [Hr Hc].
  destruct (mget_is_Some _ _ m (Z.to_nat r) (Z.to_nat c) Hm) as [x Hx];
    [by eapply py_index_lt..|].
  exists x. split; [done|]. eapply get2_Ok; eauto 6.
Qed.

Lemma cell_eq_dec_nat (r c : Z) (i j : nat) :
  0 ≤ r → 0 ≤ c →
  (Z.to_nat r = i ∧ Z.to_nat c = j) ↔ (Z.of_nat i, Z.of_nat j) = (r, c).
Proof.
  intros. split.
  - intros [<- <-]. f_equal; lia.
  - intros [= <- <-]. lia.
Qed.

Lemma fill_counts_spec ps b :
  shaped b →
  (∀ p, p ∈ ps → in_bounds b p.1 p.2 = true) →
  ∃ m, fill_counts ps b = Done (with_board b m) ∧
       mat_shape (nrows b) (ncols b) m ∧
       ∀ i j, (i < nrows b)%nat → (j < ncols b)%nat →
         mget m i j =
           if decide ((Z.of_nat i, Z.of_nat j) ∈ ps ∧ mget (board b) i j ≠ Some MINE)
           then Some (count_adjacent b (Z.of_nat i) (Z.of_nat j))
           else mget (board b) i j.
Proof.
  revert b. induction ps as [|[r c] ps IH]; intros b Hb Hps.
  - exists (board b). split; [by destruct b|]. split; [apply Hb|].
    intros. rewrite decide_False; [done|]. intros [[]%elem_of_nil _].
  - pose proof Hb as (Hrv & Hfl & Hbd). simpl.
    pose proof (Hps (r, c) ltac:(left)) as Hin. simpl in Hin.
    destruct (in_bounds_index _ _ _ Hin) as [Hr Hc].
    apply py_index_lt in Hr as Hr', Hc as Hc'.
    assert (0 ≤ r ∧ 0 ≤ c) as [? ?] by (apply in_bounds_spec in Hin; lia).
    destruct (get2_in_bounds b (board b) r c Hbd Hin) as (v & Hv & ->). simpl.
    case_bool_decide as Hmine.
    + destruct (IH b Hb) as (m & -> & Hsh & Hget).
      { intros p Hp. apply (Hps p). by right. }
      exists m. split; [done|]. split; [done|].
      intros i j Hi Hj. rewrite (Hget i j Hi Hj).
      destruct (decide ((Z.of_nat i, Z.of_nat j) = (r, c))) as [E|E].
      * apply cell_eq_dec_nat in E as [<- <-]; [|done..].
        rewrite Hv, Hmine. rewrite !decide_False; [done|tauto..].
      * apply decide_ext. rewrite elem_of_cons. naive_solver.
    + unfold store_board. rewrite (set2_Ok _ _ _ _ _ _ _ _ Hbd Hr Hc). simpl.
      set (b1 := with_board b _).
      destruct (IH b1) as (m & -> & Hsh & Hget).
      { apply shaped_with_board; [done|]. by apply mat_shape_mset. }
      { intros p Hp. apply (Hps p). by right. }
      exists m. split; [done|]. split; [done|].
      intros i j Hi Hj. rewrite (Hget i j Hi Hj). subst b1. simpl.
      rewrite (mget_mset _ _ _ _ _ _ _ _ Hbd Hr' Hc').
      change (count_adjacent (with_board b ?m)) with (count_adjacent b).
      destruct (decide (Z.to_nat r = i ∧ Z.to_nat c = j)) as [E|E].
      * destruct E as [<- <-]. rewrite !Z2Nat.id by lia.
        rewrite Hv. rewrite (decide_True (P := _ ∧ Some v ≠ _)).
        2:{ split; [left|]. by intros [= ->]. }
        by destruct (decide _).
      * apply decide_ext. rewrite elem_of_cons.
        rewrite cell_eq_dec_nat in E by done. naive_solver.
Qed.

Lemma elem_of_available b r c p :
  p ∈ available b r c ↔
    in_bounds b p.1 p.2 = true ∧ p ≠ (r, c) ∧ p ∉ neighbors b r c.
Proof.
  unfold available, safe_zone. rewrite list_elem_of_filter.
  destruct p as [pr pc]. rewrite elem_of_grid_cells, in_bounds_spec.
  rewrite not_elem_of_union, not_elem_of_singleton, elem_of_list_to_set.
  simpl. tauto.
Qed.

Lemma NoDup_available b r c : NoDup (available b r c).
Proof. apply NoDup_filter, NoDup_grid_cells. Qed.

Lemma place_mines_Raised b r c rnd :
  ¬ (0 ≤ mines_count b ≤ Z.of_nat (length (available b r c))) →
  place_mines b r c rnd = Raised ValueError b.
Proof.
  intros H. unfold place_mines, random_sample.
  by rewrite bool_decide_false.
Qed.

Lemma place_mines_Done b r c rnd :
  shaped b →
  board b = fresh (rows b) (cols b) 0 →
  0 ≤ mines_count b ≤ Z.of_nat (length (available b r c)) →
  let picked := sample_draws rnd (available b r c) (Z.to_nat (mines_count b)) in
  ∃ m, place_mines b r c rnd = Done (placed_board b picked m) ∧
       mat_shape (nrows b) (ncols b) m ∧
       ∀ i j, (i < nrows b)%nat → (j < ncols b)%nat →
         mget m i j = Some (cell_value (placed_board b picked m) i j).
Proof.
  intros Hb Hfresh Hk picked. unfold place_mines, random_sample.
  rewrite bool_decide_true by done. cbn [eval]. fold picked.
  set (b0 := with_mines b (list_to_set picked)).
  assert (shaped b0) as Hb0 by (by destruct Hb as (? & ? & ?); split; [|split]).
  assert (∀ p, p ∈ picked → in_bounds b p.1 p.2 = true) as Hpicked.
  { intros p Hp%sample_draws_subseteq. by apply elem_of_available in Hp as [? _]. }
  destruct (mark_mines_spec (elements (mines b0)) b0 Hb0) as (m1 & -> & Hsh1 & Hget1).
  { intros p Hp%elem_of_elements. apply elem_of_list_to_set in Hp. by apply Hpicked. }
  cbn [and_then].
  set (b1 := with_board b0 m1).
  assert (shaped b1) as Hb1 by (by apply shaped_with_board).
  destruct (fill_counts_spec (grid_cells (rows b1) (cols b1)) b1 Hb1) as (m2 & -> & Hsh2 & Hget2).
  { intros [pr pc] Hp%elem_of_grid_cells. by apply in_bounds_spec. }
  simpl. exists m2. split; [done|]. split; [done|].
  intros i j Hi Hj. rewrite (Hget2 i j Hi Hj). simpl.
  rewrite (Hget1 i j Hi Hj). unfold cell_value. simpl.
  destruct (decide ((Z.of_nat i, Z.of_nat j) ∈ elements (list_to_set picked : gset _)))
    as [Hin|Hnin].
  - rewrite decide_False by tauto. apply elem_of_elements in Hin.
    by rewrite decide_True.
  - rewrite decide_True.
    + rewrite elem_of_elements in Hnin. by rewrite decide_False.
    + split.
      * apply elem_of_grid_cells. unfold nrows, ncols in *. lia.
      * rewrite Hfresh. intros ?%mget_fresh. done.
Qed.

(** ** The cascade *)

Lemma position_Some b p i j :
  position b p = Some (i, j) ↔
    py_index (nrows b) p.1 = Some i ∧ py_index (ncols b) p.2 = Some j.
Proof.
  unfold position. destruct (py_index (nrows b) p.1) as [i'|]; simpl; [|naive_solver].
  destruct (py_index (ncols b) p.2) as [j'|]; simpl; naive_solver.
Qed.

Lemma position_in_bounds b p :
  in_bounds b p.1 p.2 = true →
  position b p = Some (Z.to_nat p.1, Z.to_nat p.2).
Proof. intros H. apply position_Some. by apply in_bounds_index. Qed.

Lemma position_lt b p i j :
  position b p = Some (i, j) → (i < nrows b)%nat ∧ (j < ncols b)%nat.
Proof. intros [Hi Hj]%position_Some. split; by eapply py_index_lt. Qed.

Lemma get2_position {A} b (m : list (list A)) p i j :
  mat_shape (nrows b) (ncols b) m → position b p = Some (i, j) →
  ∃ x, mget m i j = Some x ∧ get2 m p.1 p.2 = Ok x.
Proof.
  intros Hm Hp. destruct (position_lt _ _ _ _ Hp) as [Hi Hj].
  apply position_Some in Hp as [Hpi Hpj].
  destruct (mget_is_Some _ _ m i j Hm Hi Hj) as [x Hx].
  exists x. split; [done|]. eapply get2_Ok; eauto 6.
Qed.

Lemma get2_position_Ok {A} b (m : list (list A)) p i j x :
  mat_shape (nrows b) (ncols b) m → position b p = Some (i, j) →
  get2 m p.1 p.2 = Ok x ↔ mget m i j = Some x.
Proof.
  intros Hm Hp. destruct (get2_position b m p i j Hm Hp) as (y & Hy & ->).
  rewrite Hy. naive_solver.
Qed.

Lemma push_neighbors_spec b ns stack :
  shaped b →
  (∀ p, p ∈ ns → in_bounds b p.1 p.2 = true) →
  push_neighbors b ns stack = Ok (reverse (filter (pushable b) ns) ++ stack).
Proof.
  intros (Hrv & Hfl & _). revert stack.
  induction ns as [|[nr nc] ns IH]; intros stack Hns; [done|].
  assert (∀ p, p ∈ ns → in_bounds b p.1 p.2 = true) as Hns'.
  { intros p Hp. apply Hns. by right. }
  pose proof (Hns (nr, nc) ltac:(left)) as Hin. simpl in Hin.
  destruct (get2_in_bounds b (revealed b) nr nc Hrv Hin) as (v & _ & Hv).
  destruct (get2_in_bounds b (flagged b) nr nc Hfl Hin) as (f & _ & Hf).
  simpl. rewrite Hv. simpl. rewrite filter_cons.
  destruct (decide (pushable b (nr, nc))) as [[Hp1 Hp2]|Hn]; simpl in *.
  - rewrite Hv in Hp1. rewrite Hf in Hp2. simplify_eq. rewrite Hf. simpl.
    rewrite reverse_cons, <- app_assoc. by apply IH.
  - destruct v; [by apply IH|]. rewrite Hf. destruct f; simpl; [by apply IH|].
    destruct Hn. by split.
Qed.

Lemma unrevealed_mset (m : list (list bool)) i j :
  mget m i j = Some false →
  S (length (filter (λ v, v = false) (concat (mset m i j true)))) =
    length (filter (λ v, v = false) (concat m)).
Proof.
  unfold mget, mset. destruct (m !! i) as [row|] eqn:Hrow; [|done]. simpl.
  intros Hj.
  rewrite insert_take_drop by (by eapply lookup_lt_Some).
  rewrite <- (take_drop_middle m i row Hrow) at 3.
  rewrite !concat_app, !concat_cons, !filter_app, !length_app.
  rewrite insert_take_drop by (by eapply lookup_lt_Some).
  rewrite <- (take_drop_middle row j false Hj) at 3.
  rewrite !filter_app, !filter_cons, !length_app. simpl.
  lia.
Qed.

Lemma cascade_body_spec b p stack i j :
  shaped b → position b p = Some (i, j) →
  ∃ v, mget (revealed b) i j = Some v ∧
    if v : bool then cascade_body p.1 p.2 stack b = Continue stack b
    else
      ∃ z, mget (board b) i j = Some z ∧
        let b' := with_revealed b (mset (revealed b) i j true) in
        cascade_body p.1 p.2 stack b =
          Continue (if decide (z = 0)
                    then reverse (filter (pushable b') (neighbors b p.1 p.2)) ++ stack
                    else stack) b'.
Proof.
  intros Hb Hp. pose proof Hb as (Hrv & Hfl & Hbd).
  destruct (get2_position b (revealed b) p i j Hrv Hp) as (v & Hv & Hgv).
  exists v. split; [done|]. unfold cascade_body. rewrite Hgv.
  destruct v; [done|].
  destruct (get2_position b (board b) p i j Hbd Hp) as (z & Hz & Hgz).
  exists z. split; [done|]. simpl.
  apply position_Some in Hp as [Hi Hj].
  unfold store_revealed. rewrite (set2_Ok _ _ _ _ _ _ _ _ Hrv Hi Hj). simpl.
  rewrite Hgz.
  rewrite push_neighbors_spec.
  - case_bool_decide; [by rewrite decide_True|by rewrite decide_False].
  - apply shaped_with_revealed; [done|]. by apply mat_shape_mset.
  - intros q [Hq _]%elem_of_neighbors. done.
Qed.

Lemma cascade_loop (P : list (Z * Z) → Board → Prop) :
  (∀ p stack b, P (p :: stack) b →
     ∃ stack' b', cascade_body p.1 p.2 stack b = Continue stack' b' ∧
                  P stack' b' ∧ (weight stack' b' < weight (p :: stack) b)%nat) →
  ∀ fuel stack b, P stack b → (weight stack b < fuel)%nat →
  ∃ b', cascade fuel stack b = Some (Done b') ∧ P [] b'.
Proof.
  intros Hstep. induction fuel as [|fuel IH]; intros stack b HP Hw; [lia|].
  destruct stack as [|[cr cc] stack]; simpl; [eauto|].
  destruct (Hstep (cr, cc) stack b HP) as (stack' & b' & Hbody & HP' & Hw').
  simpl in Hbody. rewrite Hbody. apply IH; [done|lia].
Qed.

Lemma pushable_unflagged b p :
  shaped b → in_bounds b p.1 p.2 = true → pushable b p →
  ∃ i j, position b p = Some (i, j) ∧
         mget (revealed b) i j = Some false ∧ mget (flagged b) i j = Some false.
Proof.
  intros (Hrv & Hfl & _) Hin [H1 H2].
  pose proof (position_in_bounds _ _ Hin) as Hp.
  eexists _, _. split; [done|].
  split; eapply get2_position_Ok; eauto.
Qed.

Lemma cascade_inv_step b0 s p stack b :
  cascade_inv b0 s (p :: stack) b →
  ∃ stack' b', cascade_body p.1 p.2 stack b = Continue stack' b' ∧
               cascade_inv b0 s stack' b' ∧
               (weight stack' b' < weight (p :: stack) b)%nat.
Proof.
  intros (Hb & [m ->] & Hst & Hmono & Hnew & Hstart).
  destruct (Hst p ltac:(left)) as (i & j & Hp & Hfl).
  change (position b0 p) with (position (with_revealed b0 m) p) in Hp.
  destruct (cascade_body_spec _ p stack i j Hb Hp) as (v & Hv & Hbody).
  destruct v.
  - exists stack, (with_revealed b0 m). split; [done|]. split.
    + split; [done|]. split; [eauto|]. split; [|split; [done|split; [done|]]].
      * intros q Hq. apply Hst. by right.
      * intros i' j' Hs. destruct (Hstart i' j' Hs) as [?|[->|?]%elem_of_cons]; auto.
        left. change (position b0 p) with (position (with_revealed b0 m) p) in Hs.
        by simplify_eq.
    + unfold weight. simpl. lia.
  - destruct Hbody as (z & Hz & Hbody). simpl in Hbody.
    set (m' := mset m i j true) in *.
    set (b' := with_revealed (with_revealed b0 m) m') in *.
    pose proof Hb as (Hrv & Hfl' & Hbd). simpl in Hrv.
    destruct (position_lt _ _ _ _ Hp) as [Hi Hj].
    assert (shaped b') as Hb'.
    { apply shaped_with_revealed; [done|]. by apply mat_shape_mset. }
    eexists _, b'. split; [exact Hbody|]. split.
    + split; [done|]. split; [by exists m'|]. split; [|split; [|split]].
      * intros q Hq. destruct (decide (z = 0)); [|apply Hst; by right].
        apply elem_of_app in Hq as [Hq|Hq]; [|apply Hst; by right].
        apply elem_of_reverse, list_elem_of_filter in Hq as [Hpush Hq].
        apply elem_of_neighbors in Hq as [Hq _].
        destruct (pushable_unflagged b' q Hb' Hq Hpush) as (i' & j' & ? & _ & ?).
        eauto.
      * intros i' j' H. simpl. subst m'.
        rewrite (mget_mset _ _ _ _ _ _ _ _ Hrv Hi Hj).
        destruct (decide (i = i' ∧ j = j')); [done|]. by apply Hmono.
      * intros i' j'. simpl. subst m'.
        rewrite (mget_mset _ _ _ _ _ _ _ _ Hrv Hi Hj).
        destruct (decide (i = i' ∧ j = j')) as [[<- <-]|]; [auto|]. apply Hnew.
      * intros i' j' Hs. simpl. subst m'.
        rewrite (mget_mset _ _ _ _ _ _ _ _ Hrv Hi Hj).
        destruct (decide (i = i' ∧ j = j')); [by left|].
        destruct (Hstart i' j' Hs) as [?|[->|?]%elem_of_cons]; [by left| |].
        -- change (position b0 p) with (position (with_revealed b0 m) p) in Hs.
           simplify_eq. tauto.
        -- right. destruct (decide (z = 0)); [|done]. apply elem_of_app. by right.
    + unfold weight, unrevealed. simpl. subst m'.
      rewrite <- (unrevealed_mset m i j Hv).
      destruct (decide (z = 0%Z)); [|simpl; lia].
      rewrite length_app, length_reverse.
      pose proof (length_filter (pushable b') (neighbors (with_revealed b0 m) p.1 p.2)).
      pose proof (length_neighbors (with_revealed b0 m) p.1 p.2). simpl. lia.
Qed.

Lemma with_revealed_id b : with_revealed b (revealed b) = b.
Proof. by destruct b. Qed.

Lemma cascade_Done b p i j :
  shaped b → position b p = Some (i, j) → mget (flagged b) i j = Some false →
  ∃ m, cascade (cascade_fuel b) [p] b = Some (Done (with_revealed b m)) ∧
       cascade_inv b p [] (with_revealed b m).
Proof.
  intros Hb Hp Hfl.
  destruct (cascade_loop (cascade_inv b p) (cascade_inv_step b p) (cascade_fuel b) [p] b)
    as (b' & Hrun & Hinv).
  - split; [done|]. split; [exists (revealed b); by rewrite with_revealed_id|].
    split; [|split; [by auto|split; [by auto|]]].
    + intros q ->%list_elem_of_singleton. eauto.
    + intros. right. left.
  - unfold weight, cascade_fuel. simpl. lia.
  - pose proof Hinv as (_ & [m ->] & _). eauto.
Qed.

(** ** The victory check *)

Lemma count_revealed_spec b (m : list (list bool)) ps :
  mat_shape (nrows b) (ncols b) m →
  (∀ p, p ∈ ps → in_bounds b p.1 p.2 = true) →
  count_revealed m ps =
    Ok (Z.of_nat (length (filter (λ p, get2 m p.1 p.2 = Ok true) ps))).
Proof.
  intros Hm. induction ps as [|[r c] ps IH]; intros Hps; [done|].
  simpl. pose proof (Hps (r, c) ltac:(left)) as Hin. simpl in Hin.
  destruct (get2_in_bounds b m r c Hm Hin) as (v & _ & Hv).
  rewrite Hv. simpl. rewrite IH by (intros p Hp; apply Hps; by right). simpl.
  rewrite filter_cons. simpl. rewrite Hv. destruct v.
  - rewrite decide_True by done. simpl. f_equal. lia.
  - rewrite decide_False by done. done.
Qed.

Lemma check_victory_spec b :
  shaped b →
  check_victory b =
    Done (if game_over b then b
          else if bool_decide (revealed_count b = safe_cells b)
               then with_victory (with_game_over b true) true
               else b).
Proof.
  intros (Hrv & _). unfold check_victory. destruct (game_over b); [done|].
  rewrite (count_revealed_spec b) by
    (try done; intros [pr pc] Hp%elem_of_grid_cells; by apply in_bounds_spec).
  simpl. fold (revealed_count b). unfold safe_cells. by case_bool_decide.
Qed.

(** ** Reachable boards and their invariant *)

Lemma Inv_init nr nc nm : Inv (Board_init nr nc nm).
Proof.
  split; simpl; try done.
  - apply shaped_Board_init.
  - intros i j [= ->]%mget_fresh.
Qed.

Lemma Inv_in_progress b : Inv b → game_over b = false → victory b = false.
Proof.
  intros HI Hg. destruct (victory b) eqn:Hv; [|done].
  destruct (inv_victory b HI Hv). congruence.
Qed.

Lemma Inv_check_victory b : Inv b → Inv (state_of (check_victory b)).
Proof.
  intros HI. rewrite check_victory_spec by apply HI. simpl.
  destruct (game_over b) eqn:Hg; [done|]. case_bool_decide as Hc; [|done].
  destruct HI. by split.
Qed.

Lemma Inv_with_flagged b i j f :
  Inv b → game_over b = false → mget (revealed b) i j = Some false →
  (i < nrows b)%nat → (j < ncols b)%nat →
  Inv (with_flagged b (mset (flagged b) i j f)).
Proof.
  intros HI Hg Hrv Hi Hj. pose proof (Inv_in_progress b HI Hg) as Hv.
  destruct HI as [Hsh Hm Hex Hvic Hun Hpl]. split; simpl; try done.
  - apply shaped_with_flagged; [done|]. apply mat_shape_mset, Hsh.
  - intros i' j'. destruct Hsh as (_ & Hfl & _).
    rewrite (mget_mset _ _ _ _ _ _ _ _ Hfl Hi Hj).
    destruct (decide (i = i' ∧ j = j')) as [[<- <-]|]; [congruence|]. apply Hex.
Qed.

Lemma toggle_flag_spec b r c :
  shaped b → game_over b = false →
  match position b (r, c) with
  | None => toggle_flag b r c = Raised IndexError b
  | Some (i, j) =>
      ∃ v f, mget (revealed b) i j = Some v ∧ mget (flagged b) i j = Some f ∧
        toggle_flag b r c =
          if v then Done b
          else check_victory (with_flagged b (mset (flagged b) i j (negb f)))
  end.
Proof.
  intros (Hrv & Hfl & _) Hg. unfold toggle_flag. rewrite Hg.
  destruct (position b (r, c)) as [[i j]|] eqn:Hp.
  - destruct (get2_position b (revealed b) (r, c) i j Hrv Hp) as (v & Hv & Hgv).
    destruct (get2_position b (flagged b) (r, c) i j Hfl Hp) as (f & Hf & Hgf).
    exists v, f. split; [done|]. split; [done|]. simpl in *. rewrite Hgv. simpl.
    destruct v; [done|]. rewrite Hgf. simpl.
    apply position_Some in Hp as [Hi Hj].
    unfold store_flagged. by rewrite (set2_Ok _ _ _ _ _ _ _ _ Hfl Hi Hj).
  - assert (get2 (revealed b) r c = Raise IndexError) as ->; [|done].
    eapply get2_Raise; [done|]. split; [done|].
    unfold position in Hp. simpl in Hp.
    destruct (py_index (nrows b) r); [|by left].
    destruct (py_index (ncols b) c); [done|by right].
Qed.

Lemma Inv_toggle_flag b r c : Inv b → Inv (state_of (toggle_flag b r c)).
Proof.
  intros HI. destruct (game_over b) eqn:Hg.
  { unfold toggle_flag. by rewrite Hg. }
  pose proof (toggle_flag_spec b r c (inv_shaped b HI) Hg) as H.
  destruct (position b (r, c)) as [[i j]|] eqn:Hp; [|by rewrite H].
  destruct H as (v & f & Hv & Hf & ->). destruct v; [done|].
  destruct (position_lt _ _ _ _ Hp).
  by apply Inv_check_victory, Inv_with_flagged.
Qed.

Lemma Inv_place_mines b r c rnd :
  Inv b → placed b = false → Inv (state_of (place_mines b r c rnd)).
Proof.
  intros HI Hpl.
  destruct (decide (0 ≤ mines_count b ≤ Z.of_nat (length (available b r c)))) as [Hk|Hk].
  2:{ by rewrite place_mines_Raised. }
  destruct (place_mines_Done b r c rnd (inv_shaped b HI)) as (m & -> & Hm & Hget);
    [by apply (inv_unplaced b HI)|done|].
  simpl. destruct HI as [Hsh Hmi Hex Hvic Hun _]. split; simpl; try done.
  - by apply (shaped_with_board b m).
  - intros p Hp%elem_of_list_to_set%sample_draws_subseteq.
    by apply elem_of_available in Hp as [? _].
  - intros _. split; [|done].
    rewrite size_list_to_set by apply sample_draws_NoDup, NoDup_available.
    rewrite sample_draws_length; lia.
Qed.

Lemma Inv_with_revealed b m :
  Inv b → game_over b = false → placed b = true →
  mat_shape (nrows b) (ncols b) m →
  (∀ i j, mget m i j = Some true →
     mget (revealed b) i j = Some true ∨ mget (flagged b) i j = Some false) →
  Inv (with_revealed b m).
Proof.
  intros HI Hg Hp Hm Hnew. pose proof (Inv_in_progress b HI Hg) as Hv.
  destruct HI as [Hsh Hmi Hex Hvic Hun Hpl]. split; simpl; try done.
  - by apply shaped_with_revealed.
  - intros i j Hf Hr. destruct (Hnew i j Hr); [eauto|congruence].
  - congruence.
  - congruence.
Qed.

Lemma Inv_lost b :
  Inv b → placed b = true → Inv (with_victory (with_game_over b true) false).
Proof. intros [] ?. by split. Qed.

Lemma reveal_placed_spec b r c i j :
  shaped b → position b (r, c) = Some (i, j) →
  mget (flagged b) i j = Some false →
  if decide ((r, c) ∈ mines b)
  then reveal_placed b r c =
         Some (Done (with_victory
                       (with_game_over (with_revealed b (mset (revealed b) i j true)) true)
                       false))
  else ∃ m, cascade (cascade_fuel b) [(r, c)] b = Some (Done (with_revealed b m)) ∧
            reveal_placed b r c = Some (check_victory (with_revealed b m)) ∧
            cascade_inv b (r, c) [] (with_revealed b m).
Proof.
  intros Hb Hp Hfl. unfold reveal_placed.
  destruct (decide ((r, c) ∈ mines b)) as [Hin|Hin].
  - rewrite bool_decide_true by done. apply position_Some in Hp as [Hi Hj].
    unfold store_revealed.
    by rewrite (set2_Ok _ _ _ _ _ _ _ _ (proj1 Hb) Hi Hj).
  - rewrite bool_decide_false by done.
    destruct (cascade_Done b (r, c) i j Hb Hp Hfl) as (m & Hrun & Hinv).
    exists m. by rewrite Hrun.
Qed.

Lemma position_None_get2 {A} b (m : list (list A)) r c :
  mat_shape (nrows b) (ncols b) m → position b (r, c) = None →
  get2 m r c = Raise IndexError.
Proof.
  intros Hm Hp. eapply get2_Raise; [done|]. split; [done|].
  unfold position in Hp. simpl in Hp.
  destruct (py_index (nrows b) r); [|by left].
  destruct (py_index (ncols b) c); [done|by right].
Qed.

Lemma reveal_spec b r c rnd :
  shaped b → game_over b = false →
  match position b (r, c) with
  | None => reveal b r c rnd = Some (Raised IndexError b)
  | Some (i, j) =>
      ∃ f v, mget (flagged b) i j = Some f ∧ mget (revealed b) i j = Some v ∧
        reveal b r c rnd =
          if f || v then Some (Done b)
          else match (if placed b then Done b else place_mines b r c rnd) with
               | Raised e b' => Some (Raised e b')
               | Done b' => reveal_placed b' r c
               end
  end.
Proof.
  intros (Hrv & Hfl & _) Hg. unfold reveal. rewrite Hg.
  destruct (position b (r, c)) as [[i j]|] eqn:Hp.
  - destruct (get2_position b (revealed b) (r, c) i j Hrv Hp) as (v & Hv & Hgv).
    destruct (get2_position b (flagged b) (r, c) i j Hfl Hp) as (f & Hf & Hgf).
    exists f, v. split; [done|]. split; [done|]. simpl in *. rewrite Hgf.
    destruct f; [done|]. rewrite Hgv. by destruct v.
  - by rewrite (position_None_get2 b).
Qed.

Lemma reveal_cases b r c rnd :
  Inv b →
  ∃ o, reveal b r c rnd = Some o ∧ Inv (state_of o).
Proof.
  intros HI. destruct (game_over b) eqn:Hg.
  { exists (Done b). unfold reveal. by rewrite Hg. }
  pose proof (reveal_spec b r c rnd (inv_shaped b HI) Hg) as H.
  destruct (position b (r, c)) as [[i j]|] eqn:Hp; [|by eexists].
  destruct H as (f & v & Hf & Hv & ->).
  destruct f; [by eexists|]. destruct v; [by eexists|]. simpl.
  assert ((∃ b', (if placed b then Done b else place_mines b r c rnd) = Done b' ∧
                Inv b' ∧ game_over b' = false ∧ placed b' = true ∧
                position b' (r, c) = Some (i, j) ∧
                mget (flagged b') i j = Some false ∧
                mget (revealed b') i j = Some false)
          ∨ ∃ e, (if placed b then Done b else place_mines b r c rnd) = Raised e b)
    as [(b' & -> & HI' & Hg' & Hpl' & Hp' & Hf' & Hv')|[e ->]]; [|clear HI|by eexists].
  { destruct (placed b) eqn:Hpl; [left; by exists b|].
    destruct (decide (0 ≤ mines_count b ≤ Z.of_nat (length (available b r c)))) as [Hk|Hk].
    2:{ right. exists ValueError. by apply place_mines_Raised. }
    left. pose proof (Inv_place_mines b r c rnd HI Hpl) as HI'.
    destruct (place_mines_Done b r c rnd (inv_shaped b HI)) as (m & Hrun & _);
      [by apply (inv_unplaced b HI)|done|].
    rewrite Hrun in *. by eexists. }
  pose proof (reveal_placed_spec b' r c i j (inv_shaped b' HI') Hp' Hf') as H.
  destruct (position_lt _ _ _ _ Hp') as [Hi Hj].
  destruct (decide ((r, c) ∈ mines b')).
  - rewrite H. eexists. split; [done|]. simpl.
    apply Inv_lost; [|done]. apply Inv_with_revealed; try done.
    + apply mat_shape_mset, HI'.
    + intros i' j'. rewrite (mget_mset _ _ _ _ _ _ _ _ (proj1 (inv_shaped b' HI')) Hi Hj).
      destruct (decide (i = i' ∧ j = j')) as [[<- <-]|]; auto.
  - destruct H as (m & _ & -> & Hinv). eexists. split; [done|].
    apply Inv_check_victory. destruct Hinv as (Hsh & _ & _ & _ & Hnew & _).
    apply Inv_with_revealed; try done. apply Hsh.
Qed.

Lemma reachable_Inv b : reachable b → Inv b.
Proof.
  induction 1 as [nr nc nm|b k o _ IH Hk]; [apply Inv_init|].
  destruct k as [r c rnd|r c]; simpl in Hk.
  - destruct (reveal_cases b r c rnd IH) as (o' & Ho & HI). congruence.
  - injection Hk as <-. by apply Inv_toggle_flag.
Qed.

(** [reveal] terminates on every reachable board: the fuel it grants to
    its cascade is enough. *)
Lemma reveal_returns b r c rnd :
  reachable b → ∃ o, reveal b r c rnd = Some o.
Proof.
  intros HI%reachable_Inv. destruct (reveal_cases b r c rnd HI) as (o & ? & _). eauto.
Qed.

(** ** Boards after given calls *)

Lemma reachable_after b k : reachable b → reachable (after b k).
Proof.
  intros Hb. unfold after. destruct (perform b k) as [o|] eqn:Hk; [|done].
  by eapply reachable_call.
Qed.

(** ** Adjacent-mine counts *)

Lemma count_adjacent_spec b r c : count_adjacent b r c = adjacent_mines b r c.
Proof.
  unfold count_adjacent, adjacent_mines. f_equal.
  rewrite <- list_filter_filter. apply Permutation_length.
  apply filter_Permutation.
  apply NoDup_Permutation.
  - apply NoDup_neighbors.
  - apply NoDup_filter, NoDup_grid_cells.
  - intros [pr pc]. rewrite elem_of_neighbors, list_elem_of_filter.
    rewrite elem_of_grid_cells, in_bounds_spec. simpl. tauto.
Qed.

Lemma same_layout_refl b : same_layout b b.
Proof. by repeat split. Qed.

Ltac layout :=
  unfold same_layout; simpl; repeat split; intros; simpl; congruence.

Lemma same_layout_check_victory b b' :
  shaped b' → same_layout b b' → same_layout b (state_of (check_victory b')).
Proof.
  intros Hb' H. rewrite check_victory_spec by done. simpl.
  destruct (game_over b'); [done|]. by case_bool_decide.
Qed.

Lemma perform_same_layout b k o :
  Inv b → perform b k = Some o → same_layout b (state_of o).
Proof.
  intros HI Hk. pose proof (inv_shaped b HI) as Hb.
  destruct (game_over b) eqn:Hg.
  { destruct k; simpl in Hk; unfold reveal, toggle_flag in Hk; rewrite Hg in Hk;
      injection Hk as <-; apply same_layout_refl. }
  destruct k as [r c rnd|r c]; simpl in Hk.
  - pose proof (reveal_spec b r c rnd Hb Hg) as H.
    destruct (position b (r, c)) as [[i j]|] eqn:Hp.
    2:{ rewrite H in Hk. injection Hk as <-. apply same_layout_refl. }
    destruct H as (f & v & Hf & Hv & H). rewrite H in Hk. clear H.
    destruct (f || v) eqn:Hfv.
    { injection Hk as <-. apply same_layout_refl. }
    apply orb_false_elim in Hfv as [-> ->].
    destruct (placed b) eqn:Hpl.
    + pose proof (reveal_placed_spec b r c i j Hb Hp Hf) as H.
      destruct (decide ((r, c) ∈ mines b)).
      * rewrite H in Hk. injection Hk as <-. layout.
      * destruct H as (m & _ & H & Hinv). rewrite H in Hk. injection Hk as <-.
        apply same_layout_check_victory; [apply Hinv|]. layout.
    + destruct (decide (0 ≤ mines_count b ≤ Z.of_nat (length (available b r c)))) as [Hc|Hc].
      2:{ rewrite place_mines_Raised in Hk by done. injection Hk as <-.
          apply same_layout_refl. }
      destruct (place_mines_Done b r c rnd Hb) as (m & Hrun & Hm & _);
        [by apply (inv_unplaced b HI)|done|].
      rewrite Hrun in Hk.
      set (b1 := placed_board b _ m) in *.
      assert (shaped b1) as Hb1.
      { destruct Hb as (? & ? & ?). by split; [|split]. }
      pose proof (reveal_placed_spec b1 r c i j Hb1 Hp Hf) as H.
      destruct (decide ((r, c) ∈ mines b1)); subst b1.
      * rewrite H in Hk. injection Hk as <-. layout.
      * destruct H as (m' & _ & H & Hinv). rewrite H in Hk. injection Hk as <-.
        apply same_layout_check_victory; [apply Hinv|]. layout.
  - injection Hk as <-.
    pose proof (toggle_flag_spec b r c Hb Hg) as H.
    destruct (position b (r, c)) as [[i j]|] eqn:Hp.
    2:{ rewrite H. apply same_layout_refl. }
    destruct H as (v & f & Hv & Hf & ->). destruct v; [apply same_layout_refl|].
    apply same_layout_check_victory; [|layout].
    apply shaped_with_flagged; [done|]. apply mat_shape_mset, Hb.
Qed.

(** * The properties of the design document *)

Lemma get2_cell {A} b (m : list (list A)) r c x :
  mat_shape (nrows b) (ncols b) m → in_bounds b r c = true →
  get2 m r c = Ok x ↔ mget m (Z.to_nat r) (Z.to_nat c) = Some x.
Proof.
  intros Hm Hin.
  apply (get2_position_Ok b m (r, c)); [done|by apply position_in_bounds].
Qed.

(** ** Flags and revealed cells *)

(** C9.  On every board reachable from a freshly constructed one by
    [reveal] and [toggle_flag] calls, no cell of the grid is flagged and
    revealed at once. *)
Theorem flag_reveal_exclusive b r c :
  reachable b → in_bounds b r c = true →
  ¬ (get2 (flagged b) r c = Ok true ∧ get2 (revealed b) r c = Ok true).
Proof.
  intros HI%reachable_Inv Hin [Hf Hr].
  pose proof (inv_shaped b HI) as (Hrv & Hfl & _).
  apply (get2_cell b) in Hf, Hr; try done.
  eapply inv_exclusive; eauto.
Qed.

(** On [flagged_centre] the centre is flagged and not revealed. *)
Lemma flag_reveal_exclusive_witness :
  reachable flagged_centre ∧ in_bounds flagged_centre 1 1 = true ∧
  ¬ (get2 (flagged flagged_centre) 1 1 = Ok true ∧
     get2 (revealed flagged_centre) 1 1 = Ok true).
Proof.
  assert (reachable flagged_centre) as Hreach.
  { unfold flagged_centre. repeat apply reachable_after. apply reachable_init. }
  assert (in_bounds flagged_centre 1 1 = true) as Hin by (vm_compute; reflexivity).
  split; [exact Hreach|]. split; [exact Hin|].
  exact (flag_reveal_exclusive flagged_centre 1 1 Hreach Hin).
Defined.

(** ** Count correctness *)

(** C6.  Once the mines are placed, every cell of the grid that is not a
    mine stores the number of mines among its neighbours in the grid, and
    no call changes the layout or the stored counts afterwards. *)
Theorem count_correctness b :
  reachable b → placed b = true →
  (∀ r c, in_bounds b r c = true → (r, c) ∉ mines b →
     get2 (board b) r c = Ok (adjacent_mines b r c)) ∧
  (∀ k o, perform b k = Some o →
     placed (state_of o) = true ∧ board (state_of o) = board b ∧
     mines (state_of o) = mines b ∧
     rows (state_of o) = rows b ∧ cols (state_of o) = cols b).
Proof.
  intros HI%reachable_Inv Hpl. split.
  - intros r c Hin Hnm.
    pose proof (inv_shaped b HI) as (_ & _ & Hbd).
    apply (get2_cell b); [done..|].
    destruct (in_bounds_index _ _ _ Hin) as [Hi%py_index_lt Hj%py_index_lt].
    destruct (inv_placed b HI Hpl) as [_ Hget]. rewrite (Hget _ _ Hi Hj).
    apply in_bounds_spec in Hin. unfold cell_value.
    rewrite !Z2Nat.id by lia. rewrite decide_False by done.
    by rewrite count_adjacent_spec.
  - intros k o Hk.
    destruct (perform_same_layout b k o HI Hk) as (? & ? & _ & H).
    destruct (H Hpl) as (? & ? & ?). done.
Qed.

(** On [flagged_centre] the cell [(1, 2)], next to the mine, stores 1. *)
Lemma count_correctness_witness :
  reachable flagged_centre ∧ placed flagged_centre = true ∧
  in_bounds flagged_centre 1 2 = true ∧ ((1, 2) ∉ mines flagged_centre) ∧
  get2 (board flagged_centre) 1 2 = Ok (adjacent_mines flagged_centre 1 2).
Proof.
  assert (reachable flagged_centre) as Hreach.
  { unfold flagged_centre. repeat apply reachable_after. apply reachable_init. }
  assert (placed flagged_centre = true) as Hpl by (vm_compute; reflexivity).
  assert (in_bounds flagged_centre 1 2 = true) as Hin by (vm_compute; reflexivity).
  assert ((1, 2) ∉ mines flagged_centre) as Hnm.
  { vm_compute. intros H. discriminate H. }
  split; [exact Hreach|]. split; [exact Hpl|]. split; [exact Hin|].
  split; [exact Hnm|].
  exact (proj1 (count_correctness flagged_centre Hreach Hpl) 1 2 Hin Hnm).
Defined.

(** ** Win detection *)

(** C2, as stated, fails: [mine_hit] is reachable and its revealed count
    is [rows*cols - mines_count], but the game is lost, not won. *)
Lemma win_iff_count_counterexample :
  reachable mine_hit ∧
  revealed_count mine_hit = safe_cells mine_hit ∧
  game_over mine_hit = true ∧ victory mine_hit = false.
Proof.
  split.
  - unfold mine_hit. repeat apply reachable_after. apply reachable_init.
  - vm_compute. done.
Qed.

(** C2, amended.  On every reachable board, victory is set only when the
    game is over with [rows*cols - mines_count] cells revealed; and a call
    that brings the revealed count to that value sets victory, unless it
    is the reveal of a mine, which ends the game as lost. *)
Theorem win_exactness b :
  reachable b →
  (victory b = true → game_over b = true ∧ revealed_count b = safe_cells b) ∧
  (∀ k o, perform b k = Some o →
     revealed_count b ≠ safe_cells b →
     revealed_count (state_of o) = safe_cells (state_of o) →
     (game_over (state_of o) = true ∧ victory (state_of o) = true) ∨
     (∃ r c rnd, k = Reveal r c rnd ∧ (r, c) ∈ mines (state_of o) ∧
                 game_over (state_of o) = true ∧ victory (state_of o) = false)).
Proof.
  intros HI%reachable_Inv. split; [apply (inv_victory b HI)|].
  intros k o Hk Hne Heq. pose proof (inv_shaped b HI) as Hb.
  assert (∀ b', shaped b' →
            revealed_count (state_of (check_victory b')) =
              safe_cells (state_of (check_victory b')) →
            game_over b' = false →
            game_over (state_of (check_victory b')) = true ∧
            victory (state_of (check_victory b')) = true) as Hcheck.
  { intros b' Hb' Hc Hg'. rewrite check_victory_spec in * by done. simpl in *.
    rewrite Hg' in *. case_bool_decide; done. }
  destruct (game_over b) eqn:Hg.
  { destruct k; simpl in Hk; unfold reveal, toggle_flag in Hk; rewrite Hg in Hk;
      injection Hk as <-; done. }
  destruct k as [r c rnd|r c]; simpl in Hk.
  - pose proof (reveal_spec b r c rnd Hb Hg) as H.
    destruct (position b (r, c)) as [[i j]|] eqn:Hp.
    2:{ rewrite H in Hk. by injection Hk as <-. }
    destruct H as (f & v & Hf & Hv & H). rewrite H in Hk. clear H.
    destruct (f || v) eqn:Hfv; [by injection Hk as <-|].
    apply orb_false_elim in Hfv as [-> ->].
    assert (∀ b1, shaped b1 → game_over b1 = false → position b1 (r, c) = Some (i, j) →
              mget (flagged b1) i j = Some false →
              reveal_placed b1 r c = Some o →
              (game_over (state_of o) = true ∧ victory (state_of o) = true) ∨
              ((r, c) ∈ mines (state_of o) ∧
               game_over (state_of o) = true ∧ victory (state_of o) = false)) as Hrest.
    { intros b1 Hb1 Hg1 Hp1 Hf1 Hrun.
      pose proof (reveal_placed_spec b1 r c i j Hb1 Hp1 Hf1) as H.
      destruct (decide ((r, c) ∈ mines b1)).
      - rewrite H in Hrun. injection Hrun as <-. by right.
      - destruct H as (m & _ & H & Hinv). rewrite H in Hrun. injection Hrun as <-.
        left. apply Hcheck; [apply Hinv|done..]. }
    destruct (placed b) eqn:Hpl.
    + destruct (Hrest b) as [?|?]; eauto 10.
    + destruct (decide (0 ≤ mines_count b ≤ Z.of_nat (length (available b r c)))) as [Hc|Hc].
      2:{ rewrite place_mines_Raised in Hk by done. by injection Hk as <-. }
      destruct (place_mines_Done b r c rnd Hb) as (m & Hrun & Hm & _);
        [by apply (inv_unplaced b HI)|done|].
      rewrite Hrun in Hk.
      edestruct Hrest as [?|?]; [| | | |exact Hk| |]; eauto 10.
      destruct Hb as (? & ? & ?). by split; [|split].
  - injection Hk as <-.
    pose proof (toggle_flag_spec b r c Hb Hg) as H.
    destruct (position b (r, c)) as [[i j]|] eqn:Hp.
    2:{ by rewrite H in *. }
    destruct H as (v & f & Hv & Hf & H). rewrite H in *. destruct v; [done|].
    left. apply Hcheck; [|done..].
    apply shaped_with_flagged; [done|]. apply mat_shape_mset, Hb.
Qed.

(** A 1 by 3 game with one mine, drawn at [(0, 0)]: its only move brings
    the revealed count from 0 to 2 and wins. *)
Lemma win_exactness_witness :
  reachable (Board_init 1 3 1) ∧
  perform (Board_init 1 3 1) (Reveal 0 2 [0%nat])
    = Some (Done (after (Board_init 1 3 1) (Reveal 0 2 [0%nat]))) ∧
  revealed_count (Board_init 1 3 1) ≠ safe_cells (Board_init 1 3 1) ∧
  revealed_count (after (Board_init 1 3 1) (Reveal 0 2 [0%nat]))
    = safe_cells (after (Board_init 1 3 1) (Reveal 0 2 [0%nat])) ∧
  game_over (after (Board_init 1 3 1) (Reveal 0 2 [0%nat])) = true ∧
  victory (after (Board_init 1 3 1) (Reveal 0 2 [0%nat])) = true.
Proof.
  assert (perform (Board_init 1 3 1) (Reveal 0 2 [0%nat])
            = Some (Done (after (Board_init 1 3 1) (Reveal 0 2 [0%nat])))) as Hk
    by (vm_compute; reflexivity).
  assert (revealed_count (Board_init 1 3 1) ≠ safe_cells (Board_init 1 3 1)) as Hne.
  { vm_compute. intros H. discriminate H. }
  assert (revealed_count (after (Board_init 1 3 1) (Reveal 0 2 [0%nat]))
            = safe_cells (after (Board_init 1 3 1) (Reveal 0 2 [0%nat]))) as Heq
    by (vm_compute; reflexivity).
  split; [apply reachable_init|]. split; [exact Hk|]. split; [exact Hne|].
  split; [exact Heq|].
  destruct (proj2 (win_exactness (Board_init 1 3 1) (reachable_init 1 3 1))
              _ _ Hk Hne Heq) as [H|H].
  - exact H.
  - vm_compute in H. destruct H as (r & c & rnd & _ & _ & _ & H). discriminate H.
Defined.

(** ** The first reveal *)

Lemma check_victory_fields b :
  shaped b →
  ∃ b', check_victory b = Done b' ∧
        rows b' = rows b ∧ cols b' = cols b ∧ mines_count b' = mines_count b ∧
        mines b' = mines b ∧ revealed b' = revealed b ∧ flagged b' = flagged b ∧
        board b' = board b ∧ placed b' = placed b.
Proof.
  intros Hb. rewrite check_victory_spec by done. eexists. split; [done|].
  destruct (game_over b); [done|]. by case_bool_decide.
Qed.

Lemma mget_unplaced_revealed b i j :
  Inv b → placed b = false → (i < nrows b)%nat → (j < ncols b)%nat →
  mget (revealed b) i j = Some false.
Proof.
  intros HI Hpl Hi Hj.
  destruct (mget_is_Some _ _ (revealed b) i j (proj1 (inv_shaped b HI)) Hi Hj) as [v Hv].
  rewrite Hv. f_equal. destruct (inv_unplaced b HI Hpl) as (_ & _ & Hr).
  rewrite Hr in Hv. by apply mget_fresh in Hv.
Qed.

Lemma mines_in_grid picked nr nc :
  NoDup picked →
  (∀ p, p ∈ picked → 0 ≤ p.1 < nr ∧ 0 ≤ p.2 < nc) →
  length (filter (λ p, p ∈ (list_to_set picked : gset (Z * Z))) (grid_cells nr nc))
    = length picked.
Proof.
  intros Hnd Hin. apply Permutation_length, NoDup_Permutation; [|done|].
  - apply NoDup_filter, NoDup_grid_cells.
  - intros [pr pc]. rewrite list_elem_of_filter, elem_of_list_to_set, elem_of_grid_cells.
    split; [tauto|]. intros Hp. split; [done|]. apply (Hin _ Hp).
Qed.

Lemma filter_none {A} (P : A → Prop) `{∀ x, Decision (P x)} (l : list A) :
  (∀ x, x ∈ l → ¬ P x) → filter P l = [].
Proof.
  intros Hl. destruct (filter P l) as [|x k] eqn:E; [done|].
  assert (x ∈ filter P l) as [? ?]%list_elem_of_filter by (rewrite E; left).
  by destruct (Hl x).
Qed.

Lemma revealed_count_unplaced b :
  Inv b → placed b = false → revealed_count b = 0.
Proof.
  intros HI Hpl. unfold revealed_count. rewrite filter_none; [done|].
  intros [r c] Hin%elem_of_grid_cells%in_bounds_spec.
  simpl. intros Hr. apply (get2_cell b) in Hr; [|apply HI|done].
  destruct (in_bounds_index _ _ _ Hin) as [Hi%py_index_lt Hj%py_index_lt].
  rewrite (mget_unplaced_revealed b _ _ HI Hpl Hi Hj) in Hr. done.
Qed.

(** A board without mines placed, on which a first reveal is feasible, is
    still in progress. *)
Lemma unplaced_in_progress b r c :
  Inv b → placed b = false → in_bounds b r c = true →
  mines_count b ≤ Z.of_nat (length (available b r c)) →
  game_over b = false.
Proof.
  intros HI Hpl Hin Hk. destruct (game_over b) eqn:Hg; [|done]. exfalso.
  destruct (victory b) eqn:Hv.
  2:{ pose proof (inv_lost b HI Hg Hv). congruence. }
  destruct (inv_victory b HI Hv) as [_ Hc].
  rewrite (revealed_count_unplaced b HI Hpl) in Hc. unfold safe_cells in Hc.
  assert (length (available b r c) < length (grid_cells (rows b) (cols b)))%nat as Hlt.
  { unfold available. apply (length_filter_lt _ _ (r, c)).
    - apply elem_of_grid_cells. by apply in_bounds_spec.
    - unfold safe_zone. set_solver. }
  rewrite length_grid_cells in Hlt. apply in_bounds_spec in Hin. nia.
Qed.

(** The reveal that places the mines. *)
Lemma filter_ext_elem {A} (P Q : A → Prop)
    `{∀ x, Decision (P x)} `{∀ x, Decision (Q x)} (l : list A) :
  (∀ x, x ∈ l → P x ↔ Q x) → filter P l = filter Q l.
Proof.
  induction l as [|x l IH]; intros HPQ; [done|]. rewrite !filter_cons.
  rewrite IH by (intros y Hy; apply HPQ; by right).
  pose proof (HPQ x ltac:(by left)).
  destruct (decide (P x)), (decide (Q x)); try done; tauto.
Qed.

(** The list [available] of [place_mines] holds the cells of the grid
    outside the block around the safe cell. *)
Lemma available_outside_block b r c : available b r c = outside_block b r c.
Proof.
  unfold available, outside_block. apply filter_ext_elem.
  intros [i j] Hin%elem_of_grid_cells. unfold safe_zone.
  rewrite not_elem_of_union, not_elem_of_singleton, elem_of_list_to_set.
  rewrite elem_of_neighbors, in_bounds_spec. simpl. tauto.
Qed.

Lemma placing_reveal b r c rnd :
  Inv b → placed b = false →
  in_bounds b r c = true → get2 (flagged b) r c = Ok false →
  0 ≤ mines_count b ≤ Z.of_nat (length (available b r c)) →
  ∃ b', reveal b r c rnd = Some (Done b') ∧ placed b' = true ∧
        ((r, c) ∉ mines b') ∧
        (∀ q, adjacent (r, c) q → q ∉ mines b') ∧
        Z.of_nat (length (filter (λ p, p ∈ mines b')
                                 (grid_cells (rows b') (cols b'))))
          = mines_count b'.
Proof.
  intros HI Hpl Hin Hfl Hk.
  pose proof (unplaced_in_progress b r c HI Hpl Hin (proj2 Hk)) as Hg.
  pose proof (inv_shaped b HI) as Hb. pose proof Hb as (Hrv & Hflm & _).
  pose proof (position_in_bounds b (r, c) Hin) as Hp. simpl in Hp.
  pose proof (reveal_spec b r c rnd Hb Hg) as H. rewrite Hp in H.
  destruct H as (f & v & Hf & Hv & ->).
  apply (get2_cell b) in Hfl; [|done..]. rewrite Hfl in Hf. injection Hf as <-.
  destruct (position_lt _ _ _ _ Hp) as [Hi Hj].
  rewrite (mget_unplaced_revealed b _ _ HI Hpl Hi Hj) in Hv. injection Hv as <-.
  simpl. rewrite Hpl.
  destruct (place_mines_Done b r c rnd Hb) as (m & -> & Hm & _);
    [by apply (inv_unplaced b HI)|done|].
  set (picked := sample_draws rnd (available b r c) (Z.to_nat (mines_count b))).
  set (b1 := placed_board b picked m).
  assert (shaped b1) as Hb1 by (by split; [|split]).
  assert (∀ p, p ∈ picked → p ∈ available b r c) as Hsub.
  { intros p. apply sample_draws_subseteq. }
  pose proof (reveal_placed_spec b1 r c _ _ Hb1 Hp Hfl) as H.
  destruct (decide ((r, c) ∈ mines b1)) as [Hmine|Hmine].
  { apply elem_of_list_to_set, Hsub, elem_of_available in Hmine. tauto. }
  destruct H as (m' & _ & -> & Hinv).
  destruct (check_victory_fields (with_revealed b1 m')) as
    (b' & -> & Hr' & Hc' & Hmc' & Hmi' & _ & _ & _ & Hpl'); [apply Hinv|].
  exists b'. split; [done|]. split; [done|]. rewrite Hmi', Hr', Hc', Hmc'. simpl.
  split; [done|]. split.
  - intros q Hq Hqm.
    apply elem_of_list_to_set, Hsub, elem_of_available in Hqm as (Hqin & _ & Hqn).
    apply Hqn, elem_of_neighbors. done.
  - rewrite mines_in_grid.
    + unfold picked. rewrite sample_draws_length; lia.
    + apply sample_draws_NoDup, NoDup_available.
    + intros p [Hp' _]%Hsub%elem_of_available. by apply in_bounds_spec in Hp'.
Qed.



(** ** Infeasible configurations *)

(** C8, as stated, fails: the constructor returns a board for one cell and
    one mine, although no cell lies outside the safe zone, and the
    impossibility shows only when the first reveal raises [ValueError] out
    of the sampling. *)
Lemma rejected_at_construction_counterexample :
  Z.of_nat (length (available (Board_init 1 1 1) 0 0))
    ≤ mines_count (Board_init 1 1 1) ∧
  game_over (Board_init 1 1 1) = false ∧
  reveal (Board_init 1 1 1) 0 0 [] = Some (Raised ValueError (Board_init 1 1 1)).
Proof. vm_compute. split; [|done]. intros H. discriminate H. Qed.

(** C8, amended.  The constructor accepts every configuration.  The first
    reveal of a fresh board, at a cell [(r, c)] of the grid, raises
    [ValueError] from the sampling and leaves the board as it was exactly
    when the mine count is negative or exceeds the number of cells outside
    the safe zone of [(r, c)]; otherwise, also when the two numbers are
    equal, it returns with the mines placed. *)
Theorem infeasible_configuration nr nc nm r c rnd :
  in_bounds (Board_init nr nc nm) r c = true →
  if decide (0 ≤ nm ≤ Z.of_nat (length (available (Board_init nr nc nm) r c)))
  then ∃ b', reveal (Board_init nr nc nm) r c rnd = Some (Done b') ∧ placed b' = true
  else reveal (Board_init nr nc nm) r c rnd = Some (Raised ValueError (Board_init nr nc nm)).
Proof.
  intros Hin. set (b := Board_init nr nc nm).
  destruct (decide _) as [Hk|Hk].
  - destruct (placing_reveal b r c rnd) as (b' & ? & ? & _); try done.
    + apply Inv_init.
    + apply (get2_cell b); [apply shaped_Board_init|done|].
      destruct (in_bounds_index _ _ _ Hin) as [Hi%py_index_lt Hj%py_index_lt].
      destruct (mget_is_Some _ _ (flagged b) _ _ (proj1 (proj2 (shaped_Board_init nr nc nm))) Hi Hj)
        as [v Hv].
      rewrite Hv. f_equal. by apply mget_fresh in Hv.
    + eauto.
  - pose proof (reveal_spec b r c rnd (shaped_Board_init nr nc nm) eq_refl) as H.
    rewrite (position_in_bounds b (r, c) Hin) in H.
    destruct H as (f & v & Hf & Hv & ->).
    apply mget_fresh in Hf as ->. apply mget_fresh in Hv as ->. simpl.
    by rewrite place_mines_Raised.
Qed.

(** Six mines on a 3 by 3 board: only five cells lie outside the safe zone
    of the corner. *)
Lemma infeasible_configuration_witness :
  in_bounds (Board_init 3 3 6) 0 0 = true ∧
  reveal (Board_init 3 3 6) 0 0 [] = Some (Raised ValueError (Board_init 3 3 6)).
Proof.
  assert (in_bounds (Board_init 3 3 6) 0 0 = true) as Hin by (vm_compute; reflexivity).
  split; [exact Hin|].
  exact (infeasible_configuration 3 3 6 0 0 [] Hin).
Defined.

(** ** The solver on views that show a mine *)

(** C1 at the view of [lost_left], as the classifier of a window of 1 row
    and 5 columns gives it.  The first numbered cell with a
    deduction is [(0, 2)], whose check gives [(REVEAL, [(0, 1)])]; but the
    scan starts at the revealed mine [(0, 0)], where [check] lets
    [int('*')] raise [ValueError], and [solution] ends there. *)
Theorem first_deduction_after_mine :
  reachable lost_left ∧
  get_solver_board 1 5 lost_left = Ok [["*"; "#"; "0"; "1"; "#"]] ∧
  AutoPlay.check [["*"; "#"; "0"; "1"; "#"]] 0 1 1 5 = Ok None ∧
  AutoPlay.check [["*"; "#"; "0"; "1"; "#"]] 0 2 1 5
    = Ok (Some (AutoPlay.REVEAL, [(0, 1)])) ∧
  AutoPlay.solution [["*"; "#"; "0"; "1"; "#"]] 1 5 = Raise ValueError.
Proof.
  split.
  - unfold lost_left, two_opened. repeat apply reachable_after. apply reachable_init.
  - vm_compute. done.
Qed.

(** C4 at the view of [lost_right], as the classifier of a window of 1
    row and 5 columns gives it.  No cell of the view gives a
    deduction and [(0, 0)] is unseen, so the fallback [(REVEAL, [(0, 0)])]
    is due; but the scan reaches the revealed mine [(0, 4)] and
    [solution] raises [ValueError], neither of the two outcomes.  The same
    happens on a view without unseen cells, such as the display shows
    after a loss, where the no-moves exception is due. *)
Theorem fallback_after_mine :
  reachable lost_right ∧
  get_solver_board 1 5 lost_right = Ok [["#"; "F"; "0"; "1"; "*"]] ∧
  AutoPlay.check [["#"; "F"; "0"; "1"; "*"]] 0 0 1 5 = Ok None ∧
  AutoPlay.check [["#"; "F"; "0"; "1"; "*"]] 0 1 1 5 = Ok None ∧
  AutoPlay.check [["#"; "F"; "0"; "1"; "*"]] 0 2 1 5 = Ok None ∧
  AutoPlay.check [["#"; "F"; "0"; "1"; "*"]] 0 3 1 5 = Ok None ∧
  AutoPlay.check [["#"; "F"; "0"; "1"; "*"]] 0 4 1 5 = Raise ValueError ∧
  AutoPlay.solution [["#"; "F"; "0"; "1"; "*"]] 1 5 = Raise ValueError ∧
  AutoPlay.solution [["0"; "1"; "*"]] 1 3 = Raise ValueError.
Proof.
  split.
  - unfold lost_right, two_opened. repeat apply reachable_after. apply reachable_init.
  - by vm_compute.
Qed.

(** C7 at the view of a 1 by 3 board with its mine at [(0, 0)] after the
    display has revealed every cell: the mine cell is not skipped, its
    check raises [ValueError], and so does [solution], where
    the no-moves exception was due. *)
Theorem mine_cell_checked :
  AutoPlay.check [["*"; "1"; "0"]] 0 0 1 3 = Raise ValueError ∧
  AutoPlay.solution [["*"; "1"; "0"]] 1 3 = Raise ValueError ∧
  AutoPlay.solution [["1"; "0"]] 1 2 = Raise NoUnseenLeft.
Proof. by vm_compute. Qed.

(** ** Coordinates outside the grid *)

Lemma position_wrap b r c :
  - rows b ≤ r < rows b → - cols b ≤ c < cols b →
  in_bounds b (wrap (rows b) r) (wrap (cols b) c) = true ∧
  position b (r, c) =
    Some (Z.to_nat (wrap (rows b) r), Z.to_nat (wrap (cols b) c)).
Proof.
  intros Hr Hc. unfold wrap. split.
  - apply in_bounds_spec. repeat case_bool_decide; lia.
  - apply position_Some. simpl. unfold nrows, ncols.
    split; case_bool_decide.
    + rewrite py_index_neg by lia. f_equal. lia.
    + by rewrite py_index_nonneg by lia.
    + rewrite py_index_neg by lia. f_equal. lia.
    + by rewrite py_index_nonneg by lia.
Qed.

Lemma position_outside b r c :
  ¬ (- rows b ≤ r < rows b ∧ - cols b ≤ c < cols b) →
  position b (r, c) = None.
Proof.
  intros H. unfold position. simpl.
  destruct (decide (- rows b ≤ r < rows b)) as [Hr|Hr].
  - rewrite (py_index_out (ncols b) c) by (unfold ncols; lia).
    by destruct (py_index (nrows b) r).
  - by rewrite (py_index_out (nrows b) r) by (unfold nrows; lia).
Qed.

(** C10, as stated, fails.  On [mine_hit], whose game is over, [reveal]
    and [toggle_flag] return before they index anything, so a row index
    beyond the grid raises nothing and a negative index mutates nothing.
    On [flagged_centre], still in progress, the negative pairs
    [(-3, -3)] and [(-2, -2)] are read as the revealed cell [(0, 0)] and
    the flagged cell [(1, 1)], and the calls change nothing. *)
Lemma unvalidated_coordinates_counterexample :
  reachable mine_hit ∧ rows mine_hit = 1 ∧
  reveal mine_hit 1 0 [] = Some (Done mine_hit) ∧
  toggle_flag mine_hit 1 0 = Done mine_hit ∧
  toggle_flag mine_hit (-1) (-1) = Done mine_hit ∧
  reachable flagged_centre ∧ game_over flagged_centre = false ∧
  toggle_flag flagged_centre (-3) (-3) = Done flagged_centre ∧
  reveal flagged_centre (-2) (-2) [] = Some (Done flagged_centre).
Proof.
  split.
  { unfold mine_hit. repeat apply reachable_after. apply reachable_init. }
  do 4 (split; [by vm_compute|]).
  split.
  { unfold flagged_centre. repeat apply reachable_after. apply reachable_init. }
  by vm_compute.
Qed.

(** C10, amended.  Neither method validates its coordinate.  Once the
    game is over both return at once for every pair, and the board stays
    as it is.  While the game is not over, a pair with
    [-rows <= r < rows] and [-cols <= c < cols] is read as the cell
    [(wrap rows r, wrap cols c)]: [toggle_flag] does exactly what it does
    at that cell, flipping its flag if it is not revealed; [reveal]
    returns at once if that cell is flagged or revealed, and otherwise
    (the mines being placed, or placeable) returns with that cell
    revealed.  Every other pair makes both methods raise [IndexError] with
    the board unchanged. *)
Theorem unvalidated_coordinates b r c rnd :
  reachable b →
  if game_over b then
    reveal b r c rnd = Some (Done b) ∧ toggle_flag b r c = Done b
  else if decide (- rows b ≤ r < rows b ∧ - cols b ≤ c < cols b) then
    let r' := wrap (rows b) r in
    let c' := wrap (cols b) c in
    in_bounds b r' c' = true ∧
    toggle_flag b r c = toggle_flag b r' c' ∧
    (∀ f, get2 (flagged b) r' c' = Ok f → get2 (revealed b) r' c' = Ok false →
       ∃ b', toggle_flag b r c = Done b' ∧
             get2 (flagged b') r' c' = Ok (negb f)) ∧
    (get2 (flagged b) r' c' = Ok true ∨ get2 (revealed b) r' c' = Ok true →
       reveal b r c rnd = Some (Done b)) ∧
    (get2 (flagged b) r' c' = Ok false → get2 (revealed b) r' c' = Ok false →
       placed b = true ∨
         0 ≤ mines_count b ≤ Z.of_nat (length (outside_block b r c)) →
       ∃ b', reveal b r c rnd = Some (Done b') ∧
             get2 (revealed b') r' c' = Ok true)
  else
    reveal b r c rnd = Some (Raised IndexError b) ∧
    toggle_flag b r c = Raised IndexError b.
Proof.
  intros HI%reachable_Inv. destruct (game_over b) eqn:Hg.
  { unfold reveal, toggle_flag. by rewrite Hg. }
  rewrite <- available_outside_block.
  pose proof (inv_shaped b HI) as Hb.
  pose proof Hb as (Hrv & Hfl & _).
  pose proof (reveal_spec b r c rnd Hb Hg) as Hrev.
  pose proof (toggle_flag_spec b r c Hb Hg) as Htog.
  destruct (decide _) as [[Hr Hc]|Hout].
  2:{ rewrite (position_outside b r c Hout) in Hrev, Htog. done. }
  destruct (position_wrap b r c Hr Hc) as [Hin Hp]. simpl.
  set (r' := wrap (rows b) r) in *. set (c' := wrap (cols b) c) in *.
  set (i := Z.to_nat r') in *. set (j := Z.to_nat c') in *.
  rewrite Hp in Hrev, Htog.
  destruct Hrev as (f & v & Hf & Hv & Hrev).
  destruct Htog as (v' & f' & Hv' & Hf' & Htog). simplify_eq.
  destruct (position_lt _ _ _ _ Hp) as [Hi Hj].
  split; [done|]. split; [|split; [|split]].
  - pose proof (toggle_flag_spec b r' c' Hb Hg) as Htog'.
    rewrite (position_in_bounds b (r', c') Hin) in Htog'. simpl in Htog'.
    destruct Htog' as (v' & f' & Hv' & Hf' & ->). fold i j in Hv', Hf'.
    rewrite Htog. by simplify_eq.
  - intros f0 Hf0 Hv0. apply (get2_cell b) in Hf0, Hv0; [|done..].
    fold i j in Hf0, Hv0.
    assert (f0 = f) as -> by congruence. assert (v = false) as -> by congruence.
    rewrite Htog.
    destruct (check_victory_fields (with_flagged b (mset (flagged b) i j (negb f))))
      as (b' & -> & Hr' & Hc' & _ & _ & _ & Hfl' & _).
    { apply shaped_with_flagged; [done|]. by apply mat_shape_mset. }
    exists b'. split; [done|]. rewrite Hfl'. simpl.
    apply (get2_cell b); [by apply mat_shape_mset|done|]. fold i j.
    rewrite (mget_mset _ _ _ _ _ _ _ _ Hfl Hi Hj). by rewrite decide_True.
  - intros H. rewrite Hrev.
    destruct H as [H|H]; apply (get2_cell b) in H; try done; fold i j in H;
      simplify_eq; [done|by rewrite orb_true_r].
  - intros Hf0 Hv0 Hpl. apply (get2_cell b) in Hf0, Hv0; [|done..].
    fold i j in Hf0, Hv0.
    assert (f = false) as -> by congruence. assert (v = false) as -> by congruence.
    rewrite Hrev. simpl.
    assert (∃ b1, (if placed b then Done b else place_mines b r c rnd) = Done b1 ∧
                  shaped b1 ∧ rows b1 = rows b ∧ cols b1 = cols b ∧
                  revealed b1 = revealed b ∧ flagged b1 = flagged b)
      as (b1 & -> & Hb1 & Hr1 & Hc1 & Hrv1 & Hfl1).
    { destruct (placed b) eqn:Hplaced; [by exists b|].
      destruct Hpl as [?|Hk]; [done|].
      destruct (place_mines_Done b r c rnd Hb) as (m & -> & Hm & _);
        [by apply (inv_unplaced b HI)|done|].
      eexists. split; [done|]. split; [|done]. by split; [|split]. }
    assert (position b1 (r, c) = Some (i, j)) as Hp1.
    { unfold position, nrows, ncols in *. by rewrite Hr1, Hc1. }
    assert (nrows b1 = nrows b ∧ ncols b1 = ncols b) as [Hnr Hnc].
    { unfold nrows, ncols. by rewrite Hr1, Hc1. }
    pose proof (reveal_placed_spec b1 r c i j Hb1 Hp1) as H.
    rewrite Hfl1 in H. specialize (H Hf).
    assert (∀ m, mat_shape (nrows b) (ncols b) m → mget m i j = Some true →
                 get2 m r' c' = Ok true) as Hread.
    { intros m Hm Hget. by apply (get2_cell b). }
    destruct (decide ((r, c) ∈ mines b1)).
    + rewrite H. eexists. split; [done|]. simpl. rewrite Hrv1. apply Hread.
      * by apply mat_shape_mset.
      * rewrite (mget_mset _ _ _ _ _ _ _ _ Hrv Hi Hj). by rewrite decide_True.
    + destruct H as (m & _ & -> & Hinv).
      destruct (check_victory_fields (with_revealed b1 m))
        as (b' & -> & _ & _ & _ & _ & Hrv' & _); [apply Hinv|].
      exists b'. split; [done|]. rewrite Hrv'. simpl.
      destruct Hinv as ((Hm & _) & _ & _ & _ & _ & Hstart).
      change (mat_shape (nrows b1) (ncols b1) m) in Hm.
      rewrite Hnr, Hnc in Hm. apply Hread; [done|].
      destruct (Hstart i j Hp1) as [?|[]%elem_of_nil]. done.
Qed.

(** On a fresh 3 by 3 board [toggle_flag(0, -1)] acts on the cell
    [(0, 2)], and [reveal(3, 0)] raises; on [mine_hit], whose game is
    over, [reveal(1, 0)] and [toggle_flag(-1, -1)] return at once. *)
Lemma unvalidated_coordinates_witness :
  reachable (Board_init 3 3 1) ∧ game_over (Board_init 3 3 1) = false ∧
  in_bounds (Board_init 3 3 1) 2 0 = true ∧
  reveal (Board_init 3 3 1) 3 0 [] = Some (Raised IndexError (Board_init 3 3 1)) ∧
  toggle_flag (Board_init 3 3 1) 0 (-1) = toggle_flag (Board_init 3 3 1) 0 2 ∧
  reachable mine_hit ∧ game_over mine_hit = true ∧
  reveal mine_hit 1 0 [] = Some (Done mine_hit) ∧
  toggle_flag mine_hit (-1) (-1) = Done mine_hit.
Proof.
  assert (game_over (Board_init 3 3 1) = false) as Hg by reflexivity.
  assert (reachable mine_hit) as Hreach.
  { unfold mine_hit. repeat apply reachable_after. apply reachable_init. }
  assert (game_over mine_hit = true) as Hover by (vm_compute; reflexivity).
  pose proof (unvalidated_coordinates (Board_init 3 3 1) (-1) 0 []
                (reachable_init 3 3 1)) as H1.
  pose proof (unvalidated_coordinates (Board_init 3 3 1) 3 0 []
                (reachable_init 3 3 1)) as H2.
  pose proof (unvalidated_coordinates (Board_init 3 3 1) 0 (-1) []
                (reachable_init 3 3 1)) as H3.
  pose proof (unvalidated_coordinates mine_hit 1 0 [] Hreach) as H4.
  pose proof (unvalidated_coordinates mine_hit (-1) (-1) [] Hreach) as H5.
  rewrite Hg in H1, H2, H3. rewrite Hover in H4, H5.
  rewrite decide_True in H1 by (simpl; lia).
  rewrite decide_False in H2 by (simpl; lia).
  rewrite decide_True in H3 by (simpl; lia).
  split; [apply reachable_init|]. split; [reflexivity|].
  split; [apply H1|]. split; [apply H2|]. split; [apply H3|].
  split; [exact Hreach|]. split; [exact Hover|]. split; [apply H4|apply H5].
Defined.

(** The cell that a wrapped [reveal] opens can be a mine, and the game
    goes on: here the mine is drawn at [(2, 0)], the cell of [(-1, 0)]. *)
Example wrapped_reveal_of_a_mine :
  get_solver_board 3 3 (after (Board_init 3 3 1) (Reveal (-1) 0 [4%nat]))
    = Ok [["#"; "#"; "#"]; ["#"; "#"; "#"]; ["*"; "#"; "#"]] ∧
  game_over (after (Board_init 3 3 1) (Reveal (-1) 0 [4%nat])) = false.
Proof. by vm_compute. Qed.

(** ** What a cascade reveals *)

(** The cells around [p] that the code visits are the cells of the grid
    next to [p]. *)
Lemma elem_of_neighbors_cell b p q :
  q ∈ neighbors b p.1 p.2 ↔ in_bounds b q.1 q.2 = true ∧ adjacent p q.
Proof. destruct p as [r c]. apply elem_of_neighbors. Qed.

Lemma spread_step_neighbors b s p q :
  spread b s p → zero_cell b p → q ∈ neighbors b p.1 p.2 → pushable b q →
  spread b s q.
Proof.
  intros Hp Hz [Hq Hadj]%elem_of_neighbors_cell Hpush. by eapply spread_step.
Qed.

Lemma spread_closed b s q :
  spread b s q → in_bounds b q.1 q.2 = true ∧ pushable b q.
Proof. by destruct 1. Qed.

Lemma spread_opening b s q :
  zero_cell b s → spread b s q → opening b s q.
Proof.
  intros Hs. induction 1 as [|p q Hp IH Hz Hq Hadj Hpush]; [left; constructor|].
  right. exists p. split; [|done].
  destruct IH as [IH|(p0 & Hp0 & Hq0 & Hadj0)]; [done|].
  by eapply region_step.
Qed.

Lemma opening_spread b s q :
  in_bounds b s.1 s.2 = true → zero_cell b s →
  (∀ p, opening b s p → pushable b p) →
  opening b s q → spread b s q.
Proof.
  intros Hin Hs Hopen.
  assert (∀ p, zero_region b s p → zero_cell b p ∧ spread b s p) as Hreg.
  { induction 1 as [|p p' Hp [IHz IH] Hp' Hadj Hz].
    - split; [done|]. apply spread_start; [done|]. apply Hopen. left. constructor.
    - split; [done|]. eapply spread_step; eauto.
      apply Hopen. left. by eapply region_step. }
  intros [Hq|(p & Hp & Hq & Hadj)]; [by apply Hreg|].
  destruct (Hreg p Hp) as [Hz Hsp].
  eapply spread_step; eauto. apply Hopen. right. eauto.
Qed.

Lemma get2_reveal_cell b p q x :
  shaped b → in_bounds b p.1 p.2 = true → in_bounds b q.1 q.2 = true →
  get2 (mset (revealed b) (Z.to_nat p.1) (Z.to_nat p.2) true) q.1 q.2 = Ok x ↔
    if decide (p = q) then x = true else get2 (revealed b) q.1 q.2 = Ok x.
Proof.
  intros (Hrv & _) Hp Hq.
  rewrite (get2_cell b) by (try done; by apply mat_shape_mset).
  destruct (in_bounds_index _ _ _ Hp) as [Hi%py_index_lt Hj%py_index_lt].
  rewrite (mget_mset _ _ _ _ _ _ _ _ Hrv Hi Hj).
  apply in_bounds_spec in Hp, Hq.
  destruct (decide (p = q)) as [->|Hne].
  - rewrite decide_True by done. naive_solver.
  - rewrite decide_False.
    + by rewrite (get2_cell b) by (try done; by apply in_bounds_spec).
    + intros [H1 H2]. apply Hne. destruct p, q; simpl in *. f_equal; lia.
Qed.

Lemma spread_inv_step b0 s :
  shaped b0 →
  ∀ p stack b,
    spread_inv b0 s (p :: stack) b →
    ∃ stack' b', cascade_body p.1 p.2 stack b = Continue stack' b' ∧
                 spread_inv b0 s stack' b' ∧
                 (weight stack' b' < weight (p :: stack) b)%nat.
Proof.
  intros Hb0 p stack b (Hinv & HS & HN & HC).
  destruct (cascade_inv_step b0 s p stack b Hinv) as (stack' & b' & Hbody & Hinv' & Hw).
  exists stack', b'. split; [done|]. split; [|done]. split; [done|].
  pose proof (HS p ltac:(left)) as Hsp.
  destruct (spread_closed _ _ _ Hsp) as [Hin Hpush].
  destruct Hinv as (Hb & [m ->] & _ & _ & _ & _).
  destruct Hinv' as (Hb' & _ & _ & Hmono' & _ & _).
  set (b := with_revealed b0 m) in *.
  assert (in_bounds b p.1 p.2 = true) as Hinb by done.
  pose proof (position_in_bounds b p Hinb) as Hp.
  destruct (cascade_body_spec b p stack _ _ Hb Hp) as (v & Hv & Hspec).
  destruct v.
  - rewrite Hspec in Hbody. injection Hbody as <- <-.
    split; [|split; [done|]].
    + intros q Hq. apply HS. by right.
    + intros p1 q Hp1 Hr1 Hz1 Hq Hpq.
      destruct (HC p1 q Hp1 Hr1 Hz1 Hq Hpq) as [?|[->|?]%elem_of_cons]; auto.
      left. apply (get2_cell b); [apply Hb|done..].
  - destruct Hspec as (z & Hz & Hspec). simpl in Hspec.
    rewrite Hspec in Hbody. injection Hbody as <- <-.
    set (b1 := with_revealed b (mset (revealed b) (Z.to_nat p.1) (Z.to_nat p.2) true)) in *.
    assert (∀ q x, in_bounds b0 q.1 q.2 = true →
              get2 (revealed b1) q.1 q.2 = Ok x ↔
                if decide (p = q) then x = true else get2 (revealed b) q.1 q.2 = Ok x)
      as HR.
    { intros q x Hq. by apply (get2_reveal_cell b p q x). }
    assert (zero_cell b0 p ↔ z = 0) as Hzero.
    { unfold zero_cell. rewrite (get2_cell b0) by (try done; apply Hb0).
      change (board b0) with (board b). rewrite Hz. naive_solver. }
    assert (∀ q, q ∈ stack →
              q ∈ (if decide (z = 0)
                   then reverse (filter (pushable b1) (neighbors b p.1 p.2)) ++ stack
                   else stack)) as Hkeep.
    { intros q Hq. destruct (decide (z = 0)); [|done]. apply elem_of_app. by right. }
    split; [|split].
    + intros q Hq. destruct (decide (z = 0)) as [Hz0|]; [|apply HS; by right].
      apply elem_of_app in Hq as [Hq|Hq]; [|apply HS; by right].
      apply elem_of_reverse, list_elem_of_filter in Hq as [[Hq1 Hq2] Hq].
      apply (spread_step_neighbors b0 s p q); [done|by apply Hzero|done|].
      split; [|done].
      pose proof (elem_of_neighbors b0 p.1 p.2 q) as [Hqin _].
      destruct (Hqin Hq) as [Hqb _].
      destruct (get2_in_bounds b0 (revealed b0) q.1 q.2 (proj1 Hb0) Hqb) as (x & Hx & Hgx).
      destruct x; [|done].
      pose proof (Hmono' _ _ Hx) as Hx'.
      apply (get2_cell b0) in Hx'; [|apply Hb'|done]. congruence.
    + intros q Hq Hrq. apply HR in Hrq; [|done].
      destruct (decide (p = q)) as [<-|]; [by right|]. by apply HN.
    + intros p1 q Hp1 Hr1 Hz1 Hq Hpq.
      pose proof (elem_of_neighbors b0 p1.1 p1.2 q) as [Hqin _].
      destruct (Hqin Hq) as [Hqb _].
      destruct (spread_closed _ _ _ Hp1) as [Hp1b _].
      apply HR in Hr1; [|done].
      destruct (decide (p = p1)) as [<-|Hne].
      * destruct (get2_in_bounds b0 (revealed b1) q.1 q.2 (proj1 Hb') Hqb) as (x & _ & Hgx).
        destruct x; [by left|]. right.
        apply Hzero in Hz1. rewrite decide_True by done.
        apply elem_of_app. left. apply elem_of_reverse, list_elem_of_filter.
        split; [|done]. split; [done|apply Hpq].
      * destruct (HC p1 q Hp1 Hr1 Hz1 Hq Hpq) as [H|[->|H]%elem_of_cons].
        -- left. apply HR; [done|]. by destruct (decide (p = q)).
        -- left. apply HR; [done|]. by rewrite decide_True.
        -- right. by apply Hkeep.
Qed.

Lemma cascade_spread b s :
  shaped b → in_bounds b s.1 s.2 = true → pushable b s →
  ∃ m, cascade (cascade_fuel b) [s] b = Some (Done (with_revealed b m)) ∧
       shaped (with_revealed b m) ∧
       ∀ q, in_bounds b q.1 q.2 = true →
         get2 m q.1 q.2 = Ok true ↔
           get2 (revealed b) q.1 q.2 = Ok true ∨ spread b s q.
Proof.
  intros Hb Hin Hpush.
  pose proof (pushable_unflagged b s Hb Hin Hpush) as (i & j & Hp & Hrv & Hfl).
  destruct (cascade_loop (spread_inv b s) (spread_inv_step b s Hb) (cascade_fuel b) [s] b)
    as (b' & Hrun & Hinv & _ & HN & HC).
  - split; [|split; [|split]].
    + split; [done|]. split; [exists (revealed b); by rewrite with_revealed_id|].
      split; [|split; [by auto|split; [by auto|]]].
      * intros q ->%list_elem_of_singleton. eauto.
      * intros. right. left.
    + intros q ->%list_elem_of_singleton. by apply spread_start.
    + auto.
    + intros p q Hsp Hr. apply spread_closed in Hsp as [_ [Hr' _]]. congruence.
  - unfold weight, cascade_fuel. simpl. lia.
  - destruct Hinv as (Hb' & [m ->] & _ & Hmono & _ & Hstart).
    exists m. split; [done|]. split; [done|].
    intros q Hq. split; [by apply HN|].
    intros [Hold|Hsp].
    + apply (get2_cell b) in Hold; [|apply Hb|done].
      apply (get2_cell b); [apply Hb'|done|]. by apply Hmono.
    + induction Hsp as [_ _|p q Hsp IH Hz Hqin Hadj Hpq].
      * destruct (Hstart i j Hp) as [H|[]%elem_of_nil].
        apply (get2_position_Ok b _ s i j); [apply Hb'|done..].
      * destruct (spread_closed _ _ _ Hsp) as [Hpb _].
        assert (q ∈ neighbors b p.1 p.2) as Hnb by (by apply elem_of_neighbors_cell).
        destruct (HC p q Hsp (IH Hpb) Hz Hnb Hpq) as [?|[]%elem_of_nil]. done.
Qed.

(** C3, as stated, fails: [(0, 0)] is an unrevealed, unflagged zero-count
    cell of [flag_in_region] and [(0, 2)] lies in its zero-count region,
    but [reveal(0, 0)] stops at the flag and leaves [(0, 2)] unrevealed. *)
Lemma cascade_completeness_counterexample :
  reachable flag_in_region ∧
  placed flag_in_region = true ∧ game_over flag_in_region = false ∧
  in_bounds flag_in_region 0 0 = true ∧
  get2 (revealed flag_in_region) 0 0 = Ok false ∧
  get2 (flagged flag_in_region) 0 0 = Ok false ∧
  ((0, 0) ∉ mines flag_in_region) ∧
  zero_cell flag_in_region (0, 0) ∧
  opening flag_in_region (0, 0) (0, 2) ∧
  ∃ b', reveal flag_in_region 0 0 [] = Some (Done b') ∧
        get2 (revealed b') 0 2 = Ok false.
Proof.
  split.
  { unfold flag_in_region. repeat apply reachable_after. apply reachable_init. }
  do 5 (split; [by vm_compute|]).
  split; [vm_compute; intros H; discriminate H|].
  split; [by vm_compute|].
  split.
  - left. apply (region_step _ _ (0, 1)); [apply (region_step _ _ (0, 0))|..].
    + apply region_start.
    + by vm_compute.
    + unfold adjacent. simpl. split; [lia|]. split; [lia|]. intros H. discriminate H.
    + by vm_compute.
    + by vm_compute.
    + unfold adjacent. simpl. split; [lia|]. split; [lia|]. intros H. discriminate H.
    + by vm_compute.
  - eexists. split; [by vm_compute|]. by vm_compute.
Qed.

(** C3, amended.  On a reachable board in progress with the mines placed,
    [reveal] of an unrevealed, unflagged cell of the grid that is not a
    mine returns, changes no flag, and reveals exactly the cells reached
    from [(r, c)] by steps to one of the up to eight cells of the grid
    next to a cell, steps that leave zero-count cells only and enter only
    cells neither flagged nor yet revealed.  For a zero-count [(r, c)]
    every such cell lies in the maximal zero-count region of [(r, c)] or
    on its border, and these are all revealed when none of them is
    flagged or already revealed. *)
Theorem cascade_exact b r c rnd :
  reachable b → placed b = true → game_over b = false →
  in_bounds b r c = true →
  get2 (revealed b) r c = Ok false → get2 (flagged b) r c = Ok false →
  (r, c) ∉ mines b →
  ∃ b', reveal b r c rnd = Some (Done b') ∧
        flagged b' = flagged b ∧
        (∀ q, in_bounds b q.1 q.2 = true →
           get2 (revealed b') q.1 q.2 = Ok true ↔
             get2 (revealed b) q.1 q.2 = Ok true ∨ spread b (r, c) q) ∧
        (zero_cell b (r, c) →
           (∀ q, spread b (r, c) q → opening b (r, c) q) ∧
           ((∀ q, opening b (r, c) q → pushable b q) →
            ∀ q, opening b (r, c) q → spread b (r, c) q)).
Proof.
  intros HI%reachable_Inv Hpl Hg Hin Hrv Hfl Hmine.
  pose proof (inv_shaped b HI) as Hb.
  pose proof (position_in_bounds b (r, c) Hin) as Hp. simpl in Hp.
  pose proof (reveal_spec b r c rnd Hb Hg) as H. rewrite Hp in H.
  destruct H as (f & v & Hf & Hv & ->).
  pose proof Hrv as Hrv'. pose proof Hfl as Hfl'.
  apply (get2_cell b) in Hrv', Hfl'; try apply Hb; try done.
  assert (f = false) as -> by congruence. assert (v = false) as -> by congruence.
  simpl. rewrite Hpl.
  pose proof (reveal_placed_spec b r c _ _ Hb Hp Hf) as H.
  rewrite decide_False in H by done. destruct H as (m & Hrun & -> & _).
  destruct (cascade_spread b (r, c) Hb Hin) as (m' & Hrun' & Hb' & Hiff); [done|].
  assert (m' = m) as ->.
  { rewrite Hrun in Hrun'. by injection Hrun' as Heq. }
  destruct (check_victory_fields (with_revealed b m) Hb')
    as (b' & -> & _ & _ & _ & _ & Hr' & Hf' & _).
  exists b'. split; [done|]. split; [done|]. rewrite Hr'. split; [done|].
  intros Hz. split.
  - intros q. by apply spread_opening.
  - intros Hopen q. by apply opening_spread.
Qed.

(** On [right_opened] no cell of the region of [(0, 0)] or of its border
    is flagged or revealed, and the reveal of [(0, 0)] opens the region
    [(0, 0)], [(0, 1)], [(0, 2)] and its border [(0, 3)]. *)
Lemma cascade_exact_witness :
  reachable right_opened ∧
  placed right_opened = true ∧ game_over right_opened = false ∧
  in_bounds right_opened 0 0 = true ∧
  get2 (revealed right_opened) 0 0 = Ok false ∧
  get2 (flagged right_opened) 0 0 = Ok false ∧
  ((0, 0) ∉ mines right_opened) ∧
  zero_cell right_opened (0, 0) ∧
  (∀ q, opening right_opened (0, 0) q → pushable right_opened q) ∧
  opening right_opened (0, 0) (0, 3) ∧
  ∃ b', reveal right_opened 0 0 [] = Some (Done b') ∧
        flagged b' = flagged right_opened ∧
        (∀ q, in_bounds right_opened q.1 q.2 = true →
           get2 (revealed b') q.1 q.2 = Ok true ↔
             get2 (revealed right_opened) q.1 q.2 = Ok true ∨
             spread right_opened (0, 0) q) ∧
        (∀ q, spread right_opened (0, 0) q → opening right_opened (0, 0) q) ∧
        (∀ q, opening right_opened (0, 0) q → spread right_opened (0, 0) q) ∧
        get2 (revealed b') 0 3 = Ok true.
Proof.
  assert (reachable right_opened) as Hreach.
  { unfold right_opened. repeat apply reachable_after. apply reachable_init. }
  assert (placed right_opened = true) as Hpl by (vm_compute; reflexivity).
  assert (game_over right_opened = false) as Hg by (vm_compute; reflexivity).
  assert (in_bounds right_opened 0 0 = true) as Hin by (vm_compute; reflexivity).
  assert (get2 (revealed right_opened) 0 0 = Ok false) as Hrv
    by (vm_compute; reflexivity).
  assert (get2 (flagged right_opened) 0 0 = Ok false) as Hfl
    by (vm_compute; reflexivity).
  assert ((0, 0) ∉ mines right_opened) as Hnm.
  { vm_compute. intros H. discriminate H. }
  assert (zero_cell right_opened (0, 0)) as Hz by (vm_compute; reflexivity).
  assert (rows right_opened = 1) as Hr by (vm_compute; reflexivity).
  assert (cols right_opened = 7) as Hc by (vm_compute; reflexivity).
  assert (∀ q, in_bounds right_opened q.1 q.2 = true →
               q.1 = 0 ∧ (q.2 = 0 ∨ q.2 = 1 ∨ q.2 = 2 ∨ q.2 = 3 ∨ q.2 = 4 ∨
                          q.2 = 5 ∨ q.2 = 6)) as Hgrid.
  { intros q Hq%in_bounds_spec. rewrite Hr, Hc in Hq. lia. }
  assert (∀ p, zero_region right_opened (0, 0) p →
               p = (0, 0) ∨ p = (0, 1) ∨ p = (0, 2)) as Hreg.
  { induction 1 as [|p q Hp IH Hq Hadj Hzq]; [by left|].
    destruct q as [i j]. apply Hgrid in Hq as [Hi Hj]. cbn [fst snd] in Hi, Hj.
    subst i. unfold adjacent in Hadj.
    destruct IH as [->|[->| ->]]; cbn [fst snd] in Hadj;
      destruct Hj as [->|[->|[->|[->|[->|[->| ->]]]]]];
      try (exfalso; lia); auto;
      vm_compute in Hzq; discriminate Hzq. }
  assert (∀ q, opening right_opened (0, 0) q → pushable right_opened q) as Hopen.
  { assert (∀ p q, p = (0, 0) ∨ p = (0, 1) ∨ p = (0, 2) →
              in_bounds right_opened q.1 q.2 = true → adjacent p q →
              pushable right_opened q) as Hnear.
    { intros p [i j] Hp Hq Hadj. apply Hgrid in Hq as [Hi Hj].
      cbn [fst snd] in Hi, Hj. subst i. unfold adjacent in Hadj.
      destruct Hp as [->|[->| ->]]; cbn [fst snd] in Hadj;
        destruct Hj as [->|[->|[->|[->|[->|[->| ->]]]]]];
        try (exfalso; lia); split; vm_compute; reflexivity. }
    intros q [Hq|(p & Hp & Hqin & Hadj)].
    - destruct (Hreg q Hq) as [->|[->| ->]]; split; vm_compute; reflexivity.
    - by apply (Hnear p q (Hreg p Hp)). }
  assert (opening right_opened (0, 0) (0, 3)) as Hborder.
  { right. exists (0, 2). split; [|split].
    - apply (region_step _ _ (0, 1)); [apply (region_step _ _ (0, 0))|..].
      + apply region_start.
      + by vm_compute.
      + unfold adjacent. simpl. split; [lia|]. split; [lia|]. intros H. discriminate H.
      + by vm_compute.
      + by vm_compute.
      + unfold adjacent. simpl. split; [lia|]. split; [lia|]. intros H. discriminate H.
      + by vm_compute.
    - by vm_compute.
    - unfold adjacent. simpl. split; [lia|]. split; [lia|]. intros H. discriminate H. }
  do 7 (split; [assumption|]). split; [exact Hz|]. split; [exact Hopen|].
  split; [exact Hborder|].
  destruct (cascade_exact right_opened 0 0 [] Hreach Hpl Hg Hin Hrv Hfl Hnm)
    as (b' & Hrun & Hflags & Hiff & Hzero).
  destruct (Hzero Hz) as [Hsound Hcomplete].
  exists b'. do 4 (split; [assumption|]). split; [exact (Hcomplete Hopen)|].
  apply (Hiff (0, 3)); [by vm_compute|]. right. by apply (Hcomplete Hopen).
Defined.

(** ** The solver on views without a scanned mine *)

Lemma view_readable (view : list (list string)) m n p :
  mat_shape (Z.to_nat m) (Z.to_nat n) view → in_view m n p →
  ∃ s, get2 view p.1 p.2 = Ok s.
Proof.
  intros Hv [Hr Hc].
  destruct (mget_is_Some _ _ view (Z.to_nat p.1) (Z.to_nat p.2) Hv) as [s Hs]; [lia..|].
  exists s. eapply get2_Ok; [done|].
  exists (Z.to_nat p.1), (Z.to_nat p.2).
  rewrite !py_index_nonneg by lia. done.
Qed.

Lemma scan_window_spec view m n ps flagged unseen :
  mat_shape (Z.to_nat m) (Z.to_nat n) view →
  AutoPlay.scan_window view m n ps flagged unseen =
    Ok (flagged +
          Z.of_nat (length (filter (λ p, in_view m n p ∧
                                         get2 view p.1 p.2 = Ok AutoPlay.FLAGGED) ps)),
        unseen ++ filter (λ p, in_view m n p ∧
                               get2 view p.1 p.2 = Ok AutoPlay.UNSEEN) ps).
Proof.
  intros Hv. revert flagged unseen.
  induction ps as [|[i j] ps IH]; intros flagged unseen; simpl.
  { by rewrite Z.add_0_r, app_nil_r. }
  rewrite !filter_cons. simpl. case_bool_decide as Hin.
  - destruct (view_readable view m n (i, j) Hv) as [s Hs]; [unfold in_view; simpl; lia|].
    simpl in Hs. rewrite Hs. simpl. rewrite IH.
    assert (in_view m n (i, j)) as Hin' by (unfold in_view; simpl; lia).
    f_equal. f_equal.
    + case_bool_decide as Hf.
      * rewrite decide_True by (by subst). simpl. lia.
      * rewrite decide_False; [done|]. intros [_ [= ?]]. done.
    + case_bool_decide as Hu.
      * rewrite decide_True by (by subst). by rewrite <- app_assoc.
      * rewrite decide_False; [done|]. intros [_ [= ?]]. done.
  - rewrite IH. rewrite !decide_False; [done|..];
      intros [[? ?] _]; simpl in *; lia.
Qed.

Lemma check_count view m n t k s N :
  mat_shape (Z.to_nat m) (Z.to_nat n) view →
  get2 view t k = Ok s → s ≠ AutoPlay.UNSEEN → s ≠ AutoPlay.FLAGGED →
  py_int s = Ok N →
  AutoPlay.check view t k m n = Ok (deduction view m n t k N).
Proof.
  intros Hv Hs Hu Hf HN. unfold AutoPlay.check. rewrite Hs. simpl.
  rewrite bool_decide_false by tauto. rewrite HN. simpl.
  change (py_int "0") with (Ok 0 : pyres Z). simpl.
  rewrite scan_window_spec by done. simpl.
  unfold deduction. fold (unseen_around view m n t k).
  fold (flagged_around view m n t k). rewrite Z.sub_0_r.
  destruct (unseen_around view m n t k) as [|u us] eqn:HU; [done|].
  rewrite bool_decide_true by done. rewrite decide_False by done.
  repeat case_bool_decide; repeat case_decide; done.
Qed.

Lemma check_skip view m n t k s :
  get2 view t k = Ok s → s = AutoPlay.UNSEEN ∨ s = AutoPlay.FLAGGED →
  AutoPlay.check view t k m n = Ok None.
Proof.
  intros Hs H. unfold AutoPlay.check. rewrite Hs. simpl.
  by rewrite bool_decide_true.
Qed.

(** A revealed mine makes [check] raise. *)
Lemma check_mine view m n t k :
  get2 view t k = Ok BOMB → AutoPlay.check view t k m n = Raise ValueError.
Proof. intros Hs. unfold AutoPlay.check. by rewrite Hs. Qed.

Lemma check_quiet view m n p :
  mat_shape (Z.to_nat m) (Z.to_nat n) view → quiet view m n p →
  AutoPlay.check view p.1 p.2 m n = Ok None.
Proof.
  intros Hv (s & Hs & H).
  destruct (decide (s = AutoPlay.UNSEEN ∨ s = AutoPlay.FLAGGED)) as [Hsk|Hsk].
  { by eapply check_skip. }
  destruct H as [?|[?|(N & HN & Hd)]]; [tauto..|].
  rewrite (check_count view m n p.1 p.2 s N) by tauto. by rewrite Hd.
Qed.

Lemma scan_quiet view m n ps d :
  mat_shape (Z.to_nat m) (Z.to_nat n) view →
  Forall (quiet view m n) ps →
  AutoPlay.scan view m n ps d =
    fallback (default d (last (filter (λ p, get2 view p.1 p.2 = Ok AutoPlay.UNSEEN) ps))).
Proof.
  intros Hv Hq. revert d. induction Hq as [|[i j] ps Hp Hq IH]; intros d; [done|].
  pose proof (check_quiet view m n (i, j) Hv Hp) as Hc. simpl in Hc.
  simpl. rewrite Hc. simpl.
  destruct Hp as (s & Hs & _). simpl in Hs. rewrite Hs. simpl.
  rewrite IH. rewrite filter_cons. simpl. rewrite Hs. f_equal.
  case_bool_decide as Hu.
  - rewrite decide_True by (by subst). rewrite last_cons.
    by destruct (last _).
  - rewrite decide_False; [done|]. by intros [= ?].
Qed.

(** The scan returns at the first numbered cell that has a deduction, when
    the cells before it are quiet. *)
Lemma solution_first_deduction view m n pre t k post s N d :
  mat_shape (Z.to_nat m) (Z.to_nat n) view →
  grid_cells m n = pre ++ (t, k) :: post →
  Forall (quiet view m n) pre →
  get2 view t k = Ok s → s ≠ AutoPlay.UNSEEN → s ≠ AutoPlay.FLAGGED →
  py_int s = Ok N → deduction view m n t k N = Some d →
  AutoPlay.solution view m n = Ok d.
Proof.
  intros Hv Hcells Hq Hs Hu Hf HN Hd. unfold AutoPlay.solution. rewrite Hcells.
  clear Hcells. generalize (-1, -1). induction Hq as [|[i j] pre Hp Hq IH]; intros d0; simpl.
  - rewrite (check_count view m n t k s N) by done. simpl.
    rewrite Hs. simpl. by rewrite Hd.
  - pose proof (check_quiet view m n (i, j) Hv Hp) as Hc. simpl in Hc.
    rewrite Hc. simpl.
    destruct Hp as (s' & Hs' & _). simpl in Hs'. rewrite Hs'. simpl. apply IH.
Qed.

(** A scan in which every cell is quiet ends in the fallback: the last
    unseen cell in row-major order, or the no-moves exception. *)
Lemma solution_no_deduction view m n :
  mat_shape (Z.to_nat m) (Z.to_nat n) view →
  Forall (quiet view m n) (grid_cells m n) →
  AutoPlay.solution view m n =
    match last (filter (λ p, get2 view p.1 p.2 = Ok AutoPlay.UNSEEN) (grid_cells m n)) with
    | Some p => Ok (AutoPlay.REVEAL, [p])
    | None => Raise NoUnseenLeft
    end.
Proof.
  intros Hv Hq. unfold AutoPlay.solution. rewrite scan_quiet by done.
  destruct (last _) as [[i j]|] eqn:Hl; simpl; [|done].
  apply last_Some_elem_of, list_elem_of_filter in Hl as [_ Hin%elem_of_grid_cells].
  unfold fallback. rewrite bool_decide_false; [done|]. intros [= ? ?]. lia.
Qed.

(** * Further properties of the board engine *)

(** ** The outcomes of a reveal *)

Lemma in_range_position b p :
  in_range b p ↔ is_Some (position b p).
Proof.
  destruct p as [r c]. split.
  - intros [Hr Hc]. destruct (position_wrap b r c Hr Hc) as [_ ->]. eauto.
  - intros [q Hq]. destruct (decide (in_range b (r, c))) as [|Hn]; [done|].
    rewrite (position_outside b r c Hn) in Hq. done.
Qed.

Lemma mines_ready_spec b r c rnd b1 :
  Inv b → mines_ready b r c rnd b1 →
  Inv b1 ∧ placed b1 = true ∧ game_over b1 = game_over b ∧
  victory b1 = victory b ∧
  rows b1 = rows b ∧ cols b1 = cols b ∧ mines_count b1 = mines_count b ∧
  revealed b1 = revealed b ∧ flagged b1 = flagged b ∧
  (if placed b then b1 = b
   else feasible b r c ∧
        mines b1 = list_to_set
          (sample_draws rnd (available b r c) (Z.to_nat (mines_count b)))).
Proof.
  intros HI. unfold mines_ready. destruct (placed b) eqn:Hpl.
  - intros [= <-]. by rewrite Hpl.
  - intros Hrun. pose proof (Inv_place_mines b r c rnd HI Hpl) as HI'.
    destruct (decide (feasible b r c)) as [Hk|Hk].
    2:{ by rewrite place_mines_Raised in Hrun. }
    destruct (place_mines_Done b r c rnd (inv_shaped b HI)) as (m & Hrun' & _);
      [by apply (inv_unplaced b HI)|done|].
    rewrite Hrun in HI', Hrun'. injection Hrun' as ->. done.
Qed.

Lemma mines_ready_total b r c rnd :
  placed b = true ∨ feasible b r c →
  Inv b → ∃ b1, mines_ready b r c rnd b1.
Proof.
  intros H HI. unfold mines_ready. destruct (placed b) eqn:Hpl; [eauto|].
  destruct H as [|Hk]; [done|].
  destruct (place_mines_Done b r c rnd (inv_shaped b HI)) as (m & -> & _);
    [by apply (inv_unplaced b HI)|done|]. eauto.
Qed.

(** Every way in which [reveal] can end. *)
Lemma reveal_outcome b r c rnd o :
  Inv b → reveal b r c rnd = Some o →
  (o = Done b ∧
   (game_over b = true ∨
    ∃ i j, position b (r, c) = Some (i, j) ∧
           (mget (flagged b) i j = Some true ∨ mget (revealed b) i j = Some true)))
  ∨ (o = Raised IndexError b ∧ game_over b = false ∧ position b (r, c) = None)
  ∨ (∃ i j, game_over b = false ∧ position b (r, c) = Some (i, j) ∧
            mget (flagged b) i j = Some false ∧ mget (revealed b) i j = Some false ∧
            ((o = Raised ValueError b ∧ placed b = false ∧ ¬ feasible b r c)
             ∨ ∃ b1, mines_ready b r c rnd b1 ∧
                 (((r, c) ∈ mines b1 ∧ o = Done (mine_revealed b1 i j))
                  ∨ (((r, c) ∉ mines b1) ∧
                     ∃ m, cascade (cascade_fuel b1) [(r, c)] b1
                            = Some (Done (with_revealed b1 m)) ∧
                          cascade_inv b1 (r, c) [] (with_revealed b1 m) ∧
                          o = check_victory (with_revealed b1 m))))).
Proof.
  intros HI Hrun. destruct (game_over b) eqn:Hg.
  { left. unfold reveal in Hrun. rewrite Hg in Hrun. injection Hrun as <-. auto. }
  pose proof (reveal_spec b r c rnd (inv_shaped b HI) Hg) as H.
  destruct (position b (r, c)) as [[i j]|] eqn:Hp.
  2:{ right. left. rewrite H in Hrun. by injection Hrun as <-. }
  destruct H as (f & v & Hf & Hv & H). rewrite H in Hrun. clear H.
  destruct f; simpl in Hrun.
  { left. injection Hrun as <-. split; [done|]. right. eauto. }
  destruct v; simpl in Hrun.
  { left. injection Hrun as <-. split; [done|]. right. eauto. }
  right. right. exists i, j. do 4 (split; [done|]).
  destruct (if placed b then Done b else place_mines b r c rnd) as [b1|e b1] eqn:Hpm.
  - right. exists b1. split; [done|].
    destruct (mines_ready_spec b r c rnd b1 HI Hpm)
      as (HI1 & _ & _ & _ & Hr1 & Hc1 & _ & _ & Hfl1 & _).
    assert (position b1 (r, c) = Some (i, j)) as Hp1.
    { unfold position, nrows, ncols in *. by rewrite Hr1, Hc1. }
    pose proof (reveal_placed_spec b1 r c i j (inv_shaped b1 HI1) Hp1) as H.
    rewrite Hfl1 in H. specialize (H Hf).
    destruct (decide ((r, c) ∈ mines b1)).
    + left. split; [done|]. rewrite H in Hrun. by injection Hrun as <-.
    + right. split; [done|]. destruct H as (m & Hc & H & Hinv).
      exists m. rewrite H in Hrun. by injection Hrun as <-.
  - left. destruct (placed b) eqn:Hpl; [done|].
    destruct (decide (feasible b r c)) as [Hk|Hk].
    + destruct (place_mines_Done b r c rnd (inv_shaped b HI)) as (m & Hrun' & _);
        [by apply (inv_unplaced b HI)|done|]. congruence.
    + rewrite place_mines_Raised in Hpm by done. injection Hpm as <- <-.
      by injection Hrun as <-.
Qed.

Lemma toggle_flag_outcome b r c :
  Inv b →
  (toggle_flag b r c = Done b ∧
   (game_over b = true ∨
    ∃ i j, position b (r, c) = Some (i, j) ∧ mget (revealed b) i j = Some true))
  ∨ (toggle_flag b r c = Raised IndexError b ∧ game_over b = false ∧
     position b (r, c) = None)
  ∨ (∃ i j f, game_over b = false ∧ position b (r, c) = Some (i, j) ∧
              mget (revealed b) i j = Some false ∧ mget (flagged b) i j = Some f ∧
              toggle_flag b r c =
                check_victory (with_flagged b (mset (flagged b) i j (negb f)))).
Proof.
  intros HI. destruct (game_over b) eqn:Hg.
  { left. unfold toggle_flag. rewrite Hg. auto. }
  pose proof (toggle_flag_spec b r c (inv_shaped b HI) Hg) as H.
  destruct (position b (r, c)) as [[i j]|] eqn:Hp; [|by right; left].
  destruct H as (v & f & Hv & Hf & ->). destruct v.
  - left. split; [done|]. right. eauto.
  - right. right. exists i, j, f. done.
Qed.

(** What every call keeps: the sizes, the shape, the revealed cells; a
    reveal keeps the flags and a toggle keeps the revealed cells. *)
Lemma perform_effect b k o :
  Inv b → perform b k = Some o →
  rows (state_of o) = rows b ∧ cols (state_of o) = cols b ∧
  (∀ i j, mget (revealed b) i j = Some true →
          mget (revealed (state_of o)) i j = Some true) ∧
  match k with
  | Reveal _ _ _ => flagged (state_of o) = flagged b
  | ToggleFlag r c =>
      revealed (state_of o) = revealed b ∧
      ∀ i j, position b (r, c) ≠ Some (i, j) →
             mget (flagged (state_of o)) i j = mget (flagged b) i j
  end.
Proof.
  intros HI Hk. pose proof (inv_shaped b HI) as Hb.
  destruct k as [r c rnd|r c]; simpl in Hk.
  - destruct (reveal_outcome b r c rnd o HI Hk)
      as [[-> _]|[[-> _]|(i & j & Hg & Hp & Hf & Hv & H)]]; [done..|].
    destruct H as [[-> _]|(b1 & Hb1 & H)]; [done|].
    destruct (mines_ready_spec b r c rnd b1 HI Hb1)
      as (HI1 & _ & _ & _ & Hr1 & Hc1 & _ & Hrv1 & Hfl1 & _).
    destruct H as [[_ ->]|(_ & m & _ & Hinv & ->)].
    + simpl. rewrite Hrv1. do 2 (split; [done|]). split; [|done].
      intros i' j' H. destruct (position_lt _ _ _ _ Hp) as [Hi Hj].
      rewrite (mget_mset _ _ _ _ _ _ _ _ (proj1 Hb) Hi Hj).
      by destruct (decide (i = i' ∧ j = j')).
    + destruct Hinv as (Hsh & _ & _ & Hmono & _).
      destruct (check_victory_fields (with_revealed b1 m) Hsh)
        as (b' & -> & Hr' & Hc' & _ & _ & Hrv' & Hfl' & _).
      simpl. rewrite Hr', Hc', Hrv', Hfl'. simpl.
      do 2 (split; [done|]). split; [|done].
      intros i' j' H. apply Hmono. by rewrite Hrv1.
  - injection Hk as <-.
    destruct (toggle_flag_outcome b r c HI)
      as [[-> _]|[[-> _]|(i & j & f & Hg & Hp & Hv & Hf & ->)]]; [done..|].
    destruct (position_lt _ _ _ _ Hp) as [Hi Hj].
    destruct (check_victory_fields (with_flagged b (mset (flagged b) i j (negb f))))
      as (b' & -> & Hr' & Hc' & _ & _ & Hrv' & Hfl' & _).
    { apply shaped_with_flagged; [done|]. apply mat_shape_mset, Hb. }
    simpl. rewrite Hr', Hc', Hrv', Hfl'. simpl. do 4 (split; [done|]).
    intros i' j' Hne.
    rewrite (mget_mset _ _ _ _ _ _ _ _ (proj1 (proj2 Hb)) Hi Hj).
    rewrite decide_False; [done|]. intros [-> ->]. done.
Qed.

Lemma perform_Inv b k o : Inv b → perform b k = Some o → Inv (state_of o).
Proof.
  intros HI Hk. destruct k as [r c rnd|r c]; simpl in Hk.
  - destruct (reveal_cases b r c rnd HI) as (o' & Ho & ?). congruence.
  - injection Hk as <-. by apply Inv_toggle_flag.
Qed.

(** ** Revealed cells stay revealed *)

(** X1.  A cell of the grid that is revealed stays revealed through every
    call of [reveal] and [toggle_flag], whatever the arguments and whether
    the call returns or raises. *)
Theorem revealed_stays b k o r c :
  reachable b → perform b k = Some o →
  in_bounds b r c = true → get2 (revealed b) r c = Ok true →
  get2 (revealed (state_of o)) r c = Ok true.
Proof.
  intros HI%reachable_Inv Hk Hin Hr.
  destruct (perform_effect b k o HI Hk) as (Hr' & Hc' & Hmono & _).
  pose proof (perform_Inv b k o HI Hk) as HI'.
  apply (get2_cell b) in Hr; [|apply HI|done].
  assert (in_bounds (state_of o) r c = true) as Hin'.
  { unfold in_bounds in *. by rewrite Hr', Hc'. }
  apply (get2_cell (state_of o)); [apply HI'|done|]. by apply Hmono.
Qed.

Lemma revealed_stays_witness :
  reachable flag_in_region ∧
  perform flag_in_region (Reveal 0 2 [])
    = Some (Done (after flag_in_region (Reveal 0 2 []))) ∧
  in_bounds flag_in_region 0 6 = true ∧
  get2 (revealed flag_in_region) 0 6 = Ok true ∧
  get2 (revealed (after flag_in_region (Reveal 0 2 []))) 0 6 = Ok true.
Proof.
  assert (reachable flag_in_region) as Hreach.
  { unfold flag_in_region. repeat apply reachable_after. apply reachable_init. }
  assert (perform flag_in_region (Reveal 0 2 [])
            = Some (Done (after flag_in_region (Reveal 0 2 [])))) as Hk
    by (vm_compute; reflexivity).
  assert (in_bounds flag_in_region 0 6 = true) as Hin by (vm_compute; reflexivity).
  assert (get2 (revealed flag_in_region) 0 6 = Ok true) as Hr
    by (vm_compute; reflexivity).
  split; [exact Hreach|]. split; [exact Hk|]. split; [exact Hin|].
  split; [exact Hr|].
  exact (revealed_stays flag_in_region _ _ 0 6 Hreach Hk Hin Hr).
Defined.

(** ** What a call leaves alone *)

(** X2.  [reveal] never changes a flag, and [toggle_flag] never changes
    which cells are revealed, the mine layout or the stored counts; it
    changes no flag but the one of the cell it addresses. *)
Theorem call_frames b k o :
  reachable b → perform b k = Some o →
  match k with
  | Reveal _ _ _ => flagged (state_of o) = flagged b
  | ToggleFlag r c =>
      revealed (state_of o) = revealed b ∧
      mines (state_of o) = mines b ∧ board (state_of o) = board b ∧
      placed (state_of o) = placed b ∧
      ∀ q, in_bounds b q.1 q.2 = true →
           q ≠ (wrap (rows b) r, wrap (cols b) c) →
           get2 (flagged (state_of o)) q.1 q.2 = get2 (flagged b) q.1 q.2
  end.
Proof.
  intros HI%reachable_Inv Hk.
  pose proof (perform_effect b k o HI Hk) as (Hr' & Hc' & _ & H).
  destruct k as [r c rnd|r c]; [done|]. destruct H as [Hrv Hfl].
  split; [done|]. simpl in Hk. injection Hk as <-.
  pose proof (inv_shaped b HI) as Hb.
  assert (mines (state_of (toggle_flag b r c)) = mines b ∧
          board (state_of (toggle_flag b r c)) = board b ∧
          placed (state_of (toggle_flag b r c)) = placed b) as (? & ? & ?).
  { destruct (toggle_flag_outcome b r c HI)
      as [[-> _]|[[-> _]|(i & j & f & Hg & Hp & Hv & Hf & ->)]]; [done..|].
    destruct (check_victory_fields (with_flagged b (mset (flagged b) i j (negb f))))
      as (b' & -> & _ & _ & _ & ? & _ & _ & ? & ?); [|done].
    apply shaped_with_flagged; [done|]. apply mat_shape_mset, Hb. }
  do 3 (split; [done|]).
  intros [qr qc] Hq Hne. simpl in *.
  pose proof (perform_Inv b (ToggleFlag r c) _ HI eq_refl) as HI'. simpl in HI'.
  destruct (get2_in_bounds b (flagged b) qr qc (proj1 (proj2 Hb)) Hq) as (x & Hx & ->).
  assert (in_bounds (state_of (toggle_flag b r c)) qr qc = true) as Hq'.
  { unfold in_bounds in *. by rewrite Hr', Hc'. }
  apply (get2_cell (state_of (toggle_flag b r c))); [apply HI'|done|].
  rewrite Hfl; [done|]. intros Hp. apply Hne.
  destruct (decide (in_range b (r, c))) as [[Hrr Hcc]|Hout].
  - destruct (position_wrap b r c Hrr Hcc) as [Hw Hp']. rewrite Hp' in Hp.
    apply in_bounds_spec in Hw, Hq. injection Hp as Hi Hj. f_equal; lia.
  - by rewrite (position_outside b r c Hout) in Hp.
Qed.

Lemma call_frames_witness :
  reachable flag_in_region ∧
  perform flag_in_region (Reveal 0 2 [])
    = Some (Done (after flag_in_region (Reveal 0 2 []))) ∧
  flagged (after flag_in_region (Reveal 0 2 [])) = flagged flag_in_region.
Proof.
  assert (reachable flag_in_region) as Hreach.
  { unfold flag_in_region. repeat apply reachable_after. apply reachable_init. }
  assert (perform flag_in_region (Reveal 0 2 [])
            = Some (Done (after flag_in_region (Reveal 0 2 [])))) as Hk
    by (vm_compute; reflexivity).
  split; [exact Hreach|]. split; [exact Hk|].
  exact (call_frames flag_in_region _ _ Hreach Hk).
Defined.

(** ** Calls that raise *)

(** X3.  A call that raises leaves the board as it was.  [toggle_flag]
    raises only [IndexError], for a pair outside the index range while the
    game is on; [reveal] raises that, or [ValueError] when it has to place
    the mines at an unflagged cell and the mine count does not fit. *)
Theorem raising_call b k e b' :
  reachable b → perform b k = Some (Raised e b') →
  b' = b ∧ game_over b = false ∧
  ((e = IndexError ∧ ¬ in_range b (call_cell k)) ∨
   (e = ValueError ∧ in_range b (call_cell k) ∧ placed b = false ∧
    ∃ r c rnd, k = Reveal r c rnd ∧ ¬ feasible b r c)).
Proof.
  intros HI%reachable_Inv Hk. pose proof (inv_shaped b HI) as Hb.
  destruct k as [r c rnd|r c]; simpl in Hk.
  - destruct (reveal_outcome b r c rnd _ HI Hk)
      as [[[=] _]|[[[= -> ->] [Hg Hp]]|(i & j & Hg & Hp & Hf & Hv & H)]].
    { do 2 (split; [done|]). left. split; [done|].
      intros [q Hq]%in_range_position. simpl in Hq. congruence. }
    destruct H as [[[= -> ->] [Hpl Hk']]|(b1 & Hb1 & H)].
    { do 2 (split; [done|]). right. split; [done|]. split.
      - apply in_range_position. simpl. rewrite Hp. eauto.
      - split; [done|]. eauto. }
    destruct (mines_ready_spec b r c rnd b1 HI Hb1) as (HI1 & _).
    destruct H as [[_ [=]]|(_ & m & _ & Hinv & Ho)].
    destruct (check_victory_fields (with_revealed b1 m)) as (b2 & Hb2 & _);
      [apply Hinv|]. congruence.
  - injection Hk as Hk.
    destruct (toggle_flag_outcome b r c HI)
      as [[Ho _]|[[Ho [Hg Hp]]|(i & j & f & Hg & Hp & Hv & Hf & Ho)]];
      rewrite Ho in Hk.
    + done.
    + injection Hk as <- <-. do 2 (split; [done|]). left. split; [done|].
      intros [q Hq]%in_range_position. simpl in Hq. congruence.
    + destruct (check_victory_fields (with_flagged b (mset (flagged b) i j (negb f))))
        as (b2 & Hb2 & _); [|congruence].
      apply shaped_with_flagged; [done|]. apply mat_shape_mset, Hb.
Qed.

Lemma raising_call_witness :
  reachable (Board_init 3 3 6) ∧
  perform (Board_init 3 3 6) (Reveal 1 1 [])
    = Some (Raised ValueError (Board_init 3 3 6)) ∧
  game_over (Board_init 3 3 6) = false ∧
  ¬ feasible (Board_init 3 3 6) 1 1.
Proof.
  assert (perform (Board_init 3 3 6) (Reveal 1 1 [])
            = Some (Raised ValueError (Board_init 3 3 6))) as Hk
    by (vm_compute; reflexivity).
  destruct (raising_call _ _ _ _ (reachable_init 3 3 6) Hk) as (_ & Hg & H).
  split; [apply reachable_init|]. split; [exact Hk|]. split; [exact Hg|].
  destruct H as [[H _]|(_ & _ & _ & r & c & rnd & Heq & Hn)].
  - discriminate H.
  - injection Heq as <- <- _. exact Hn.
Defined.

(** ** Flags *)

Lemma mset_mset {A} (m : list (list A)) i j x y :
  mset (mset m i j x) i j y = mset m i j y.
Proof.
  unfold mset. destruct (m !! i) as [row|] eqn:E; [|by rewrite E].
  rewrite list_lookup_insert_eq by (by eapply lookup_lt_Some).
  by rewrite !list_insert_insert_eq.
Qed.

Lemma mset_id {A} (m : list (list A)) i j x :
  mget m i j = Some x → mset m i j x = m.
Proof.
  unfold mget, mset. destruct (m !! i) as [row|] eqn:E; [|done]. simpl.
  intros H. rewrite (list_insert_id row j x H). by apply list_insert_id.
Qed.

Lemma with_flagged_twice b m : with_flagged (with_flagged b m) (flagged b) = b.
Proof. by destruct b. Qed.

(** What [check_victory] leaves in progress has not got the winning
    count. *)
Lemma check_victory_count b :
  shaped b → game_over (state_of (check_victory b)) = false →
  game_over b = false ∧ state_of (check_victory b) = b ∧
  revealed_count b ≠ safe_cells b.
Proof.
  intros Hb. rewrite (check_victory_spec b Hb). simpl.
  destruct (game_over b) eqn:Hg; [congruence|].
  case_bool_decide; simpl; [done|]. by rewrite Hg.
Qed.

(** A game in progress has the winning count only before any call has
    got as far as [check_victory]. *)
Lemma in_progress_count b :
  reachable b → game_over b = false → revealed_count b = safe_cells b →
  placed b = false.
Proof.
  induction 1 as [nr nc nm|b k o Hreach IH Hk]; [done|].
  pose proof (reachable_Inv b Hreach) as HI.
  assert (∀ b', shaped b' → o = check_victory b' →
            game_over (state_of o) = false →
            revealed_count (state_of o) = safe_cells (state_of o) →
            placed (state_of o) = false) as Hcv.
  { intros b' Hb' -> Hg. destruct (check_victory_count b' Hb' Hg) as (_ & -> & Hne).
    done. }
  destruct k as [r c rnd|r c]; simpl in Hk.
  - destruct (reveal_outcome b r c rnd o HI Hk)
      as [[-> _]|[[-> _]|(i & j & Hg & Hp & Hf & Hv & H)]]; [done..|].
    destruct H as [[-> _]|(b1 & Hb1 & [[_ ->]|(_ & m & _ & Hinv & Ho)])];
      [done|done|].
    apply (Hcv (with_revealed b1 m)); [apply Hinv|done].
  - injection Hk as <-.
    destruct (toggle_flag_outcome b r c HI)
      as [[-> _]|[[-> _]|(i & j & f & Hg & Hp & Hv & Hf & Ho)]]; [done..|].
    apply (Hcv (with_flagged b (mset (flagged b) i j (negb f)))); [|done].
    apply shaped_with_flagged; [apply HI|]. apply mat_shape_mset, HI.
Qed.

(** X4.  Flagging is undone by flagging again: when [toggle_flag] returns
    and the game is still on, the same call once more gives back the board
    the first one started from. *)
Theorem toggle_flag_twice b r c b' :
  reachable b → toggle_flag b r c = Done b' → game_over b' = false →
  toggle_flag b' r c = Done b.
Proof.
  intros Hreach Ht Hg'. pose proof (reachable_Inv b Hreach) as HI.
  pose proof (inv_shaped b HI) as Hb.
  destruct (toggle_flag_outcome b r c HI)
    as [[Ho _]|[[Ho _]|(i & j & f & Hg & Hp & Hv & Hf & Ho)]];
    rewrite Ho in Ht; [by injection Ht as <-|done|].
  destruct (position_lt _ _ _ _ Hp) as [Hi Hj].
  set (b1 := with_flagged b (mset (flagged b) i j (negb f))) in *.
  assert (shaped b1) as Hb1.
  { apply shaped_with_flagged; [done|]. apply mat_shape_mset, Hb. }
  assert (b' = state_of (check_victory b1)) as Hb' by (by rewrite Ht).
  rewrite Hb' in Hg'. destruct (check_victory_count b1 Hb1 Hg') as (Hg1 & Heq & Hne).
  rewrite Heq in Hb'. subst b'.
  assert (Inv b1) as HI1.
  { rewrite <- Heq, <- Ho. by apply Inv_toggle_flag. }
  assert (mget (flagged b1) i j = Some (negb f)) as Hf1.
  { simpl. rewrite (mget_mset _ _ _ _ _ _ _ _ (proj1 (proj2 Hb)) Hi Hj).
    by rewrite decide_True. }
  destruct (toggle_flag_outcome b1 r c HI1)
    as [[_ [?|(i' & j' & Hp' & Hv')]]|[[_ [_ Hp']]|(i' & j' & f' & _ & Hp' & _ & Hf' & ->)]].
  - congruence.
  - change (position b1 (r, c)) with (position b (r, c)) in Hp'.
    simpl in Hv'. congruence.
  - change (position b1 (r, c)) with (position b (r, c)) in Hp'. congruence.
  - change (position b1 (r, c)) with (position b (r, c)) in Hp'.
    assert (i' = i ∧ j' = j) as [-> ->] by (split; congruence).
    assert (f' = negb f) as -> by congruence.
    rewrite negb_involutive. unfold b1 at 2. simpl.
    rewrite mset_mset, (mset_id _ _ _ _ Hf).
    unfold b1. rewrite with_flagged_twice.
    rewrite (check_victory_spec b Hb), Hg.
    rewrite bool_decide_eq_false_2; [done|]. exact Hne.
Qed.

Lemma toggle_flag_twice_witness :
  reachable flagged_centre ∧
  toggle_flag flagged_centre 1 1 = Done (after flagged_centre (ToggleFlag 1 1)) ∧
  game_over (after flagged_centre (ToggleFlag 1 1)) = false ∧
  toggle_flag (after flagged_centre (ToggleFlag 1 1)) 1 1 = Done flagged_centre.
Proof.
  assert (reachable flagged_centre) as Hreach.
  { unfold flagged_centre. repeat apply reachable_after. apply reachable_init. }
  assert (toggle_flag flagged_centre 1 1
            = Done (after flagged_centre (ToggleFlag 1 1))) as Ht
    by (vm_compute; reflexivity).
  assert (game_over (after flagged_centre (ToggleFlag 1 1)) = false) as Hg
    by (vm_compute; reflexivity).
  split; [exact Hreach|]. split; [exact Ht|]. split; [exact Hg|].
  exact (toggle_flag_twice flagged_centre 1 1 _ Hreach Ht Hg).
Defined.

(** X5.  [toggle_flag] runs [check_victory], so it can end a game: it does
    so exactly on a board without mines placed whose configuration has as
    many mines as cells, for every pair in the index range, and the game
    is then won. *)
Theorem toggle_flag_ends_game b r c :
  reachable b → game_over b = false →
  (game_over (state_of (toggle_flag b r c)) = true ↔
     placed b = false ∧ safe_cells b = 0 ∧ in_range b (r, c)) ∧
  victory (state_of (toggle_flag b r c)) = game_over (state_of (toggle_flag b r c)).
Proof.
  intros Hreach Hg. pose proof (reachable_Inv b Hreach) as HI.
  pose proof (inv_shaped b HI) as Hb.
  pose proof (Inv_in_progress b HI Hg) as Hvic.
  destruct (toggle_flag_outcome b r c HI)
    as [[-> [?|(i & j & Hp & Hv)]]|[[-> [_ Hp]]|(i & j & f & _ & Hp & Hv & Hf & ->)]].
  - congruence.
  - simpl. split; [|congruence]. rewrite Hg. split; [done|].
    intros (Hpl & _ & _). destruct (position_lt _ _ _ _ Hp) as [Hi Hj].
    pose proof (mget_unplaced_revealed b i j HI Hpl Hi Hj). congruence.
  - simpl. split; [|congruence]. rewrite Hg. split; [done|].
    intros (_ & _ & [q Hq]%in_range_position). congruence.
  - set (b1 := with_flagged b (mset (flagged b) i j (negb f))).
    assert (shaped b1) as Hb1.
    { apply shaped_with_flagged; [done|]. apply mat_shape_mset, Hb. }
    rewrite (check_victory_spec b1 Hb1).
    change (game_over b1) with (game_over b). rewrite Hg.
    change (revealed_count b1) with (revealed_count b).
    change (safe_cells b1) with (safe_cells b).
    case_bool_decide as Hc; simpl.
    + split; [|done]. split; [|done]. intros _.
      pose proof (in_progress_count b Hreach Hg Hc) as Hpl.
      rewrite (revealed_count_unplaced b HI Hpl) in Hc.
      split; [done|]. split; [done|]. apply in_range_position. eauto.
    + rewrite Hg. split; [|done]. split; [done|]. intros (Hpl & H0 & _).
      rewrite (revealed_count_unplaced b HI Hpl) in Hc. congruence.
Qed.

Lemma toggle_flag_ends_game_witness :
  reachable (Board_init 2 2 4) ∧ game_over (Board_init 2 2 4) = false ∧
  game_over (state_of (toggle_flag (Board_init 2 2 4) 0 1)) = true ∧
  victory (state_of (toggle_flag (Board_init 2 2 4) 0 1)) = true.
Proof.
  pose proof (toggle_flag_ends_game (Board_init 2 2 4) 0 1
                (reachable_init 2 2 4) eq_refl) as [H1 H2].
  split; [apply reachable_init|]. split; [reflexivity|].
  assert (game_over (state_of (toggle_flag (Board_init 2 2 4) 0 1)) = true) as Hg.
  { apply H1. vm_compute. repeat split; discriminate. }
  split; [exact Hg|]. rewrite H2. exact Hg.
Defined.

(** ** Losing *)

(** Revealing an unflagged, unrevealed mine by its own coordinates. *)
Lemma reveal_mine b r c rnd :
  Inv b → game_over b = false → (r, c) ∈ mines b →
  get2 (flagged b) r c = Ok false → get2 (revealed b) r c = Ok false →
  reveal b r c rnd = Some (Done (mine_revealed b (Z.to_nat r) (Z.to_nat c))).
Proof.
  intros HI Hg Hm Hf Hv. pose proof (inv_shaped b HI) as Hb.
  pose proof (inv_mines b HI _ Hm) as Hin. simpl in Hin.
  assert (placed b = true) as Hpl.
  { destruct (placed b) eqn:E; [done|].
    destruct (inv_unplaced b HI E) as (_ & Hno & _). set_solver. }
  pose proof (position_in_bounds b (r, c) Hin) as Hp. simpl in Hp.
  pose proof (reveal_spec b r c rnd Hb Hg) as H. rewrite Hp in H.
  destruct H as (f & v & Hf' & Hv' & ->).
  apply (get2_cell b) in Hf, Hv; [|apply Hb|done|apply Hb|done].
  assert (f = false) as -> by congruence.
  assert (v = false) as -> by congruence. simpl. rewrite Hpl.
  pose proof (reveal_placed_spec b r c _ _ Hb Hp Hf') as H.
  by rewrite decide_True in H.
Qed.

(** The only way into a lost game. *)
Lemma loss_cases b k o :
  Inv b → game_over b = false → perform b k = Some o → lost (state_of o) →
  ∃ r c rnd, k = Reveal r c rnd ∧ (r, c) ∈ mines b ∧
             get2 (flagged b) r c = Ok false ∧ get2 (revealed b) r c = Ok false.
Proof.
  intros HI Hg Hk [Hg' Hv']. pose proof (inv_shaped b HI) as Hb.
  assert (∀ b', shaped b' → game_over b' = false → o = check_victory b' → False) as Hcv.
  { intros b' Hb' E ->. rewrite (check_victory_spec b' Hb'), E in Hg', Hv'.
    simpl in *. case_bool_decide; simpl in *; congruence. }
  destruct k as [r c rnd|r c]; simpl in Hk.
  - destruct (reveal_outcome b r c rnd o HI Hk)
      as [[-> _]|[[-> _]|(i & j & _ & Hp & Hf & Hv & H)]];
      [simpl in *; congruence..|].
    destruct H as [[-> _]|(b1 & Hb1 & [[Hm _]|(_ & m & _ & Hinv & Ho)])].
    + simpl in *; congruence.
    + destruct (mines_ready_spec b r c rnd b1 HI Hb1)
        as (_ & _ & _ & _ & _ & _ & _ & _ & _ & H).
      exists r, c, rnd. split; [done|].
      destruct (placed b) eqn:Hpl.
      * subst b1. split; [done|].
        split; apply (get2_position_Ok b _ (r, c) i j); try done; apply Hb.
      * destruct H as [_ Hms]. rewrite Hms in Hm.
        apply elem_of_list_to_set, sample_draws_subseteq, elem_of_available in Hm.
        by destruct Hm as (_ & ? & _).
    + destruct (mines_ready_spec b r c rnd b1 HI Hb1) as (_ & _ & Hg1 & _).
      destruct (Hcv (with_revealed b1 m)); [apply Hinv|simpl; congruence|done].
  - injection Hk as <-.
    destruct (toggle_flag_outcome b r c HI)
      as [[Ho _]|[[Ho _]|(i & j & f & _ & Hp & Hv & Hf & Ho)]];
      rewrite Ho in Hg', Hv'; [simpl in *; congruence..|].
    destruct (Hcv (with_flagged b (mset (flagged b) i j (negb f)))); [|done..].
    apply shaped_with_flagged; [done|]. apply mat_shape_mset, Hb.
Qed.

(** X6.  A call loses the game exactly when it is a [reveal] whose pair is
    itself in the mine set and whose cell is neither flagged nor
    revealed. *)
Theorem loss_exactly_on_mine b k o :
  reachable b → game_over b = false → perform b k = Some o →
  (lost (state_of o) ↔
     ∃ r c rnd, k = Reveal r c rnd ∧ (r, c) ∈ mines b ∧
                get2 (flagged b) r c = Ok false ∧
                get2 (revealed b) r c = Ok false).
Proof.
  intros HI%reachable_Inv Hg Hk. split.
  - by apply loss_cases.
  - intros (r & c & rnd & -> & Hm & Hf & Hv). simpl in Hk.
    rewrite (reveal_mine b r c rnd HI Hg Hm Hf Hv) in Hk.
    injection Hk as <-. done.
Qed.

Lemma loss_exactly_on_mine_witness :
  reachable two_opened ∧ game_over two_opened = false ∧
  perform two_opened (Reveal 0 4 []) = Some (Done lost_right) ∧
  lost lost_right.
Proof.
  assert (reachable two_opened) as Hreach.
  { unfold two_opened. repeat apply reachable_after. apply reachable_init. }
  assert (game_over two_opened = false) as Hg by (vm_compute; reflexivity).
  assert (perform two_opened (Reveal 0 4 []) = Some (Done lost_right)) as Hk
    by (vm_compute; reflexivity).
  split; [exact Hreach|]. split; [exact Hg|]. split; [exact Hk|].
  apply (loss_exactly_on_mine two_opened _ _ Hreach Hg Hk).
  exists 0, 4, []. split; [reflexivity|]. split.
  - vm_compute. tauto.
  - split; vm_compute; reflexivity.
Defined.

(** X7.  The mine test of [reveal] compares the pair as passed, so a mine
    addressed through a negative index is not recognised: the call
    returns, the mine is shown, and the game is not lost. *)
Theorem mine_through_negative_index b r c rnd :
  reachable b → game_over b = false →
  in_range b (r, c) → r < 0 ∨ c < 0 →
  (wrap (rows b) r, wrap (cols b) c) ∈ mines b →
  get2 (flagged b) r c = Ok false → get2 (revealed b) r c = Ok false →
  ∃ b', reveal b r c rnd = Some (Done b') ∧ ¬ lost b' ∧
        get2 (revealed b') r c = Ok true ∧ get2 (board b') r c = Ok MINE.
Proof.
  intros HI%reachable_Inv Hg [Hr Hc] Hneg Hm Hf Hv.
  pose proof (inv_shaped b HI) as Hb. simpl in Hr, Hc.
  destruct (position_wrap b r c Hr Hc) as [Hin Hp].
  assert (placed b = true) as Hpl.
  { destruct (placed b) eqn:E; [done|].
    destruct (inv_unplaced b HI E) as (_ & Hno & _). set_solver. }
  destruct (reveal_cases b r c rnd HI) as (o & Ho & HI').
  assert (¬ lost (state_of o)) as Hnl.
  { intros Hl.
    destruct (loss_cases b (Reveal r c rnd) o HI Hg Ho Hl)
      as (r' & c' & rnd' & [= <- <- <-] & Hm' & _).
    apply (inv_mines b HI), in_bounds_spec in Hm'. simpl in Hm'. lia. }
  apply (get2_position_Ok b _ (r, c) _ _ _ (proj1 (proj2 Hb)) Hp) in Hf.
  apply (get2_position_Ok b _ (r, c) _ _ _ (proj1 Hb) Hp) in Hv.
  destruct (reveal_outcome b r c rnd o HI Ho)
    as [[_ [?|(i & j & Hp' & H)]]|[[_ [_ Hp']]|(i & j & _ & Hp' & _ & _ & H)]].
  - congruence.
  - rewrite Hp in Hp'. injection Hp' as <- <-. destruct H; congruence.
  - congruence.
  - rewrite Hp in Hp'. injection Hp' as <- <-.
    destruct H as [[_ [? _]]|(b1 & Hb1 & H)]; [congruence|].
    destruct (mines_ready_spec b r c rnd b1 HI Hb1)
      as (_ & _ & _ & _ & _ & _ & _ & _ & _ & H1).
    rewrite Hpl in H1. subst b1.
    destruct H as [[Hm' _]|(_ & m & _ & Hinv & ->)].
    { apply (inv_mines b HI), in_bounds_spec in Hm'. simpl in Hm'. lia. }
    destruct Hinv as (Hsh & _ & _ & _ & _ & Hs).
    destruct (check_victory_fields (with_revealed b m) Hsh)
      as (b' & Hcv & Hr' & Hc' & _ & _ & Hrv' & _ & Hbd' & _).
    rewrite Hcv in *. simpl in *. exists b'. do 2 (split; [done|]).
    assert (position b' (r, c)
              = Some (Z.to_nat (wrap (rows b) r), Z.to_nat (wrap (cols b) c))) as Hp'.
    { unfold position, nrows, ncols in *. by rewrite Hr', Hc'. }
    split.
    + apply (get2_position_Ok b' _ (r, c) _ _ _ (proj1 (inv_shaped b' HI')) Hp').
      rewrite Hrv'. destruct (Hs _ _ Hp) as [H|H]; [done|set_solver].
    + apply (get2_position_Ok b' _ (r, c) _ _ _ (proj2 (proj2 (inv_shaped b' HI'))) Hp').
      rewrite Hbd'. destruct (position_lt _ _ _ _ Hp) as [Hi Hj].
      destruct (inv_placed b HI Hpl) as [_ Hcells].
      rewrite (Hcells _ _ Hi Hj). unfold cell_value.
      apply in_bounds_spec in Hin.
      rewrite !Z2Nat.id by lia. by rewrite decide_True.
Qed.

Lemma mine_through_negative_index_witness :
  reachable two_opened ∧ game_over two_opened = false ∧
  in_range two_opened (0, -1) ∧ (0 < 0 ∨ -1 < 0) ∧
  (wrap (rows two_opened) 0, wrap (cols two_opened) (-1)) ∈ mines two_opened ∧
  get2 (flagged two_opened) 0 (-1) = Ok false ∧
  get2 (revealed two_opened) 0 (-1) = Ok false ∧
  ∃ b', reveal two_opened 0 (-1) [] = Some (Done b') ∧ ¬ lost b' ∧
        get2 (revealed b') 0 (-1) = Ok true ∧ get2 (board b') 0 (-1) = Ok MINE.
Proof.
  assert (reachable two_opened) as Hreach.
  { unfold two_opened. repeat apply reachable_after. apply reachable_init. }
  assert (game_over two_opened = false) as Hg by (vm_compute; reflexivity).
  assert (in_range two_opened (0, -1)) as Hin by (vm_compute; repeat split; discriminate).
  assert (0 < 0 ∨ -1 < 0) as Hneg by (right; reflexivity).
  assert ((wrap (rows two_opened) 0, wrap (cols two_opened) (-1)) ∈ mines two_opened)
    as Hm by (vm_compute; tauto).
  assert (get2 (flagged two_opened) 0 (-1) = Ok false) as Hf by (vm_compute; reflexivity).
  assert (get2 (revealed two_opened) 0 (-1) = Ok false) as Hv by (vm_compute; reflexivity).
  do 6 (split; [assumption|]). split; [exact Hv|].
  exact (mine_through_negative_index two_opened 0 (-1) [] Hreach Hg Hin Hneg Hm Hf Hv).
Defined.

(** ** What a reveal opens *)

Lemma neighbors_ext b b' r c :
  rows b' = rows b → cols b' = cols b → neighbors b' r c = neighbors b r c.
Proof. intros Hr Hc. unfold neighbors, in_bounds. by rewrite Hr, Hc. Qed.

Lemma in_bounds_ext b b' r c :
  rows b' = rows b → cols b' = cols b → in_bounds b' r c = in_bounds b r c.
Proof. intros Hr Hc. unfold in_bounds. by rewrite Hr, Hc. Qed.

(** The reveal of a cell of the grid that is not a mine, on the board
    [b1] that the placement step leaves. *)
Lemma reveal_spread b r c rnd b1 :
  Inv b → game_over b = false →
  in_bounds b r c = true → pushable b (r, c) →
  mines_ready b r c rnd b1 → (r, c) ∉ mines b1 →
  ∃ b', reveal b r c rnd = Some (Done b') ∧ ¬ lost b' ∧
        rows b' = rows b ∧ cols b' = cols b ∧
        flagged b' = flagged b ∧ board b' = board b1 ∧ mines b' = mines b1 ∧
        placed b' = true ∧
        ∀ q, in_bounds b q.1 q.2 = true →
          get2 (revealed b') q.1 q.2 = Ok true ↔
            get2 (revealed b) q.1 q.2 = Ok true ∨ spread b1 (r, c) q.
Proof.
  intros HI Hg Hin [Hv Hf] Hb1 Hm. simpl in Hv, Hf.
  pose proof (inv_shaped b HI) as Hb.
  destruct (mines_ready_spec b r c rnd b1 HI Hb1)
    as (HI1 & Hpl1 & Hg1 & _ & Hr1 & Hc1 & _ & Hrv1 & Hfl1 & _).
  pose proof (inv_shaped b1 HI1) as Hsh1.
  assert (in_bounds b1 r c = true) as Hin1 by (by rewrite (in_bounds_ext b b1)).
  pose proof (position_in_bounds b (r, c) Hin) as Hp. simpl in Hp.
  pose proof (position_in_bounds b1 (r, c) Hin1) as Hp1. simpl in Hp1.
  pose proof (reveal_spec b r c rnd Hb Hg) as H. rewrite Hp in H.
  destruct H as (f & v & Hf' & Hv' & ->).
  apply (get2_cell b) in Hf, Hv; [|apply Hb|done|apply Hb|done].
  assert (f = false) as -> by congruence.
  assert (v = false) as -> by congruence. simpl.
  unfold mines_ready in Hb1. rewrite Hb1.
  pose proof (reveal_placed_spec b1 r c _ _ Hsh1 Hp1) as H.
  rewrite Hfl1 in H. specialize (H Hf'). rewrite decide_False in H by done.
  destruct H as (m & Hrun & -> & _).
  destruct (cascade_spread b1 (r, c) Hsh1 Hin1) as (m' & Hrun' & Hsh' & Hm').
  { split; simpl; rewrite ?Hrv1, ?Hfl1; by apply (get2_cell b); try apply Hb. }
  rewrite Hrun in Hrun'. injection Hrun' as ->.
  destruct (check_victory_fields (with_revealed b1 m') Hsh')
    as (b' & Hcv & Hr' & Hc' & _ & Hmi' & Hrv' & Hfl' & Hbd' & Hpl').
  exists b'. split; [by rewrite Hcv|]. split.
  { intros [Hg' Hvic']. rewrite (check_victory_spec _ Hsh') in Hcv.
    injection Hcv as <-. simpl in *. rewrite Hg1, Hg in *.
    case_bool_decide; simpl in *; congruence. }
  simpl in *. rewrite Hr', Hc', Hfl', Hbd', Hmi', Hpl', Hrv'.
  do 6 (split; [congruence|]). intros q Hq.
  rewrite (Hm' q), Hrv1; [done|]. by rewrite (in_bounds_ext b b1).
Qed.

(** X8.  The first reveal of a game, at an unflagged cell of the grid
    with a mine count that the cells of the grid other than that cell and
    the cells next to it can hold, opens that cell and every unflagged
    cell of the grid next to it, in a row, a column or a diagonal: no mine
    lies next to the cell, its count is zero, and the game is not lost. *)
Theorem first_reveal_opens b r c rnd :
  reachable b → placed b = false →
  in_bounds b r c = true → get2 (flagged b) r c = Ok false →
  0 ≤ mines_count b ≤ Z.of_nat (length (outside_block b r c)) →
  ∃ b', reveal b r c rnd = Some (Done b') ∧ ¬ lost b' ∧
        adjacent_mines b' r c = 0 ∧
        get2 (board b') r c = Ok 0 ∧ get2 (revealed b') r c = Ok true ∧
        ∀ q, in_bounds b q.1 q.2 = true → adjacent (r, c) q →
             get2 (flagged b) q.1 q.2 = Ok false →
             get2 (revealed b') q.1 q.2 = Ok true.
Proof.
  intros HI%reachable_Inv Hpl Hin Hf Hfeas. pose proof (inv_shaped b HI) as Hb.
  rewrite <- available_outside_block in Hfeas. fold (feasible b r c) in Hfeas.
  assert (game_over b = false) as Hg.
  { apply (unplaced_in_progress b r c HI Hpl Hin). apply Hfeas. }
  assert (∀ q, in_bounds b q.1 q.2 = true → get2 (revealed b) q.1 q.2 = Ok false)
    as Hclosed.
  { intros q Hq. apply (get2_cell b); [apply Hb|done|].
    apply in_bounds_spec in Hq.
    apply mget_unplaced_revealed; [done..| |]; unfold nrows, ncols; lia. }
  destruct (mines_ready_total b r c rnd (or_intror Hfeas) HI) as [b1 Hb1].
  destruct (mines_ready_spec b r c rnd b1 HI Hb1)
    as (HI1 & Hpl1 & _ & _ & Hr1 & Hc1 & _ & Hrv1 & Hfl1 & Hms).
  rewrite Hpl in Hms. destruct Hms as [_ Hms].
  assert (∀ q, q = (r, c) ∨ q ∈ neighbors b r c → q ∉ mines b1) as Hsafe.
  { intros q Hq. rewrite Hms.
    intros (_ & ? & ?)%elem_of_list_to_set%sample_draws_subseteq%elem_of_available.
    by destruct Hq. }
  assert (pushable b (r, c)) as Hpush by (split; [by apply Hclosed|done]).
  destruct (reveal_spread b r c rnd b1 HI Hg Hin Hpush Hb1)
    as (b' & Hrun & Hnl & Hr' & Hc' & _ & Hbd' & Hmi' & _ & Hopen); [by auto|].
  assert (in_bounds b1 r c = true) as Hin1 by (by rewrite (in_bounds_ext b b1)).
  assert (count_adjacent b1 r c = 0) as Hcount.
  { unfold count_adjacent. rewrite filter_none; [done|]. intros q Hq. apply Hsafe.
    right. by rewrite <- (neighbors_ext b b1). }
  assert (zero_cell b1 (r, c)) as Hzero.
  { unfold zero_cell. simpl. apply (get2_cell b1); [apply HI1|done|].
    apply in_bounds_spec in Hin1.
    destruct (inv_placed b1 HI1 Hpl1) as [_ Hcells].
    rewrite Hcells by (unfold nrows, ncols; lia).
    unfold cell_value. rewrite !Z2Nat.id by lia.
    rewrite decide_False by auto. by rewrite Hcount. }
  assert (spread b1 (r, c) (r, c)) as Hstart.
  { apply spread_start; [done|]. split; simpl; rewrite ?Hrv1, ?Hfl1; [|done].
    by apply (Hclosed (r, c)). }
  exists b'. do 2 (split; [done|]). split.
  { rewrite <- Hcount, count_adjacent_spec. unfold adjacent_mines.
    by rewrite Hmi', Hr', Hc', Hr1, Hc1. }
  split.
  { rewrite Hbd'. apply Hzero. }
  split; [apply (Hopen (r, c)); auto|].
  intros q Hqin Hadj Hfq.
  apply Hopen; [done|]. right.
  apply (spread_step b1 (r, c) (r, c) q); [done..| | |].
  - by rewrite (in_bounds_ext b b1).
  - done.
  - split; rewrite ?Hrv1, ?Hfl1; [by apply Hclosed|done].
Qed.

Lemma first_reveal_opens_witness :
  reachable (after (Board_init 3 3 1) (ToggleFlag 1 1)) ∧
  placed (after (Board_init 3 3 1) (ToggleFlag 1 1)) = false ∧
  in_bounds (after (Board_init 3 3 1) (ToggleFlag 1 1)) 0 0 = true ∧
  get2 (flagged (after (Board_init 3 3 1) (ToggleFlag 1 1))) 0 0 = Ok false ∧
  0 ≤ mines_count (after (Board_init 3 3 1) (ToggleFlag 1 1))
    ≤ Z.of_nat (length (outside_block (after (Board_init 3 3 1) (ToggleFlag 1 1)) 0 0)) ∧
  ∃ b', reveal (after (Board_init 3 3 1) (ToggleFlag 1 1)) 0 0 [4%nat] = Some (Done b') ∧
        ¬ lost b' ∧ adjacent_mines b' 0 0 = 0 ∧
        get2 (board b') 0 0 = Ok 0 ∧ get2 (revealed b') 0 0 = Ok true ∧
        ∀ q, in_bounds (after (Board_init 3 3 1) (ToggleFlag 1 1)) q.1 q.2 = true →
             adjacent (0, 0) q →
             get2 (flagged (after (Board_init 3 3 1) (ToggleFlag 1 1))) q.1 q.2 = Ok false →
             get2 (revealed b') q.1 q.2 = Ok true.
Proof.
  set (b := after (Board_init 3 3 1) (ToggleFlag 1 1)).
  assert (reachable b) as Hreach.
  { unfold b. repeat apply reachable_after. apply reachable_init. }
  assert (placed b = false) as Hpl by (vm_compute; reflexivity).
  assert (in_bounds b 0 0 = true) as Hin by (vm_compute; reflexivity).
  assert (get2 (flagged b) 0 0 = Ok false) as Hf by (vm_compute; reflexivity).
  assert (0 ≤ mines_count b ≤ Z.of_nat (length (outside_block b 0 0))) as Hfeas
    by (vm_compute; split; discriminate).
  do 4 (split; [assumption|]). split; [exact Hfeas|].
  exact (first_reveal_opens b 0 0 [4%nat] Hreach Hpl Hin Hf Hfeas).
Defined.

(** X9.  The reveal of a closed, unflagged cell that holds a positive
    count opens that cell and no other, and changes no flag. *)
Theorem reveal_number_cell b r c rnd v :
  reachable b → game_over b = false → in_bounds b r c = true →
  get2 (revealed b) r c = Ok false → get2 (flagged b) r c = Ok false →
  get2 (board b) r c = Ok v → 0 < v →
  ∃ b', reveal b r c rnd = Some (Done b') ∧ flagged b' = flagged b ∧
        ∀ q, in_bounds b q.1 q.2 = true →
          get2 (revealed b') q.1 q.2 = Ok true ↔
            get2 (revealed b) q.1 q.2 = Ok true ∨ q = (r, c).
Proof.
  intros HI%reachable_Inv Hg Hin Hv Hf Hbd Hpos.
  pose proof (inv_shaped b HI) as Hb.
  pose proof Hin as Hin'%in_bounds_spec.
  apply (get2_cell b) in Hbd; [|apply Hb|done].
  assert (placed b = true) as Hpl.
  { destruct (placed b) eqn:E; [done|].
    destruct (inv_unplaced b HI E) as (Hfresh & _ & _). rewrite Hfresh in Hbd.
    apply mget_fresh in Hbd. lia. }
  destruct (inv_placed b HI Hpl) as [_ Hcells].
  rewrite Hcells in Hbd by (unfold nrows, ncols; lia).
  unfold cell_value in Hbd. rewrite !Z2Nat.id in Hbd by lia.
  destruct (decide ((r, c) ∈ mines b)) as [|Hm]; [unfold MINE in Hbd; simplify_eq; lia|].
  destruct (reveal_spread b r c rnd b HI Hg Hin)
    as (b' & Hrun & _ & _ & _ & Hfl' & _ & _ & _ & Hopen); [done| |done|].
  { unfold mines_ready. by rewrite Hpl. }
  exists b'. do 2 (split; [done|]). intros q Hq. rewrite (Hopen q Hq).
  assert (spread b (r, c) q ↔ q = (r, c)) as ->; [|done].
  split.
  - induction 1 as [? ?|p q' Hsp IH Hz Hn Hpu]; [done|].
    specialize (IH (proj1 (spread_closed b _ _ Hsp))). subst p.
    unfold zero_cell in Hz. simpl in Hz.
    apply (get2_cell b) in Hz; [|apply Hb|done].
    rewrite Hcells in Hz by (unfold nrows, ncols; lia).
    unfold cell_value in Hz. rewrite !Z2Nat.id, decide_False in Hz by (done || lia).
    simplify_eq. lia.
  - intros ->. by apply spread_start.
Qed.

Lemma reveal_number_cell_witness :
  reachable flag_in_region ∧ game_over flag_in_region = false ∧
  in_bounds flag_in_region 0 3 = true ∧
  get2 (revealed flag_in_region) 0 3 = Ok false ∧
  get2 (flagged flag_in_region) 0 3 = Ok false ∧
  get2 (board flag_in_region) 0 3 = Ok 1 ∧ 0 < 1 ∧
  ∃ b', reveal flag_in_region 0 3 [] = Some (Done b') ∧
        flagged b' = flagged flag_in_region ∧
        ∀ q, in_bounds flag_in_region q.1 q.2 = true →
          get2 (revealed b') q.1 q.2 = Ok true ↔
            get2 (revealed flag_in_region) q.1 q.2 = Ok true ∨ q = (0, 3).
Proof.
  assert (reachable flag_in_region) as Hreach.
  { unfold flag_in_region. repeat apply reachable_after. apply reachable_init. }
  assert (game_over flag_in_region = false) as Hg by (vm_compute; reflexivity).
  assert (in_bounds flag_in_region 0 3 = true) as Hin by (vm_compute; reflexivity).
  assert (get2 (revealed flag_in_region) 0 3 = Ok false) as Hv
    by (vm_compute; reflexivity).
  assert (get2 (flagged flag_in_region) 0 3 = Ok false) as Hf
    by (vm_compute; reflexivity).
  assert (get2 (board flag_in_region) 0 3 = Ok 1) as Hbd by (vm_compute; reflexivity).
  assert (0 < 1) as Hpos by reflexivity.
  do 6 (split; [assumption|]). split; [exact Hpos|].
  exact (reveal_number_cell flag_in_region 0 3 [] 1 Hreach Hg Hin Hv Hf Hbd Hpos).
Defined.

(** ** Games played on the grid *)

Lemma played_reachable b : played b → reachable b.
Proof.
  induction 1 as [|b k o _ IH _ Hk]; [apply reachable_init|].
  by apply (reachable_call b k o).
Qed.

Lemma played_after b k :
  played b → in_bounds b (call_cell k).1 (call_cell k).2 = true →
  played (after b k).
Proof.
  intros Hb Hin. unfold after. destruct (perform b k) as [o|] eqn:Hk; [|done].
  by apply (played_call b k o).
Qed.

(** The count of a cell that is not a mine. *)
Lemma board_count b r c :
  Inv b → placed b = true → in_bounds b r c = true →
  get2 (board b) r c =
    Ok (if decide ((r, c) ∈ mines b) then MINE else count_adjacent b r c).
Proof.
  intros HI Hpl Hin. apply (get2_cell b); [apply HI|done|].
  apply in_bounds_spec in Hin. destruct (inv_placed b HI Hpl) as [_ Hcells].
  rewrite Hcells by (unfold nrows, ncols; lia).
  unfold cell_value. by rewrite !Z2Nat.id by lia.
Qed.

Lemma count_adjacent_range b r c : 0 ≤ count_adjacent b r c ≤ 8.
Proof.
  unfold count_adjacent. pose proof (length_neighbors b r c).
  pose proof (length_filter (λ p, p ∈ mines b) (neighbors b r c)). lia.
Qed.

(** No mine lies around a cell whose count is zero. *)
Lemma zero_cell_neighbors b p q :
  Inv b → placed b = true → in_bounds b p.1 p.2 = true →
  zero_cell b p → q ∈ neighbors b p.1 p.2 → q ∉ mines b.
Proof.
  intros HI Hpl Hin Hz Hq Hm. unfold zero_cell in Hz.
  rewrite (board_count b _ _ HI Hpl Hin) in Hz.
  destruct (decide (_ ∈ mines b)); [done|]. injection Hz as Hz.
  unfold count_adjacent in Hz.
  assert (q ∈ filter (λ p, p ∈ mines b) (neighbors b p.1 p.2)) as Hq'.
  { by apply list_elem_of_filter. }
  destruct (filter _ _); [by apply elem_of_nil in Hq'|done].
Qed.

(** A cascade started at a cell that is not a mine reaches no mine. *)
Lemma spread_safe b s q :
  Inv b → placed b = true → s ∉ mines b → spread b s q → q ∉ mines b.
Proof.
  intros HI Hpl Hs. induction 1 as [|p q Hsp _ Hz Hq Hadj _]; [done|].
  apply (zero_cell_neighbors b p q HI Hpl); [|done|by apply elem_of_neighbors_cell].
  apply (spread_closed b s p Hsp).
Qed.

Lemma toggle_flag_fields b r c :
  Inv b →
  rows (state_of (toggle_flag b r c)) = rows b ∧
  cols (state_of (toggle_flag b r c)) = cols b ∧
  mines_count (state_of (toggle_flag b r c)) = mines_count b ∧
  mines (state_of (toggle_flag b r c)) = mines b ∧
  revealed (state_of (toggle_flag b r c)) = revealed b ∧
  board (state_of (toggle_flag b r c)) = board b ∧
  placed (state_of (toggle_flag b r c)) = placed b.
Proof.
  intros HI. pose proof (inv_shaped b HI) as Hb.
  destruct (toggle_flag_outcome b r c HI)
    as [[-> _]|[[-> _]|(i & j & f & Hg & Hp & Hv & Hf & ->)]]; [done..|].
  destruct (check_victory_fields (with_flagged b (mset (flagged b) i j (negb f))))
    as (b' & -> & ? & ? & ? & ? & ? & _ & ? & ?); [|done].
  apply shaped_with_flagged; [done|]. apply mat_shape_mset, Hb.
Qed.

(** While a game played on the grid is not lost, no mine is revealed. *)
Lemma played_no_mine b q :
  played b → ¬ lost b → in_bounds b q.1 q.2 = true → q ∈ mines b →
  get2 (revealed b) q.1 q.2 = Ok false.
Proof.
  intros Hpl. revert q.
  induction Hpl as [nr nc nm|b k o Hpl IH Hin Hk]; intros q Hnl Hq Hm.
  { by apply elem_of_empty in Hm. }
  pose proof (reachable_Inv b (played_reachable b Hpl)) as HI.
  pose proof (inv_shaped b HI) as Hb.
  destruct (game_over b) eqn:Hg.
  { assert (o = Done b) as ->.
    { destruct k; simpl in Hk; unfold reveal, toggle_flag in Hk; rewrite Hg in Hk;
        by injection Hk as <-. }
    by apply IH. }
  assert (¬ lost b) as Hnlb by (intros [? _]; congruence).
  destruct k as [r c rnd|r c]; simpl in Hk, Hin.
  - destruct (reveal_outcome b r c rnd o HI Hk)
      as [[-> _]|[[-> _]|(i & j & _ & Hp & Hf & Hv & H)]]; [by apply IH..|].
    destruct H as [[-> _]|(b1 & Hb1 & H)]; [by apply IH|].
    destruct (mines_ready_spec b r c rnd b1 HI Hb1)
      as (HI1 & Hpl1 & _ & _ & Hr1 & Hc1 & _ & Hrv1 & Hfl1 & Hms).
    destruct H as [[_ ->]|(Hsafe & _)].
    { destruct Hnl. done. }
    rewrite (position_in_bounds b (r, c) Hin) in Hp. injection Hp as <- <-.
    destruct (reveal_spread b r c rnd b1 HI Hg Hin)
      as (b' & Hrun & _ & Hr' & Hc' & _ & _ & Hmi' & _ & Hopen); [|done..|].
    { split; simpl; by apply (get2_cell b); try apply Hb. }
    rewrite Hrun in Hk. injection Hk as <-. simpl in *.
    rewrite (in_bounds_ext b b') in Hq by done. rewrite Hmi' in Hm.
    pose proof (perform_Inv b (Reveal r c rnd) _ HI Hrun) as HI'. simpl in HI'.
    destruct (get2_in_bounds b' (revealed b') q.1 q.2) as ([] & _ & Hx);
      [apply HI'|by rewrite (in_bounds_ext b b')| |done].
    apply (Hopen q Hq) in Hx as [Hx|Hx].
    + destruct (placed b) eqn:Hplb.
      * subst b1. rewrite (IH q Hnlb Hq Hm) in Hx. done.
      * pose proof (mget_unplaced_revealed b (Z.to_nat q.1) (Z.to_nat q.2) HI Hplb) as H.
        apply in_bounds_spec in Hq.
        apply (get2_cell b) in Hx; [|apply Hb|by apply in_bounds_spec].
        rewrite H in Hx by (unfold nrows, ncols; lia). done.
    + destruct (spread_safe b1 (r, c) q HI1 Hpl1 Hsafe Hx Hm).
  - injection Hk as <-.
    destruct (toggle_flag_fields b r c HI) as (Hr' & Hc' & _ & Hmi' & Hrv' & _).
    rewrite Hrv'. rewrite Hmi' in Hm. rewrite (in_bounds_ext b) in Hq by done.
    by apply IH.
Qed.

(** X10.  In a game played on the grid no mine is ever shown before the
    game is lost: a cascade opens no mine, and neither does a win. *)
Theorem no_mine_shown b r c :
  played b → ¬ lost b → in_bounds b r c = true → (r, c) ∈ mines b →
  get2 (revealed b) r c = Ok false.
Proof. intros. by apply (played_no_mine b (r, c)). Qed.

Lemma no_mine_shown_witness :
  played two_opened ∧ ¬ lost two_opened ∧ in_bounds two_opened 0 4 = true ∧
  (0, 4) ∈ mines two_opened ∧ get2 (revealed two_opened) 0 4 = Ok false.
Proof.
  assert (played two_opened) as Hpl.
  { unfold two_opened. repeat apply played_after; try (vm_compute; reflexivity).
    apply played_init. }
  assert (¬ lost two_opened) as Hnl by (vm_compute; intros [H _]; discriminate H).
  assert (in_bounds two_opened 0 4 = true) as Hin by (vm_compute; reflexivity).
  assert ((0, 4) ∈ mines two_opened) as Hm by (vm_compute; tauto).
  do 4 (split; [assumption|]).
  exact (no_mine_shown two_opened 0 4 Hpl Hnl Hin Hm).
Defined.

(** ** Counting cells *)

Lemma filter_length_le {A} (P Q : A → Prop)
    `{∀ x, Decision (P x)} `{∀ x, Decision (Q x)} (l : list A) :
  (∀ x, x ∈ l → P x → Q x) → (length (filter P l) ≤ length (filter Q l))%nat.
Proof.
  induction l as [|x l IH]; intros HPQ; [done|].
  rewrite !filter_cons.
  assert (length (filter P l) ≤ length (filter Q l))%nat as Hle.
  { apply IH. intros y Hy. apply HPQ. by right. }
  destruct (decide (P x)) as [HP|HP]; destruct (decide (Q x)) as [HQ|HQ]; simpl; try lia.
  destruct HQ. apply HPQ; [by left|done].
Qed.

(** Two selections of one list, one inside the other and of the same
    length, select the same elements. *)
Lemma filter_length_eq {A} (P Q : A → Prop)
    `{∀ x, Decision (P x)} `{∀ x, Decision (Q x)} (l : list A) :
  (∀ x, x ∈ l → P x → Q x) →
  length (filter P l) = length (filter Q l) →
  ∀ x, x ∈ l → Q x → P x.
Proof.
  induction l as [|x l IH]; intros HPQ Hlen y Hy HQy; [by apply elem_of_nil in Hy|].
  rewrite !filter_cons in Hlen.
  assert (∀ x, x ∈ l → P x → Q x) as HPQ' by (intros z Hz; apply HPQ; by right).
  pose proof (filter_length_le P Q l HPQ') as Hle.
  destruct (decide (P x)) as [HP|HP]; destruct (decide (Q x)) as [HQ|HQ];
    simpl in Hlen; try lia.
  - apply elem_of_cons in Hy as [->|Hy]; [done|]. apply IH; [done|lia|done..].
  - destruct HQ. apply HPQ; [by left|done].
  - apply elem_of_cons in Hy as [->|Hy]; [done|]. apply IH; [done|lia|done..].
Qed.

Lemma filter_length_not {A} (P : A → Prop) `{∀ x, Decision (P x)} (l : list A) :
  (length (filter P l) + length (filter (λ x, ¬ P x) l) = length l)%nat.
Proof.
  induction l as [|x l IH]; [done|]. rewrite !filter_cons.
  destruct (decide (P x)); destruct (decide (¬ P x)); simpl; try lia; tauto.
Qed.

(** The number of mines among the cells of the grid. *)
Lemma mines_on_grid b :
  Inv b → placed b = true →
  Z.of_nat (length (filter (λ p, p ∈ mines b) (grid_cells (rows b) (cols b))))
    = mines_count b.
Proof.
  intros HI Hpl. destruct (inv_placed b HI Hpl) as [<- _]. f_equal.
  transitivity (length (filter (λ p, p ∈ (list_to_set (elements (mines b)) : gset (Z * Z)))
                               (grid_cells (rows b) (cols b)))).
  { by rewrite list_to_set_elements_L. }
  rewrite mines_in_grid; [done|apply NoDup_elements|].
  intros p Hp%elem_of_elements. by apply in_bounds_spec, (inv_mines b HI).
Qed.

(** X11.  A game played on the grid and won, with its mines placed, shows
    every cell that is not a mine and no mine. *)
Theorem won_board b r c :
  played b → placed b = true → victory b = true → in_bounds b r c = true →
  get2 (revealed b) r c = Ok true ↔ (r, c) ∉ mines b.
Proof.
  intros Hpl Hplaced Hvic Hin.
  pose proof (reachable_Inv b (played_reachable b Hpl)) as HI.
  assert (¬ lost b) as Hnl by (intros [_ ?]; congruence).
  assert (∀ p, p ∈ grid_cells (rows b) (cols b) →
            get2 (revealed b) p.1 p.2 = Ok true → p ∉ mines b) as Hsub.
  { intros [pr pc] Hp%elem_of_grid_cells%in_bounds_spec Hv Hm.
    rewrite (played_no_mine b (pr, pc) Hpl Hnl Hp Hm) in Hv. done. }
  assert ((r, c) ∈ grid_cells (rows b) (cols b)) as Hgrid.
  { by apply elem_of_grid_cells, in_bounds_spec. }
  split; [by apply (Hsub (r, c))|].
  apply (filter_length_eq (λ p, get2 (revealed b) p.1 p.2 = Ok true)
           (λ p, p ∉ mines b) _ Hsub); [|done].
  destruct (inv_victory b HI Hvic) as [_ Hcount].
  unfold revealed_count, safe_cells in Hcount.
  pose proof (mines_on_grid b HI Hplaced) as Hmines.
  pose proof (filter_length_not (λ p, p ∈ mines b) (grid_cells (rows b) (cols b))) as Hsplit.
  rewrite length_grid_cells in Hsplit. apply in_bounds_spec in Hin. nia.
Qed.

Lemma won_board_witness :
  played (after (Board_init 1 3 1) (Reveal 0 2 [0%nat])) ∧
  placed (after (Board_init 1 3 1) (Reveal 0 2 [0%nat])) = true ∧
  victory (after (Board_init 1 3 1) (Reveal 0 2 [0%nat])) = true ∧
  in_bounds (after (Board_init 1 3 1) (Reveal 0 2 [0%nat])) 0 1 = true ∧
  (get2 (revealed (after (Board_init 1 3 1) (Reveal 0 2 [0%nat]))) 0 1 = Ok true ↔
     (0, 1) ∉ mines (after (Board_init 1 3 1) (Reveal 0 2 [0%nat]))).
Proof.
  set (b := after (Board_init 1 3 1) (Reveal 0 2 [0%nat])).
  assert (played b) as Hpl.
  { unfold b. apply played_after; [apply played_init|vm_compute; reflexivity]. }
  assert (placed b = true) as Hplaced by (vm_compute; reflexivity).
  assert (victory b = true) as Hvic by (vm_compute; reflexivity).
  assert (in_bounds b 0 1 = true) as Hin by (vm_compute; reflexivity).
  do 4 (split; [assumption|]).
  exact (won_board b 0 1 Hpl Hplaced Hvic Hin).
Defined.

(** * The classifier *)

Lemma mapM_Ok {A B} (f : A → pyres B) (g : A → B) (l : list A) :
  (∀ x, x ∈ l → f x = Ok (g x)) → mapM f l = Ok (g <$> l).
Proof.
  induction l as [|x l IH]; intros Hf; [done|]. simpl.
  rewrite (Hf x) by (by left). simpl. rewrite IH; [done|].
  intros y Hy. apply Hf. by right.
Qed.

Lemma mapM_Raise {A B} (f : A → pyres B) (l1 l2 : list A) x e :
  (∀ y, y ∈ l1 → ∃ z, f y = Ok z) → f x = Raise e →
  mapM f (l1 ++ x :: l2) = Raise e.
Proof.
  intros Hl1 Hx. induction l1 as [|y l1 IH]; simpl.
  - by rewrite Hx.
  - destruct (Hl1 y) as [z ->]; [by left|]. simpl. rewrite IH; [done|].
    intros y' Hy'. apply Hl1. by right.
Qed.

Lemma mapM_total {A B} (f : A → pyres B) (l : list A) :
  (∀ y, y ∈ l → ∃ z, f y = Ok z) → ∃ zs, mapM f l = Ok zs.
Proof.
  intros Hl. induction l as [|y l IH]; simpl; [by eexists|].
  destruct (Hl y) as [z ->]; [by left|]. simpl.
  destruct IH as [zs ->]; [|by eexists]. intros y' Hy'. apply Hl. by right.
Qed.

Lemma range_split k n : 0 ≤ k < n → ∃ rest, range n = range k ++ k :: rest.
Proof.
  intros Hk. unfold range.
  replace (Z.to_nat n) with (Z.to_nat k + S (Z.to_nat n - Z.to_nat k - 1))%nat by lia.
  rewrite seq_app, fmap_app. simpl. rewrite Z2Nat.id by lia. by eexists.
Qed.

Lemma lookup_range n i : (i < Z.to_nat n)%nat → range n !! i = Some (Z.of_nat i).
Proof.
  intros Hi. unfold range. rewrite list_lookup_fmap, lookup_seq_lt by done. done.
Qed.

Lemma length_range n : length (range n) = Z.to_nat n.
Proof. unfold range. by rewrite length_fmap, length_seq. Qed.

Lemma mat_shape_view_of b : mat_shape (nrows b) (ncols b) (view_of b).
Proof.
  unfold view_of. split; [by rewrite length_fmap, length_range|].
  apply Forall_fmap, Forall_forall. intros r _. simpl.
  by rewrite length_fmap, length_range.
Qed.

Lemma get2_view_of b r c :
  in_bounds b r c = true → get2 (view_of b) r c = Ok (shown b (r, c)).
Proof.
  intros Hin. apply (get2_cell b); [apply mat_shape_view_of|done|].
  apply in_bounds_spec in Hin. unfold mget, view_of.
  rewrite list_lookup_fmap, lookup_range by lia. simpl.
  rewrite list_lookup_fmap, lookup_range by lia. simpl.
  by rewrite !Z2Nat.id by lia.
Qed.

(** The values of a board are short enough for [str]. *)
Lemma py_str_small v : -1 ≤ v ≤ 8 → py_str v = Ok (numeral v).
Proof.
  intros Hv.
  assert (v = -1 ∨ v = 0 ∨ v = 1 ∨ v = 2 ∨ v = 3 ∨ v = 4 ∨ v = 5 ∨ v = 6 ∨
          v = 7 ∨ v = 8) as H by lia.
  repeat (destruct H as [->|H]); try subst v; vm_compute; reflexivity.
Qed.

Lemma classify_cell_spec b r c :
  Inv b → in_bounds b r c = true → classify_cell b r c = Ok (shown b (r, c)).
Proof.
  intros HI Hin. pose proof (inv_shaped b HI) as (Hrv & Hfl & Hbd).
  unfold classify_cell, shown. cbn [fst snd].
  destruct (get2_in_bounds b (flagged b) r c Hfl Hin) as (f & _ & ->).
  destruct (get2_in_bounds b (revealed b) r c Hrv Hin) as (v & Hv & ->).
  cbn [mbind pyres_bind].
  destruct f; [by destruct (decide (Ok true = Ok true))|].
  destruct (decide (Ok false = Ok true)) as [|_]; [done|].
  destruct v; cbn [negb]; [|by destruct (decide (Ok false = Ok true))].
  destruct (decide (Ok true = Ok true)) as [_|]; [|done].
  assert (placed b = true) as Hpl.
  { destruct (placed b) eqn:E; [done|]. apply in_bounds_spec in Hin.
    rewrite (mget_unplaced_revealed b _ _ HI E) in Hv
      by (unfold nrows, ncols; lia). done. }
  rewrite (board_count b r c HI Hpl Hin). cbn [mbind pyres_bind].
  destruct (decide ((r, c) ∈ mines b)).
  - by rewrite bool_decide_eq_true_2.
  - pose proof (count_adjacent_range b r c).
    rewrite bool_decide_eq_false_2 by (unfold MINE; lia).
    rewrite py_str_small by lia. by rewrite count_adjacent_spec.
Qed.

Lemma get_solver_board_spec b :
  Inv b → get_solver_board (rows b) (cols b) b = Ok (view_of b).
Proof.
  intros HI. unfold get_solver_board, view_of.
  apply mapM_Ok. intros r Hr%elem_of_range.
  apply (mapM_Ok _ (λ c, shown b (r, c))). intros c Hc%elem_of_range.
  apply classify_cell_spec; [done|]. by apply in_bounds_spec.
Qed.

Lemma mat_shape_view_over nr nc b :
  mat_shape (Z.to_nat nr) (Z.to_nat nc) (view_over nr nc b).
Proof.
  unfold view_over. split; [by rewrite length_fmap, length_range|].
  apply Forall_fmap, Forall_forall. intros r _. simpl.
  by rewrite length_fmap, length_range.
Qed.

Lemma get2_view_over nr nc b r c :
  0 ≤ r < nr → 0 ≤ c < nc → get2 (view_over nr nc b) r c = Ok (shown b (r, c)).
Proof.
  intros Hr Hc. apply (get2_cell (Board_init nr nc 0)).
  - apply mat_shape_view_over.
  - apply in_bounds_spec. simpl. lia.
  - unfold mget, view_over.
    rewrite list_lookup_fmap, lookup_range by lia. simpl.
    rewrite list_lookup_fmap, lookup_range by lia. simpl.
    by rewrite !Z2Nat.id by lia.
Qed.

Lemma classify_cell_outside b r c :
  Inv b → 0 ≤ r → 0 ≤ c → ¬ (r < rows b ∧ c < cols b) →
  classify_cell b r c = Raise IndexError.
Proof.
  intros HI Hr Hc Hout. pose proof (inv_shaped b HI) as (_ & Hfl & _).
  unfold classify_cell. rewrite (position_None_get2 b (flagged b)); [done..|].
  apply position_outside. lia.
Qed.

(** The classifier over [nr] rows and [nc] columns of a board: the view
    of these cells if all of them are cells of the board, and an
    [IndexError] at the first one that is not. *)
Lemma get_solver_board_cases nr nc b :
  Inv b →
  get_solver_board nr nc b =
    if decide (nr ≤ 0 ∨ nc ≤ 0 ∨ (nr ≤ rows b ∧ nc ≤ cols b))
    then Ok (view_over nr nc b) else Raise IndexError.
Proof.
  intros HI. unfold get_solver_board.
  destruct (decide _) as [Hok|Hno].
  - apply mapM_Ok. intros r Hr%elem_of_range.
    apply (mapM_Ok _ (λ c, shown b (r, c))). intros c Hc%elem_of_range.
    apply classify_cell_spec; [done|]. apply in_bounds_spec. lia.
  - destruct (decide (nc ≤ cols b)) as [Hc|Hc].
    + (* the first row below the board *)
      destruct (range_split (Z.max 0 (rows b)) nr) as [rest ->]; [lia|].
      apply mapM_Raise.
      * intros r Hr%elem_of_range. apply mapM_total. intros c Hc'%elem_of_range.
        eexists. apply classify_cell_spec; [done|]. apply in_bounds_spec. lia.
      * destruct (range_split 0 nc) as [rest' ->]; [lia|].
        apply (mapM_Raise _ []); [by intros y []%elem_of_nil|].
        apply classify_cell_outside; [done|lia..].
    + (* the first column beside the board, in the first row *)
      destruct (range_split 0 nr) as [rest ->]; [lia|].
      apply (mapM_Raise _ []); [by intros y []%elem_of_nil|].
      destruct (decide (0 < rows b)) as [Hr|Hr].
      * destruct (range_split (Z.max 0 (cols b)) nc) as [rest' ->]; [lia|].
        apply mapM_Raise.
        -- intros c Hc'%elem_of_range. eexists.
           apply classify_cell_spec; [done|]. apply in_bounds_spec. lia.
        -- apply classify_cell_outside; [done|lia..].
      * destruct (range_split 0 nc) as [rest' ->]; [lia|].
        apply (mapM_Raise _ []); [by intros y []%elem_of_nil|].
        apply classify_cell_outside; [done|lia..].
Qed.

Lemma get_solver_board_Ok nr nc b view :
  Inv b → get_solver_board nr nc b = Ok view →
  view = view_over nr nc b ∧
  ∀ r c, 0 ≤ r < nr → 0 ≤ c < nc → in_bounds b r c = true.
Proof.
  intros HI Hview. rewrite (get_solver_board_cases nr nc b HI) in Hview.
  destruct (decide _) as [Hok|]; [|done]. injection Hview as <-. split; [done|].
  intros r c Hr Hc. apply in_bounds_spec. lia.
Qed.

(** X12.  On a reachable board the classifier of a window with [nr]
    rows and [nc] columns returns a view exactly when it has no cell to
    visit ([nr] or [nc] is not positive) or every cell it visits is a cell
    of the board ([nr] and [nc] do not exceed the sizes of the board);
    otherwise it raises [IndexError].  The view has [nr] rows of [nc]
    symbols, and the symbol of a cell is the flag for a flagged cell, the
    unseen mark for a closed one, and for an open one its mine or the
    decimal numeral of the number of mines around it. *)
Theorem classifier_view w :
  reachable (GUI.w_board w) →
  if decide (GUI.w_rows w ≤ 0 ∨ GUI.w_cols w ≤ 0 ∨
             (GUI.w_rows w ≤ rows (GUI.w_board w) ∧
              GUI.w_cols w ≤ cols (GUI.w_board w)))
  then
    ∃ view, GUI.get_solver_board w = Ok view ∧
            length view = Z.to_nat (GUI.w_rows w) ∧
            Forall (λ row, length row = Z.to_nat (GUI.w_cols w)) view ∧
            ∀ r c, 0 ≤ r < GUI.w_rows w → 0 ≤ c < GUI.w_cols w →
                   get2 view r c = Ok (shown (GUI.w_board w) (r, c))
  else GUI.get_solver_board w = Raise IndexError.
Proof.
  intros HI%reachable_Inv. unfold GUI.get_solver_board.
  rewrite (get_solver_board_cases _ _ _ HI).
  destruct (decide _) as [Hok|Hno]; [|done].
  exists (view_over (GUI.w_rows w) (GUI.w_cols w) (GUI.w_board w)).
  split; [done|].
  destruct (mat_shape_view_over (GUI.w_rows w) (GUI.w_cols w) (GUI.w_board w))
    as [Hl Hf].
  do 2 (split; [done|]). intros r c. apply get2_view_over.
Qed.

Lemma classifier_view_witness :
  reachable lost_right ∧
  ∃ view, GUI.get_solver_board (GUI.mkWindow 1 3 1 lost_right [] []) = Ok view ∧
          length view = 1%nat ∧ Forall (λ row, length row = 3%nat) view ∧
          ∀ r c, 0 ≤ r < 1 → 0 ≤ c < 3 →
                 get2 view r c = Ok (shown lost_right (r, c)).
Proof.
  assert (reachable lost_right) as Hreach.
  { unfold lost_right, two_opened. repeat apply reachable_after. apply reachable_init. }
  split; [exact Hreach|].
  pose proof (classifier_view (GUI.mkWindow 1 3 1 lost_right [] []) Hreach) as H.
  rewrite decide_True in H; [exact H|].
  right. right. vm_compute. split; discriminate.
Defined.

(** * The solver on the views of the classifier *)

Lemma elem_of_range2 lo hi x : x ∈ range2 lo hi ↔ lo ≤ x < hi.
Proof.
  unfold range2. rewrite list_elem_of_fmap. split.
  - intros (k & -> & Hk%elem_of_seq). lia.
  - intros H. exists (Z.to_nat (x - lo)). split; [lia|]. apply elem_of_seq. lia.
Qed.

Lemma NoDup_range2 lo hi : NoDup (range2 lo hi).
Proof.
  unfold range2. apply NoDup_fmap_2; [|apply NoDup_seq]. intros x y. lia.
Qed.

Lemma elem_of_window t k p :
  p ∈ AutoPlay.window t k ↔ t - 1 ≤ p.1 ≤ t + 1 ∧ k - 1 ≤ p.2 ≤ k + 1.
Proof.
  destruct p as [i j]. unfold AutoPlay.window. rewrite list_elem_of_bind. simpl. split.
  - intros (i' & (j' & [= -> ->] & Hj%elem_of_range2)%list_elem_of_fmap & Hi%elem_of_range2).
    lia.
  - intros [Hi Hj]. exists i. split; [|apply elem_of_range2; lia].
    apply list_elem_of_fmap. exists j. split; [done|]. apply elem_of_range2. lia.
Qed.

Lemma NoDup_window t k : NoDup (AutoPlay.window t k).
Proof.
  unfold AutoPlay.window. apply NoDup_bind.
  - intros i1 i2 p _ _ (j1 & -> & _)%list_elem_of_fmap (j2 & [= ? _] & _)%list_elem_of_fmap.
    done.
  - intros i _. apply NoDup_fmap_2; [|apply NoDup_range2]. by intros x y [= ->].
  - apply NoDup_range2.
Qed.

(** [check] on a view of the right shape, case by case. *)
Lemma check_cases view m n t k :
  mat_shape (Z.to_nat m) (Z.to_nat n) view →
  AutoPlay.check view t k m n =
    match get2 view t k with
    | Raise e => Raise e
    | Ok s =>
        if decide (s = AutoPlay.UNSEEN ∨ s = AutoPlay.FLAGGED) then Ok None
        else match py_int s with
             | Raise e => Raise e
             | Ok N => Ok (deduction view m n t k N)
             end
    end.
Proof.
  intros Hv. destruct (get2 view t k) as [s|e] eqn:Hs.
  2:{ unfold AutoPlay.check. by rewrite Hs. }
  destruct (decide (s = AutoPlay.UNSEEN ∨ s = AutoPlay.FLAGGED)) as [Hsk|Hsk].
  { by apply (check_skip view m n t k s). }
  destruct (py_int s) as [N|e] eqn:HN.
  - apply (check_count view m n t k s N); tauto.
  - unfold AutoPlay.check. rewrite Hs. simpl.
    rewrite bool_decide_eq_false_2 by done. by rewrite HN.
Qed.

Lemma deduction_Some view m n t k N a U :
  deduction view m n t k N = Some (a, U) →
  U = unseen_around view m n t k ∧ U ≠ [] ∧
  ((a = AutoPlay.REVEAL ∧ flagged_around view m n t k = N) ∨
   (a = AutoPlay.FLAG ∧ N - flagged_around view m n t k = Z.of_nat (length U))).
Proof.
  unfold deduction. repeat case_decide; intros [= <- <-]; auto.
Qed.

(** A move returned by [check] is a deduction at a cell that shows a
    number. *)
Lemma check_Some view m n t k mv :
  mat_shape (Z.to_nat m) (Z.to_nat n) view →
  AutoPlay.check view t k m n = Ok (Some mv) →
  ∃ s N, get2 view t k = Ok s ∧ s ≠ AutoPlay.UNSEEN ∧ s ≠ AutoPlay.FLAGGED ∧
         py_int s = Ok N ∧ deduction view m n t k N = Some mv.
Proof.
  intros Hv. rewrite (check_cases view m n t k Hv).
  destruct (get2 view t k) as [s|e]; [|done].
  destruct (decide _) as [|Hsk]; [done|].
  destruct (py_int s) as [N|e] eqn:HN; [|done]. intros [= Hd].
  exists s, N. split; [done|]. split; [intros ->; apply Hsk; auto|].
  split; [intros ->; apply Hsk; auto|]. done.
Qed.

Lemma elem_of_unseen_around view m n t k p :
  p ∈ unseen_around view m n t k ↔
    p ∈ AutoPlay.window t k ∧ in_view m n p ∧
    get2 view p.1 p.2 = Ok AutoPlay.UNSEEN.
Proof. unfold unseen_around. by rewrite list_elem_of_filter; tauto. Qed.

(** Where the move of a scan comes from: a deduction at one of the cells,
    or the remembered unseen cell. *)
Lemma scan_move view m n ps d mv :
  mat_shape (Z.to_nat m) (Z.to_nat n) view →
  AutoPlay.scan view m n ps d = Ok mv →
  (∃ t k s N, (t, k) ∈ ps ∧ get2 view t k = Ok s ∧
              s ≠ AutoPlay.UNSEEN ∧ s ≠ AutoPlay.FLAGGED ∧ py_int s = Ok N ∧
              deduction view m n t k N = Some mv) ∨
  (∃ p, mv = (AutoPlay.REVEAL, [p]) ∧ p ≠ (-1, -1) ∧
        (p = d ∨ (p ∈ ps ∧ get2 view p.1 p.2 = Ok AutoPlay.UNSEEN))).
Proof.
  intros Hv. revert d. induction ps as [|[i j] ps IH]; intros d; simpl.
  { case_bool_decide; [done|]. intros [= <-]. right. exists d. auto. }
  destruct (AutoPlay.check view i j m n) as [res|e] eqn:Hc; [|done]. simpl.
  destruct (get2 view i j) as [s|e] eqn:Hs; [|done]. simpl.
  destruct res as [mv'|].
  - intros [= ->]. left.
    destruct (check_Some view m n i j mv Hv Hc) as (s' & N & Hs' & ? & ? & ? & ?).
    exists i, j, s', N. split; [by left|done].
  - intros [H|H]%IH.
    + left. destruct H as (t & k & s' & N & Hin & H). exists t, k, s', N.
      split; [by right|done].
    + right. destruct H as (p & -> & Hne & H). exists p. do 2 (split; [done|]).
      destruct H as [->|[Hin Hp]].
      * case_bool_decide as Hu; [|by left]. right. split; [by left|]. simpl. by subst.
      * right. split; [by right|done].
Qed.

(** The moves of [solution]. *)
Lemma solution_move view m n a U :
  mat_shape (Z.to_nat m) (Z.to_nat n) view →
  AutoPlay.solution view m n = Ok (a, U) →
  (a = AutoPlay.REVEAL ∨ a = AutoPlay.FLAG) ∧ U ≠ [] ∧ NoDup U ∧
  ∀ p, p ∈ U → in_view m n p ∧ get2 view p.1 p.2 = Ok AutoPlay.UNSEEN.
Proof.
  intros Hv Hrun. unfold AutoPlay.solution in Hrun.
  destruct (scan_move view m n _ _ _ Hv Hrun)
    as [(t & k & s & N & _ & _ & _ & _ & _ & Hd)|(p & [= -> ->] & Hne & H)].
  - apply deduction_Some in Hd as (-> & Hne & Ha).
    split; [destruct Ha as [[-> _]|[-> _]]; auto|]. split; [done|].
    split; [apply NoDup_filter, NoDup_window|].
    intros p Hp%elem_of_unseen_around. tauto.
  - split; [by left|]. split; [done|]. split; [apply NoDup_singleton|].
    intros q ->%list_elem_of_singleton.
    destruct H as [->|[Hin Hp]]; [done|]. split; [|done].
    destruct p as [i j]. by apply elem_of_grid_cells in Hin.
Qed.

(** X13.  Whatever the view (of the stated shape), a move that
    [solution] returns is well formed: its action is reveal or flag, and
    its cells are a non-empty list, without repetition, of cells of the
    view that show Unseen.  A view without unseen cells gets no move. *)
Theorem solution_well_formed view m n a U :
  mat_shape (Z.to_nat m) (Z.to_nat n) view →
  AutoPlay.solution view m n = Ok (a, U) →
  (a = AutoPlay.REVEAL ∨ a = AutoPlay.FLAG) ∧ U ≠ [] ∧ NoDup U ∧
  ∀ p, p ∈ U → in_view m n p ∧ get2 view p.1 p.2 = Ok AutoPlay.UNSEEN.
Proof. apply solution_move. Qed.

Lemma solution_well_formed_witness :
  mat_shape (Z.to_nat 1) (Z.to_nat 5) [["#"; "F"; "0"; "1"; "#"]] ∧
  AutoPlay.solution [["#"; "F"; "0"; "1"; "#"]] 1 5 = Ok (AutoPlay.FLAG, [(0, 4)]) ∧
  in_view 1 5 (0, 4).
Proof.
  assert (mat_shape (Z.to_nat 1) (Z.to_nat 5) [["#"; "F"; "0"; "1"; "#"]]) as Hv.
  { split; [reflexivity|]. by repeat constructor. }
  assert (AutoPlay.solution [["#"; "F"; "0"; "1"; "#"]] 1 5
            = Ok (AutoPlay.FLAG, [(0, 4)])) as Hrun by (vm_compute; reflexivity).
  split; [exact Hv|]. split; [exact Hrun|].
  destruct (solution_well_formed _ 1 5 _ _ Hv Hrun) as (_ & _ & _ & H).
  apply (H (0, 4)). by left.
Defined.

(** ** The views of games played on the grid *)

(** The numerals that the classifier writes are read back by [int]. *)
Lemma py_str_count v :
  0 ≤ v ≤ 8 →
  py_int (numeral v) = Ok v ∧ numeral v ≠ AutoPlay.UNSEEN ∧
  numeral v ≠ AutoPlay.FLAGGED ∧ numeral v ≠ BOMB.
Proof.
  intros Hv.
  assert (v = 0 ∨ v = 1 ∨ v = 2 ∨ v = 3 ∨ v = 4 ∨ v = 5 ∨ v = 6 ∨ v = 7 ∨ v = 8)
    as H by lia.
  repeat (destruct H as [->|H]); try subst v; vm_compute; repeat split; discriminate.
Qed.

Lemma adjacent_mines_range b r c : 0 ≤ adjacent_mines b r c ≤ 8.
Proof. rewrite <- count_adjacent_spec. apply count_adjacent_range. Qed.

(** Reading the symbol of a cell. *)
Lemma shown_cases b p :
  Inv b → in_bounds b p.1 p.2 = true →
  (shown b p = AutoPlay.FLAGGED ∧ get2 (flagged b) p.1 p.2 = Ok true) ∨
  (shown b p = AutoPlay.UNSEEN ∧ get2 (flagged b) p.1 p.2 = Ok false ∧
   get2 (revealed b) p.1 p.2 = Ok false) ∨
  (shown b p = BOMB ∧ get2 (flagged b) p.1 p.2 = Ok false ∧
   get2 (revealed b) p.1 p.2 = Ok true ∧ p ∈ mines b) ∨
  (shown b p = numeral (adjacent_mines b p.1 p.2) ∧
   get2 (flagged b) p.1 p.2 = Ok false ∧
   get2 (revealed b) p.1 p.2 = Ok true ∧ p ∉ mines b).
Proof.
  intros HI Hin. pose proof (inv_shaped b HI) as (Hrv & Hfl & _).
  destruct (get2_in_bounds b (flagged b) p.1 p.2 Hfl Hin) as (f & _ & Hf).
  destruct (get2_in_bounds b (revealed b) p.1 p.2 Hrv Hin) as (v & _ & Hv).
  unfold shown. rewrite Hf, Hv.
  destruct f; [left; by destruct (decide (Ok true = Ok true))|].
  destruct (decide (Ok false = Ok true)) as [|_]; [done|]. right.
  destruct v; [|left; by destruct (decide (Ok false = Ok true))].
  destruct (decide (Ok true = Ok true)) as [_|]; [|done]. right.
  destruct (decide (p ∈ mines b)); [left|right]; done.
Qed.

(** A symbol tells the state of its cell. *)
Lemma shown_unseen b p :
  Inv b → in_bounds b p.1 p.2 = true →
  shown b p = AutoPlay.UNSEEN ↔
    get2 (flagged b) p.1 p.2 = Ok false ∧ get2 (revealed b) p.1 p.2 = Ok false.
Proof.
  intros HI Hin.
  destruct (py_str_count _ (adjacent_mines_range b p.1 p.2)) as (_ & ? & _).
  destruct (shown_cases b p HI Hin)
    as [[Hs ?]|[(Hs & ? & ?)|[(Hs & ? & ? & ?)|(Hs & ? & ? & ?)]]];
    rewrite Hs; split; try done; try congruence; intros [? ?]; congruence.
Qed.

Lemma shown_flagged b p :
  Inv b → in_bounds b p.1 p.2 = true →
  shown b p = AutoPlay.FLAGGED ↔ get2 (flagged b) p.1 p.2 = Ok true.
Proof.
  intros HI Hin.
  destruct (py_str_count _ (adjacent_mines_range b p.1 p.2)) as (_ & _ & ? & _).
  destruct (shown_cases b p HI Hin)
    as [[Hs ?]|[(Hs & ? & ?)|[(Hs & ? & ? & ?)|(Hs & ? & ? & ?)]]];
    rewrite Hs; split; try done; congruence.
Qed.

(** In a game played on the grid and not lost every symbol is Unseen,
    Flagged, or a numeral that [int] reads as the number of mines around
    the cell. *)
Lemma played_symbol b p :
  played b → ¬ lost b → in_bounds b p.1 p.2 = true →
  shown b p = AutoPlay.UNSEEN ∨ shown b p = AutoPlay.FLAGGED ∨
  (shown b p ≠ AutoPlay.UNSEEN ∧ shown b p ≠ AutoPlay.FLAGGED ∧
   py_int (shown b p) = Ok (adjacent_mines b p.1 p.2) ∧
   get2 (flagged b) p.1 p.2 = Ok false ∧ get2 (revealed b) p.1 p.2 = Ok true ∧
   p ∉ mines b).
Proof.
  intros Hpl Hnl Hin.
  pose proof (reachable_Inv b (played_reachable b Hpl)) as HI.
  destruct (py_str_count _ (adjacent_mines_range b p.1 p.2)) as (? & ? & ? & _).
  destruct (shown_cases b p HI Hin)
    as [[Hs ?]|[(Hs & ? & ?)|[(Hs & ? & Hv & Hm)|(Hs & ? & ? & ?)]]]; auto.
  - rewrite (played_no_mine b p Hpl Hnl Hin Hm) in Hv. done.
  - right. right. rewrite Hs. done.
Qed.

(** A scan whose cells all show Unseen, Flagged or a numeral ends with a
    move or with the no-moves exception. *)
Lemma scan_total view m n ps d :
  mat_shape (Z.to_nat m) (Z.to_nat n) view →
  (∀ p, p ∈ ps → ∃ s, get2 view p.1 p.2 = Ok s ∧
        (s = AutoPlay.UNSEEN ∨ s = AutoPlay.FLAGGED ∨ ∃ N, py_int s = Ok N)) →
  (∃ mv, AutoPlay.scan view m n ps d = Ok mv) ∨
  AutoPlay.scan view m n ps d = Raise NoUnseenLeft.
Proof.
  intros Hv. revert d. induction ps as [|[i j] ps IH]; intros d Hps; simpl.
  { case_bool_decide; eauto. }
  destruct (Hps (i, j)) as (s & Hs & H); [by left|]. simpl in Hs.
  rewrite (check_cases view m n i j Hv), Hs. cbn [mbind pyres_bind].
  assert (∀ d', (∃ mv, AutoPlay.scan view m n ps d' = Ok mv) ∨
                AutoPlay.scan view m n ps d' = Raise NoUnseenLeft) as IH'.
  { intros d'. apply IH. intros p Hp. apply Hps. by right. }
  destruct (decide (s = AutoPlay.UNSEEN ∨ s = AutoPlay.FLAGGED)) as [|Hsk];
    [apply IH'|].
  destruct H as [?|[?|[N HN]]]; [tauto..|]. rewrite HN.
  destruct (deduction view m n i j N); [eauto|apply IH'].
Qed.

Lemma solution_view_over nr nc b :
  played b → ¬ lost b →
  (∀ r c, 0 ≤ r < nr → 0 ≤ c < nc → in_bounds b r c = true) →
  (∃ mv, AutoPlay.solution (view_over nr nc b) nr nc = Ok mv) ∨
  AutoPlay.solution (view_over nr nc b) nr nc = Raise NoUnseenLeft.
Proof.
  intros Hpl Hnl Hin. apply scan_total; [apply mat_shape_view_over|].
  intros [i j] Hp%elem_of_grid_cells. simpl.
  exists (shown b (i, j)). split; [apply get2_view_over; lia|].
  destruct (played_symbol b (i, j) Hpl Hnl) as [?|[?|(_ & _ & ? & _)]]; eauto.
  apply Hin; simpl; lia.
Qed.

(** X14.  On the view that the classifier gives for a game played on the
    grid and not lost, whatever sizes the window holds, the solver does
    not fail on a cell: it returns a move, or raises its own exception
    when no unseen cell is left. *)
Theorem solution_on_played w view :
  played (GUI.w_board w) → ¬ lost (GUI.w_board w) →
  GUI.get_solver_board w = Ok view →
  (∃ mv, AutoPlay.solution view (GUI.w_rows w) (GUI.w_cols w) = Ok mv) ∨
  AutoPlay.solution view (GUI.w_rows w) (GUI.w_cols w) = Raise NoUnseenLeft.
Proof.
  intros Hpl Hnl Hview.
  pose proof (reachable_Inv _ (played_reachable _ Hpl)) as HI.
  destruct (get_solver_board_Ok _ _ _ _ HI Hview) as [-> Hin].
  by apply solution_view_over.
Qed.

Lemma solution_on_played_witness :
  played two_opened ∧ ¬ lost two_opened ∧
  GUI.get_solver_board (GUI.mkWindow 1 5 1 two_opened [] [])
    = Ok [["#"; "F"; "0"; "1"; "#"]] ∧
  ((∃ mv, AutoPlay.solution [["#"; "F"; "0"; "1"; "#"]] 1 5 = Ok mv) ∨
   AutoPlay.solution [["#"; "F"; "0"; "1"; "#"]] 1 5 = Raise NoUnseenLeft).
Proof.
  assert (played two_opened) as Hpl.
  { unfold two_opened. repeat apply played_after; try (vm_compute; reflexivity).
    apply played_init. }
  assert (¬ lost two_opened) as Hnl by (vm_compute; intros [H _]; discriminate H).
  assert (GUI.get_solver_board (GUI.mkWindow 1 5 1 two_opened [] [])
            = Ok [["#"; "F"; "0"; "1"; "#"]]) as Hview by (vm_compute; reflexivity).
  split; [exact Hpl|]. split; [exact Hnl|]. split; [exact Hview|].
  exact (solution_on_played (GUI.mkWindow 1 5 1 two_opened [] []) _ Hpl Hnl Hview).
Defined.

(** ** Sound deductions *)

Lemma filter_length_split {A} (P Q R : A → Prop)
    `{∀ x, Decision (P x)} `{∀ x, Decision (Q x)} `{∀ x, Decision (R x)}
    (l : list A) :
  (∀ x, x ∈ l → P x → Q x ∨ R x) → (∀ x, x ∈ l → Q x → R x → False) →
  (length (filter P l) =
     length (filter (λ x, P x ∧ Q x) l) + length (filter (λ x, P x ∧ R x) l))%nat.
Proof.
  induction l as [|x l IH]; intros Hor Hno; [done|]. rewrite !filter_cons.
  assert (x ∈ x :: l) as Hx by (by left).
  specialize (Hor x Hx) as Hor'. specialize (Hno x Hx) as Hno'.
  assert (length (filter P l) =
            length (filter (λ x, P x ∧ Q x) l) + length (filter (λ x, P x ∧ R x) l))%nat
    as IH'.
  { apply IH; intros y Hy; [apply Hor|apply Hno]; by right. }
  destruct (decide (P x)); destruct (decide (P x ∧ Q x)); destruct (decide (P x ∧ R x));
    simpl; try lia; tauto.
Qed.

(** The unseen and the flagged cells that [check] finds around an open
    cell are the closed unflagged and the flagged neighbours. *)
Lemma unseen_around_view b t k p :
  Inv b → in_bounds b t k = true → get2 (revealed b) t k = Ok true →
  p ∈ unseen_around (view_of b) (rows b) (cols b) t k ↔
    p ∈ neighbors b t k ∧ pushable b p.
Proof.
  intros HI Hin Hv. rewrite elem_of_unseen_around, elem_of_neighbors, elem_of_window.
  unfold in_view, adjacent, pushable. rewrite in_bounds_spec. simpl. split.
  - intros (Hw & Hp & Hs). rewrite get2_view_of in Hs by (by apply in_bounds_spec).
    injection Hs as Hs. apply (shown_unseen b p HI) in Hs as [Hf Hr];
      [|by apply in_bounds_spec].
    split; [|done]. split; [done|]. split; [lia|]. split; [lia|].
    intros <-. simpl in Hr. congruence.
  - intros ((Hp & ? & ? & _) & Hr & Hf). split; [lia|]. split; [done|].
    rewrite get2_view_of by (by apply in_bounds_spec). f_equal.
    apply (shown_unseen b p HI); [by apply in_bounds_spec|done].
Qed.

Lemma length_unseen_around b t k :
  Inv b → in_bounds b t k = true → get2 (revealed b) t k = Ok true →
  length (unseen_around (view_of b) (rows b) (cols b) t k)
    = length (filter (pushable b) (neighbors b t k)).
Proof.
  intros HI Hin Hv. apply Permutation_length, NoDup_Permutation.
  - apply NoDup_filter, NoDup_window.
  - apply NoDup_filter, NoDup_neighbors.
  - intros p. rewrite (unseen_around_view b t k p HI Hin Hv), list_elem_of_filter. tauto.
Qed.

Lemma flagged_around_view b t k :
  Inv b → in_bounds b t k = true → get2 (flagged b) t k = Ok false →
  flagged_around (view_of b) (rows b) (cols b) t k
    = Z.of_nat (length (filter (λ q, get2 (flagged b) q.1 q.2 = Ok true)
                               (neighbors b t k))).
Proof.
  intros HI Hin Hf. unfold flagged_around. f_equal.
  apply Permutation_length, NoDup_Permutation.
  - apply NoDup_filter, NoDup_window.
  - apply NoDup_filter, NoDup_neighbors.
  - intros p. rewrite !list_elem_of_filter, elem_of_neighbors, elem_of_window.
    unfold in_view, adjacent. rewrite in_bounds_spec. simpl. split.
    + intros ((Hp & Hs) & Hw). rewrite get2_view_of in Hs by (by apply in_bounds_spec).
      injection Hs as Hs. apply (shown_flagged b p HI) in Hs; [|by apply in_bounds_spec].
      split; [done|]. split; [done|]. split; [lia|]. split; [lia|].
      intros <-. simpl in Hs. congruence.
    + intros (Hfl & Hp & ? & ? & _). split; [|lia]. split; [done|].
      rewrite get2_view_of by (by apply in_bounds_spec). f_equal.
      by apply (shown_flagged b p HI); [apply in_bounds_spec|].
Qed.

(** The deduction rule at an open cell, against the mines of the board. *)
Lemma deduction_sound b t k a U :
  played b → ¬ lost b → in_bounds b t k = true →
  get2 (flagged b) t k = Ok false → get2 (revealed b) t k = Ok true →
  deduction (view_of b) (rows b) (cols b) t k (adjacent_mines b t k) = Some (a, U) →
  (a = AutoPlay.FLAG → ∀ p, p ∈ U → p ∈ mines b) ∧
  (a = AutoPlay.REVEAL →
   (∀ q, q ∈ neighbors b t k → get2 (flagged b) q.1 q.2 = Ok true → q ∈ mines b) →
   ∀ p, p ∈ U → p ∉ mines b).
Proof.
  intros Hpl Hnl Hin Hf Hv Hd.
  pose proof (reachable_Inv b (played_reachable b Hpl)) as HI.
  pose proof (inv_shaped b HI) as (Hrv & Hfl & _).
  apply deduction_Some in Hd as (-> & Hne & Ha).
  rewrite (length_unseen_around b t k HI Hin Hv),
    (flagged_around_view b t k HI Hin Hf), <- count_adjacent_spec in Ha.
  unfold count_adjacent in Ha.
  set (L := neighbors b t k) in *.
  set (M := λ q : Z * Z, q ∈ mines b) in *.
  set (Fl := λ q : Z * Z, get2 (flagged b) q.1 q.2 = Ok true) in *.
  assert (∀ q, q ∈ L → in_bounds b q.1 q.2 = true) as HL.
  { by intros q [? _]%elem_of_neighbors. }
  pose proof (filter_length_split M Fl (pushable b) L) as Hsplit.
  pose proof (filter_length_le (λ q, M q ∧ Fl q) Fl L) as HleF.
  pose proof (filter_length_le (λ q, M q ∧ pushable b q) (pushable b) L) as HleU.
  rewrite Hsplit in Ha.
  2:{ intros q Hq Hm. pose proof (played_no_mine b q Hpl Hnl (HL q Hq) Hm) as Hr.
      destruct (get2_in_bounds b (flagged b) q.1 q.2 Hfl (HL q Hq)) as ([] & _ & Hfq);
        [by left|]. right. by split. }
  2:{ intros q _ Hq [_ Hq']. unfold Fl in Hq. congruence. }
  specialize (HleF ltac:(tauto)). specialize (HleU ltac:(tauto)).
  split.
  - intros ->. destruct Ha as [[[=] _]|[_ Ha]].
    intros p [Hp Hpush]%(unseen_around_view b t k p HI Hin Hv).
    apply (filter_length_eq (λ q, M q ∧ pushable b q) (pushable b) L); [tauto|lia|done..].
  - intros -> Hflags. destruct Ha as [[_ Ha]|[[=] _]].
    intros p [Hp Hpush]%(unseen_around_view b t k p HI Hin Hv) Hm.
    pose proof (filter_length_le Fl (λ q, M q ∧ Fl q) L) as HleF'.
    specialize (HleF' ltac:(intros q Hq HF; split; [by apply Hflags|done])).
    assert (p ∈ filter (λ q, M q ∧ pushable b q) L) as Hin'.
    { by apply list_elem_of_filter. }
    destruct (filter (λ q, M q ∧ pushable b q) L); [by apply elem_of_nil in Hin'|].
    simpl in *. lia.
Qed.

(** A move that [check] returns at a cell of a game played on the grid
    and not lost is the deduction from the number of mines around it. *)
Lemma check_view b t k mv :
  played b → ¬ lost b → in_bounds b t k = true →
  AutoPlay.check (view_of b) t k (rows b) (cols b) = Ok (Some mv) →
  get2 (flagged b) t k = Ok false ∧ get2 (revealed b) t k = Ok true ∧
  deduction (view_of b) (rows b) (cols b) t k (adjacent_mines b t k) = Some mv.
Proof.
  intros Hpl Hnl Hin Hc.
  destruct (check_Some _ _ _ _ _ _ (mat_shape_view_of b) Hc)
    as (s & N & Hs & Hu & Hf & HN & Hd).
  rewrite get2_view_of in Hs by done. injection Hs as <-.
  destruct (played_symbol b (t, k) Hpl Hnl Hin) as [?|[?|(_ & _ & HN' & ? & ? & _)]];
    [done..|].
  rewrite HN in HN'. injection HN' as ->. done.
Qed.

(** The cells of a flag move are mines. *)
Lemma flag_move_mines b U :
  played b → ¬ lost b →
  AutoPlay.solution (view_of b) (rows b) (cols b) = Ok (AutoPlay.FLAG, U) →
  ∀ p, p ∈ U → p ∈ mines b.
Proof.
  intros Hpl Hnl Hrun.
  destruct (scan_move _ _ _ _ _ _ (mat_shape_view_of b) Hrun)
    as [(t & k & s & N & Hin%elem_of_grid_cells%in_bounds_spec & Hs & Hu & Hf & HN & Hd)
       |(p & [=] & _)].
  rewrite get2_view_of in Hs by done. injection Hs as <-.
  destruct (played_symbol b (t, k) Hpl Hnl Hin) as [?|[?|(_ & _ & HN' & Hfl & Hrv & _)]];
    [done..|].
  rewrite HN in HN'. injection HN' as ->.
  by apply (deduction_sound b t k _ U Hpl Hnl Hin Hfl Hrv Hd).
Qed.

Lemma get_solver_board_sized w view :
  Inv (GUI.w_board w) →
  GUI.w_rows w = rows (GUI.w_board w) → GUI.w_cols w = cols (GUI.w_board w) →
  GUI.get_solver_board w = Ok view → view = view_of (GUI.w_board w).
Proof.
  intros HI Hr Hc Hview. unfold GUI.get_solver_board in Hview.
  rewrite Hr, Hc, (get_solver_board_spec _ HI) in Hview. by injection Hview.
Qed.

(** X15.  In a game played on the grid and not lost, shown in a window
    whose sizes are those of its board, every cell that the solver tells
    to flag holds a mine, whatever flags the player has set. *)
Theorem flag_moves_sound w view U :
  played (GUI.w_board w) → ¬ lost (GUI.w_board w) →
  GUI.w_rows w = rows (GUI.w_board w) → GUI.w_cols w = cols (GUI.w_board w) →
  GUI.get_solver_board w = Ok view →
  AutoPlay.solution view (GUI.w_rows w) (GUI.w_cols w) = Ok (AutoPlay.FLAG, U) →
  ∀ p, p ∈ U → p ∈ mines (GUI.w_board w).
Proof.
  intros Hpl Hnl Hr Hc Hview Hrun.
  pose proof (reachable_Inv _ (played_reachable _ Hpl)) as HI.
  rewrite (get_solver_board_sized w view HI Hr Hc Hview), Hr, Hc in Hrun.
  by apply flag_move_mines.
Qed.

Lemma flag_moves_sound_witness :
  played two_opened ∧ ¬ lost two_opened ∧
  GUI.get_solver_board (GUI.mkWindow 1 5 1 two_opened [] [])
    = Ok [["#"; "F"; "0"; "1"; "#"]] ∧
  AutoPlay.solution [["#"; "F"; "0"; "1"; "#"]] 1 5 = Ok (AutoPlay.FLAG, [(0, 4)]) ∧
  (0, 4) ∈ mines two_opened.
Proof.
  assert (played two_opened) as Hpl.
  { unfold two_opened. repeat apply played_after; try (vm_compute; reflexivity).
    apply played_init. }
  assert (¬ lost two_opened) as Hnl by (vm_compute; intros [H _]; discriminate H).
  assert (GUI.get_solver_board (GUI.mkWindow 1 5 1 two_opened [] [])
            = Ok [["#"; "F"; "0"; "1"; "#"]]) as Hview by (vm_compute; reflexivity).
  assert (AutoPlay.solution [["#"; "F"; "0"; "1"; "#"]] 1 5
            = Ok (AutoPlay.FLAG, [(0, 4)])) as Hrun by (vm_compute; reflexivity).
  do 4 (split; [assumption|]).
  apply (flag_moves_sound (GUI.mkWindow 1 5 1 two_opened [] []) _ _ Hpl Hnl
           ltac:(vm_compute; reflexivity) ltac:(vm_compute; reflexivity) Hview Hrun).
  by left.
Defined.

(** X16.  In such a game and window a reveal that [check] deduces at a
    cell opens no mine, provided every flag on a cell of the grid next to
    that cell stands on a mine. *)
Theorem reveal_deduction_sound w view t k U :
  played (GUI.w_board w) → ¬ lost (GUI.w_board w) →
  GUI.w_rows w = rows (GUI.w_board w) → GUI.w_cols w = cols (GUI.w_board w) →
  GUI.get_solver_board w = Ok view →
  in_bounds (GUI.w_board w) t k = true →
  AutoPlay.check view t k (GUI.w_rows w) (GUI.w_cols w)
    = Ok (Some (AutoPlay.REVEAL, U)) →
  (∀ q, in_bounds (GUI.w_board w) q.1 q.2 = true → adjacent (t, k) q →
        get2 (flagged (GUI.w_board w)) q.1 q.2 = Ok true → q ∈ mines (GUI.w_board w)) →
  ∀ p, p ∈ U → p ∉ mines (GUI.w_board w).
Proof.
  intros Hpl Hnl Hr Hc Hview Hin Hck Hflags.
  pose proof (reachable_Inv _ (played_reachable _ Hpl)) as HI.
  rewrite (get_solver_board_sized w view HI Hr Hc Hview), Hr, Hc in Hck.
  destruct (check_view _ t k _ Hpl Hnl Hin Hck) as (Hfl & Hrv & Hd).
  apply (deduction_sound _ t k _ U Hpl Hnl Hin Hfl Hrv Hd); [done|].
  intros q [Hq Hadj]%elem_of_neighbors. by apply Hflags.
Qed.

Lemma reveal_deduction_sound_witness :
  played flag_on_mine ∧ ¬ lost flag_on_mine ∧
  GUI.get_solver_board (GUI.mkWindow 3 3 1 flag_on_mine [] [])
    = Ok [["0"; "0"; "0"]; ["0"; "#"; "1"]; ["0"; "1"; "F"]] ∧
  in_bounds flag_on_mine 1 2 = true ∧
  AutoPlay.check [["0"; "0"; "0"]; ["0"; "#"; "1"]; ["0"; "1"; "F"]] 1 2 3 3
    = Ok (Some (AutoPlay.REVEAL, [(1, 1)])) ∧
  (∀ q, in_bounds flag_on_mine q.1 q.2 = true → adjacent (1, 2) q →
        get2 (flagged flag_on_mine) q.1 q.2 = Ok true → q ∈ mines flag_on_mine) ∧
  (1, 1) ∉ mines flag_on_mine.
Proof.
  assert (played flag_on_mine) as Hpl.
  { unfold flag_on_mine, flagged_centre.
    repeat apply played_after; try (vm_compute; reflexivity). apply played_init. }
  assert (¬ lost flag_on_mine) as Hnl by (vm_compute; intros [H _]; discriminate H).
  assert (GUI.get_solver_board (GUI.mkWindow 3 3 1 flag_on_mine [] [])
            = Ok [["0"; "0"; "0"]; ["0"; "#"; "1"]; ["0"; "1"; "F"]]) as Hview
    by (vm_compute; reflexivity).
  assert (in_bounds flag_on_mine 1 2 = true) as Hin by (vm_compute; reflexivity).
  assert (AutoPlay.check [["0"; "0"; "0"]; ["0"; "#"; "1"]; ["0"; "1"; "F"]] 1 2 3 3
            = Ok (Some (AutoPlay.REVEAL, [(1, 1)]))) as Hc by (vm_compute; reflexivity).
  assert (∀ q, in_bounds flag_on_mine q.1 q.2 = true → adjacent (1, 2) q →
               get2 (flagged flag_on_mine) q.1 q.2 = Ok true → q ∈ mines flag_on_mine)
    as Hflags.
  { assert (rows flag_on_mine = 3) as Hr by (vm_compute; reflexivity).
    assert (cols flag_on_mine = 3) as Hc' by (vm_compute; reflexivity).
    intros [i j] Hq%in_bounds_spec _.
    cbn [fst snd] in *. rewrite Hr, Hc' in Hq.
    assert (i = 0 ∨ i = 1 ∨ i = 2) as Hi by lia.
    assert (j = 0 ∨ j = 1 ∨ j = 2) as Hj by lia.
    destruct Hi as [-> | [-> | ->]], Hj as [-> | [-> | ->]]; vm_compute; intros H;
      try discriminate H. tauto. }
  do 5 (split; [assumption|]). split; [exact Hflags|].
  apply (reveal_deduction_sound (GUI.mkWindow 3 3 1 flag_on_mine [] []) _ 1 2 _
           Hpl Hnl ltac:(vm_compute; reflexivity) ltac:(vm_compute; reflexivity)
           Hview Hin Hc Hflags).
  by left.
Defined.

(** The sizes matter: in the window [cropped] the solver sees one unseen
    cell next to the 1 of [(0, 1)] and tells to flag it, but the mine of
    that 1 is in the row that the view leaves out. *)
Example cropped_view_flags_a_safe_cell :
  GUI.w_rows cropped = 1 ∧ rows (GUI.w_board cropped) = 2 ∧
  GUI.get_solver_board cropped = Ok [["0"; "1"; "#"]] ∧
  AutoPlay.solution [["0"; "1"; "#"]] (GUI.w_rows cropped) (GUI.w_cols cropped)
    = Ok (AutoPlay.FLAG, [(0, 2)]) ∧
  ((0, 2) ∉ mines (GUI.w_board cropped)) ∧
  flagged (GUI.w_board (after_event cropped (Autoplay_step [])))
    = [[false; false; true]; [false; false; false]].
Proof.
  do 4 (split; [vm_compute; reflexivity|]). split; [|vm_compute; reflexivity].
  vm_compute. intros H. discriminate H.
Qed.

(** * The window *)

(** ** Drawing *)

Lemma Inv_drawable b : Inv b → drawable b.
Proof.
  intros HI. split; [apply (inv_shaped b HI)|]. intros r c v Hin Hv.
  pose proof (inv_shaped b HI) as (_ & _ & Hbd).
  destruct (placed b) eqn:Hpl.
  - rewrite (board_count b r c HI Hpl Hin) in Hv. injection Hv as <-.
    pose proof (count_adjacent_range b r c).
    destruct (decide ((r, c) ∈ mines b)); unfold MINE; lia.
  - destruct (get2_in_bounds b (board b) r c Hbd Hin) as (v' & Hv' & Hget).
    rewrite Hget in Hv. injection Hv as <-.
    destruct (inv_unplaced b HI Hpl) as (Hfresh & _). rewrite Hfresh in Hv'.
    apply mget_fresh in Hv' as ->. lia.
Qed.

Lemma drawable_Board_init nr nc nm : drawable (Board_init nr nc nm).
Proof. apply Inv_drawable, Inv_init. Qed.

Lemma drawable_with_revealed b m :
  drawable b → mat_shape (nrows b) (ncols b) m → drawable (with_revealed b m).
Proof.
  intros [Hb Hsm] Hm. split; [by apply shaped_with_revealed|]. apply Hsm.
Qed.

Lemma config_cell_spec w r c :
  agrees w → drawable (GUI.w_board w) → in_bounds (GUI.w_board w) r c = true →
  ∃ btn, GUI.config_cell w r c
           = Ok (mset (GUI.w_buttons w) (Z.to_nat r) (Z.to_nat c) btn) ∧
         shows (GUI.w_board w) (r, c) btn.
Proof.
  intros (_ & _ & Hbtn) [(Hrv & Hfl & Hbd) Hsm] Hin. set (b := GUI.w_board w) in *.
  destruct (in_bounds_index _ _ _ Hin) as [Hr Hc].
  unfold GUI.config_cell. fold b.
  destruct (get2_in_bounds b (GUI.w_buttons w) r c Hbtn Hin) as (btn & _ & ->).
  destruct (get2_in_bounds b (revealed b) r c Hrv Hin) as (v & _ & Hv).
  destruct (get2_in_bounds b (flagged b) r c Hfl Hin) as (f & _ & Hf).
  destruct (get2_in_bounds b (board b) r c Hbd Hin) as (val & _ & Hval).
  rewrite Hv, Hf, Hval. cbn [mbind pyres_bind].
  unfold shows, label. cbn [fst snd]. rewrite Hv, Hf, Hval.
  destruct v.
  - destruct (decide (Ok true = Ok true)) as [_|]; [|done].
    case_bool_decide as Hm.
    + rewrite (set2_Ok _ _ _ _ _ _ _ _ Hbtn Hr Hc). eexists. split; [done|].
      by rewrite decide_True.
    + rewrite decide_False by done. unfold count_text. case_bool_decide as Hz.
      * rewrite (set2_Ok _ _ _ _ _ _ _ _ Hbtn Hr Hc). eexists. split; [done|].
        by rewrite decide_True.
      * rewrite (py_str_small val (Hsm r c val Hin Hval)). cbn [mbind pyres_bind].
        rewrite (set2_Ok _ _ _ _ _ _ _ _ Hbtn Hr Hc). eexists. split; [done|].
        by rewrite decide_False.
  - destruct (decide (Ok false = Ok true)) as [|_]; [done|].
    destruct f; rewrite (set2_Ok _ _ _ _ _ _ _ _ Hbtn Hr Hc); eexists;
      (split; [done|]); simpl.
    + by destruct (decide (Ok true = Ok true)).
    + by destruct (decide (Ok false = Ok true)).
Qed.

Lemma update_cells_spec ps w :
  agrees w → drawable (GUI.w_board w) →
  (∀ p, p ∈ ps → in_bounds (GUI.w_board w) p.1 p.2 = true) →
  ∃ bs, GUI.update_cells ps w = GUI.Returned (GUI.with_buttons w bs) ∧
        mat_shape (nrows (GUI.w_board w)) (ncols (GUI.w_board w)) bs ∧
        ∀ r c, in_bounds (GUI.w_board w) r c = true →
          if decide ((r, c) ∈ ps)
          then ∃ btn, get2 bs r c = Ok btn ∧ shows (GUI.w_board w) (r, c) btn
          else get2 bs r c = get2 (GUI.w_buttons w) r c.
Proof.
  revert w. induction ps as [|[r c] ps IH]; intros w Hag Hb Hps.
  - exists (GUI.w_buttons w). split; [by destruct w|]. split; [apply Hag|].
    intros r c _. rewrite decide_False; [done|]. apply not_elem_of_nil.
  - pose proof (Hps (r, c) ltac:(left)) as Hin. simpl in Hin.
    destruct (config_cell_spec w r c Hag Hb Hin) as (btn & Hcfg & Hshow).
    simpl. rewrite Hcfg.
    set (w1 := GUI.with_buttons w _).
    destruct Hag as (Hr & Hc & Hbtn).
    assert (agrees w1) as Hag1.
    { split; [done|]. split; [done|]. by apply mat_shape_mset. }
    destruct (IH w1 Hag1 Hb) as (bs & -> & Hsh & Hget).
    { intros p Hp. apply (Hps p). by right. }
    exists bs. split; [by destruct w|]. split; [done|].
    intros r' c' Hin'. specialize (Hget r' c' Hin'). simpl in Hget.
    destruct (decide ((r', c') ∈ ps)) as [Hmem|Hmem].
    + rewrite decide_True by (by right). done.
    + rewrite Hget. clear Hget.
      assert (∀ x, get2 (mset (GUI.w_buttons w) (Z.to_nat r) (Z.to_nat c) btn) r' c' = Ok x ↔
                   mget (mset (GUI.w_buttons w) (Z.to_nat r) (Z.to_nat c) btn)
                     (Z.to_nat r') (Z.to_nat c') = Some x) as Hcell.
      { intros x. apply (get2_cell (GUI.w_board w)); [by apply mat_shape_mset|done]. }
      apply in_bounds_spec in Hin as Hin2. apply in_bounds_spec in Hin' as Hin2'.
      rewrite (mget_mset _ _ _ _ _ _ _ _ Hbtn) in Hcell by (unfold nrows, ncols; lia).
      destruct (decide ((r', c') = (r, c))) as [[= -> ->]|Hne].
      * rewrite decide_True by (by left). exists btn. split; [|done].
        apply Hcell. by rewrite decide_True.
      * rewrite decide_False by (rewrite elem_of_cons; tauto).
        rewrite decide_False in Hcell.
        2:{ intros [? ?]. apply Hne. f_equal; lia. }
        destruct (get2_in_bounds (GUI.w_board w) (GUI.w_buttons w) r' c' Hbtn Hin')
          as (x & Hx & ->). by apply Hcell.
Qed.

Lemma update_ui_spec w :
  agrees w → drawable (GUI.w_board w) →
  ∃ bs, GUI.update_ui w = GUI.Returned (GUI.with_buttons w bs) ∧
        agrees (GUI.with_buttons w bs) ∧ in_sync (GUI.with_buttons w bs).
Proof.
  intros Hag Hb. destruct Hag as (Hr & Hc & Hbtn).
  destruct (update_cells_spec (grid_cells (GUI.w_rows w) (GUI.w_cols w)) w)
    as (bs & Hrun & Hsh & Hget); [done|done| |].
  { intros [r c] Hp%elem_of_grid_cells. apply in_bounds_spec. simpl. lia. }
  exists bs. split; [done|]. split; [done|].
  intros r c Hin. specialize (Hget r c Hin). simpl in *.
  rewrite decide_True in Hget; [done|].
  apply elem_of_grid_cells. apply in_bounds_spec in Hin. lia.
Qed.

(** ** The end of a game *)

Lemma mat_all {A} nr nc (m : list (list A)) v :
  mat_shape nr nc m →
  (∀ i j, (i < nr)%nat → (j < nc)%nat → mget m i j = Some v) →
  m = replicate nr (replicate nc v).
Proof.
  intros [Hl Hf] Hall. apply list_eq_same_length with nr; [by rewrite length_replicate|done|].
  intros i row row' Hi Hrow [-> _]%lookup_replicate.
  assert (length row = nc) as Hlen by (by eapply Forall_lookup_1 in Hf).
  apply list_eq_same_length with nc; [by rewrite length_replicate|done|].
  intros j x y Hj Hx [-> _]%lookup_replicate.
  specialize (Hall i j Hi Hj). unfold mget in Hall. rewrite Hrow in Hall. simpl in Hall.
  congruence.
Qed.

Lemma reveal_all_spec ps w :
  shaped (GUI.w_board w) →
  (∀ p, p ∈ ps → in_bounds (GUI.w_board w) p.1 p.2 = true) →
  ∃ m, GUI.reveal_all ps w
         = GUI.Returned (GUI.with_board w (with_revealed (GUI.w_board w) m)) ∧
       mat_shape (nrows (GUI.w_board w)) (ncols (GUI.w_board w)) m ∧
       ∀ i j, (i < nrows (GUI.w_board w))%nat → (j < ncols (GUI.w_board w))%nat →
         mget m i j = if decide ((Z.of_nat i, Z.of_nat j) ∈ ps) then Some true
                      else mget (revealed (GUI.w_board w)) i j.
Proof.
  revert w. induction ps as [|[r c] ps IH]; intros w Hb Hps.
  - exists (revealed (GUI.w_board w)). split.
    { simpl. f_equal. destruct w as [? ? ? b ? ?]. simpl. by destruct b. }
    split; [apply Hb|]. intros i j _ _. rewrite decide_False; [done|apply not_elem_of_nil].
  - pose proof (Hps (r, c) ltac:(left)) as Hin. simpl in Hin.
    destruct (in_bounds_index _ _ _ Hin) as [Hr Hc].
    apply py_index_lt in Hr as Hr', Hc as Hc'.
    pose proof Hb as (Hrv & _ & _). simpl. unfold store_revealed.
    rewrite (set2_Ok _ _ _ _ _ _ _ _ Hrv Hr Hc). simpl.
    set (b := GUI.w_board w) in *.
    set (b1 := with_revealed b (mset (revealed b) (Z.to_nat r) (Z.to_nat c) true)).
    destruct (IH (GUI.with_board w b1)) as (m & -> & Hsh & Hget).
    { apply shaped_with_revealed; [done|]. by apply mat_shape_mset. }
    { intros p Hp. apply (Hps p). by right. }
    exists m. split; [done|]. split; [done|].
    intros i j Hi Hj. rewrite (Hget i j Hi Hj). simpl.
    rewrite (mget_mset _ _ _ _ _ _ _ _ Hrv Hr' Hc').
    apply in_bounds_spec in Hin.
    destruct (decide ((Z.of_nat i, Z.of_nat j) ∈ ps)) as [Hmem|Hmem].
    + by rewrite decide_True by (by right).
    + destruct (decide (Z.to_nat r = i ∧ Z.to_nat c = j)) as [[<- <-]|Hne].
      * rewrite !Z2Nat.id by lia. by rewrite decide_True by (by left).
      * rewrite decide_False; [done|]. rewrite elem_of_cons. intros [[= <- <-]|?]; [|done].
        apply Hne. split; lia.
Qed.

Lemma shaped_shown_all b : shaped b → shaped (shown_all b).
Proof. intros Hb. apply shaped_with_revealed; [done|]. apply mat_shape_fresh. Qed.

Lemma shown_all_twice b : shown_all (shown_all b) = shown_all b.
Proof. by destruct b. Qed.

Lemma get2_shown_all b r c :
  in_bounds b r c = true → get2 (revealed (shown_all b)) r c = Ok true.
Proof.
  intros Hin. destruct (get2_in_bounds b (revealed (shown_all b)) r c) as (x & Hx & ->);
    [apply mat_shape_fresh|done|]. simpl in Hx. by apply mget_fresh in Hx as ->.
Qed.

(** [end_game] opens every cell, redraws and tells the result. *)
Lemma end_game_spec w :
  agrees w → drawable (GUI.w_board w) →
  ∃ bs,
    let w' := GUI.with_buttons (GUI.with_board w (shown_all (GUI.w_board w))) bs in
    GUI.end_game w =
      GUI.Returned (GUI.show w' (if victory (GUI.w_board w) then GUI.You_won
                                 else GUI.You_hit_a_mine)) ∧
    agrees w' ∧ in_sync w'.
Proof.
  intros Hag Hb. pose proof Hag as (Hr & Hc & Hbtn). unfold GUI.end_game.
  destruct (reveal_all_spec (grid_cells (GUI.w_rows w) (GUI.w_cols w)) w (proj1 Hb))
    as (m & -> & Hsh & Hget).
  { intros [r c] Hp%elem_of_grid_cells. apply in_bounds_spec. simpl. lia. }
  assert (m = fresh (rows (GUI.w_board w)) (cols (GUI.w_board w)) true) as ->.
  { apply mat_all; [done|]. intros i j Hi Hj. rewrite (Hget i j Hi Hj).
    rewrite decide_True; [done|]. apply elem_of_grid_cells.
    unfold nrows, ncols in *. lia. }
  fold (shown_all (GUI.w_board w)). cbn [GUI.and_then].
  set (w1 := GUI.with_board w (shown_all (GUI.w_board w))).
  destruct (update_ui_spec w1) as (bs & -> & Hag' & Hsync).
  { done. }
  { apply drawable_with_revealed; [done|apply mat_shape_fresh]. }
  exists bs. cbn [GUI.and_then]. split; [|done].
  simpl. by destruct (victory (GUI.w_board w)).
Qed.

(** The common end of the handlers that play. *)
Lemma refresh_spec w :
  agrees w → drawable (GUI.w_board w) →
  ∃ bs,
    if game_over (GUI.w_board w) then
      let w' := GUI.with_buttons (GUI.with_board w (shown_all (GUI.w_board w))) bs in
      GUI.refresh w =
        GUI.Returned (GUI.show w' (if victory (GUI.w_board w) then GUI.You_won
                                   else GUI.You_hit_a_mine)) ∧
      agrees w' ∧ in_sync w'
    else
      GUI.refresh w = GUI.Returned (GUI.with_buttons w bs) ∧
      agrees (GUI.with_buttons w bs) ∧ in_sync (GUI.with_buttons w bs).
Proof.
  intros Hag Hb. unfold GUI.refresh.
  destruct (update_ui_spec w Hag Hb) as (bs & -> & Hag' & Hsync). cbn [GUI.and_then].
  change (GUI.w_board (GUI.with_buttons w bs)) with (GUI.w_board w).
  destruct (game_over (GUI.w_board w)) eqn:Hg; [|by exists bs].
  destruct (end_game_spec (GUI.with_buttons w bs) Hag' Hb) as (bs' & Hrun & Hag'' & Hsync').
  exists bs'. rewrite Hrun. done.
Qed.

(** ** Calls made by the handlers *)

Lemma reveal_raised b r c rnd e b' :
  Inv b → reveal b r c rnd = Some (Raised e b') →
  b' = b ∧ game_over b = false ∧
  ((e = IndexError ∧ position b (r, c) = None) ∨
   (e = ValueError ∧ placed b = false ∧ ¬ feasible b r c)).
Proof.
  intros HI Hk.
  destruct (reveal_outcome b r c rnd _ HI Hk)
    as [[[=] _]|[[[= -> ->] [Hg Hp]]|(i & j & Hg & Hp & Hf & Hv & H)]].
  { do 2 (split; [done|]). by left. }
  destruct H as [[[= -> ->] [Hpl Hk']]|(b1 & Hb1 & H)].
  { do 2 (split; [done|]). by right. }
  destruct H as [[_ [=]]|(_ & m & _ & Hinv & Ho)].
  destruct (check_victory_fields (with_revealed b1 m)) as (b2 & Hb2 & _);
    [apply Hinv|]. congruence.
Qed.

Lemma toggle_flag_raised b r c e b' :
  Inv b → toggle_flag b r c = Raised e b' →
  b' = b ∧ e = IndexError ∧ position b (r, c) = None.
Proof.
  intros HI Hk. pose proof (inv_shaped b HI) as Hb.
  destruct (toggle_flag_outcome b r c HI)
    as [[Ho _]|[[Ho [Hg Hp]]|(i & j & f & Hg & Hp & Hv & Hf & Ho)]];
    rewrite Ho in Hk; [done|by injection Hk as <- <-|].
  destruct (check_victory_fields (with_flagged b (mset (flagged b) i j (negb f))))
    as (b2 & Hb2 & _); [|congruence].
  apply shaped_with_flagged; [done|]. apply mat_shape_mset, Hb.
Qed.

(** A reveal that leaves the mines unplaced has done nothing. *)
Lemma reveal_unplaced b r c rnd b' :
  Inv b → reveal b r c rnd = Some (Done b') → placed b' = false → b' = b.
Proof.
  intros HI Hk Hpl.
  destruct (reveal_outcome b r c rnd _ HI Hk)
    as [[[= ->] _]|[[[=] _]|(i & j & Hg & Hp & Hf & Hv & H)]]; [done|].
  destruct H as [[[=] _]|(b1 & Hb1 & H)].
  destruct (mines_ready_spec b r c rnd b1 HI Hb1) as (_ & Hpl1 & _).
  destruct H as [[_ [= ->]]|(_ & m & _ & Hinv & Ho)]; [simpl in Hpl; congruence|].
  destruct (check_victory_fields (with_revealed b1 m)) as (b2 & Hb2 & H);
    [apply Hinv|]. rewrite Hb2 in Ho. injection Ho as ->.
  destruct H as (_ & _ & _ & _ & _ & _ & _ & H). simpl in H. congruence.
Qed.

Lemma presentable_shaped b : presentable b → shaped b.
Proof.
  intros [Hpl|(b0 & Hpl & _ & ->)].
  - apply (reachable_Inv b (played_reachable b Hpl)).
  - apply shaped_shown_all, (reachable_Inv b0 (played_reachable b0 Hpl)).
Qed.

Lemma presentable_drawable b : presentable b → drawable b.
Proof.
  intros [Hpl|(b0 & Hpl & _ & ->)].
  - apply Inv_drawable, (reachable_Inv b (played_reachable b Hpl)).
  - apply drawable_with_revealed; [|apply mat_shape_fresh].
    apply Inv_drawable, (reachable_Inv b0 (played_reachable b0 Hpl)).
Qed.

Lemma presentable_call b k :
  presentable b → in_bounds b (call_cell k).1 (call_cell k).2 = true →
  ∃ o, perform b k = Some o ∧ presentable (state_of o) ∧
       rows (state_of o) = rows b ∧ cols (state_of o) = cols b ∧
       mines_count (state_of o) = mines_count b ∧
       (game_over b = true → o = Done b) ∧
       ∀ e b', o = Raised e b' →
         b' = b ∧ e = ValueError ∧ placed b = false ∧ game_over b = false ∧
         ∃ r c rnd, k = Reveal r c rnd.
Proof.
  intros Hb Hin.
  assert (game_over b = true → perform b k = Some (Done b)) as Hover.
  { intros Hg. destruct k; simpl; unfold reveal, toggle_flag; by rewrite Hg. }
  destruct Hb as [Hpl|(b0 & Hpl & Hg & ->)].
  2:{ exists (Done (shown_all b0)). split; [by apply Hover|]. split.
      { right. by exists b0. }
      do 4 (split; [done|]). done. }
  pose proof (reachable_Inv b (played_reachable b Hpl)) as HI.
  assert (∃ o, perform b k = Some o) as [o Ho].
  { destruct k as [r c rnd|r c]; simpl; [|eauto].
    destruct (reveal_cases b r c rnd HI) as (o & -> & _). eauto. }
  exists o. split; [done|].
  split; [left; by apply (played_call b k o)|].
  destruct (perform_same_layout b k o HI Ho) as (Hr & Hc & Hm & _).
  do 3 (split; [done|]). split.
  { intros Hg. rewrite (Hover Hg) in Ho. by injection Ho as <-. }
  intros e b' ->. pose proof (position_in_bounds b (call_cell k) Hin) as Hp.
  destruct k as [r c rnd|r c]; simpl in *.
  - destruct (reveal_raised b r c rnd e b' HI Ho) as (-> & Hg & [[_ ?]|(-> & ? & _)]);
      [congruence|]. do 4 (split; [done|]). eauto.
  - injection Ho as Ho.
    destruct (toggle_flag_raised b r c e b' HI Ho) as (_ & _ & ?). congruence.
Qed.

(** ** The handlers on a steady window *)

Lemma steady_presentable w : steady w → presentable (GUI.w_board w).
Proof. intros (_ & _ & [[_ ?]|?]); [by left|by right]. Qed.

Lemma played_shown_all_eq b b0 :
  played b0 → game_over b0 = true → b = shown_all b0 → game_over b = true.
Proof. by intros _ ? ->. Qed.

(** [refresh] leaves a steady window. *)
Lemma refresh_steady w :
  agrees w → presentable (GUI.w_board w) →
  ∃ w', GUI.refresh w = GUI.Returned w' ∧ steady w' ∧
        GUI.w_rows w' = GUI.w_rows w ∧ GUI.w_cols w' = GUI.w_cols w ∧
        GUI.w_mines w' = GUI.w_mines w ∧
        GUI.w_board w' = (if game_over (GUI.w_board w) then shown_all (GUI.w_board w)
                          else GUI.w_board w) ∧
        GUI.w_messages w' =
          GUI.w_messages w ++
            (if game_over (GUI.w_board w)
             then [if victory (GUI.w_board w) then GUI.You_won else GUI.You_hit_a_mine]
             else []).
Proof.
  intros Hag Hb. destruct (refresh_spec w Hag (presentable_drawable _ Hb)) as (bs & H).
  destruct (game_over (GUI.w_board w)) eqn:Hg.
  - destruct H as (-> & Hag' & Hsync). eexists. split; [done|]. simpl.
    split; [|done]. split; [done|]. split; [done|]. right. simpl.
    destruct Hb as [Hpl|(b0 & Hpl & Hg0 & ->)].
    + by exists (GUI.w_board w).
    + exists b0. by rewrite shown_all_twice.
  - destruct H as (-> & Hag' & Hsync). eexists. split; [done|]. simpl.
    rewrite app_nil_r. split; [|done]. split; [done|]. split; [done|]. left. simpl.
    split; [done|]. destruct Hb as [Hpl|(b0 & Hpl & Hg0 & Heq)]; [done|].
    rewrite Heq in Hg. simpl in Hg. congruence.
Qed.

Lemma agrees_with_board w b :
  agrees w → rows b = rows (GUI.w_board w) → cols b = cols (GUI.w_board w) →
  agrees (GUI.with_board w b).
Proof.
  intros (Hr & Hc & Hbtn) Hr' Hc'. unfold agrees, nrows, ncols. simpl.
  rewrite Hr', Hc'. done.
Qed.

Lemma new_game_steady w :
  ∃ w', GUI.new_game w = GUI.Returned w' ∧ steady w' ∧
        GUI.w_board w' = Board_init (GUI.w_rows w) (GUI.w_cols w) (GUI.w_mines w) ∧
        GUI.w_rows w' = GUI.w_rows w ∧ GUI.w_cols w' = GUI.w_cols w ∧
        GUI.w_mines w' = GUI.w_mines w ∧ GUI.w_messages w' = GUI.w_messages w.
Proof.
  unfold GUI.new_game, GUI.draw_board.
  set (w1 := GUI.with_buttons _ _).
  destruct (update_ui_spec w1) as (bs & -> & Hag & Hsync).
  { split; [done|]. split; [done|]. apply mat_shape_fresh. }
  { apply drawable_Board_init. }
  eexists. split; [done|]. split; [|done].
  split; [done|]. split; [done|]. left. split; [done|]. apply played_init.
Qed.


Lemma draw_board_fresh nr nc nm bs msgs :
  steady (GUI.window_of
            (GUI.draw_board (GUI.mkWindow nr nc nm (Board_init nr nc nm) bs msgs))).
Proof.
  unfold GUI.draw_board. set (w1 := GUI.with_buttons _ _).
  destruct (update_ui_spec w1) as (bs' & -> & Hag & Hsync).
  { split; [done|]. split; [done|]. apply mat_shape_fresh. }
  { apply drawable_Board_init. }
  split; [done|]. split; [done|]. left. split; [done|]. apply played_init.
Qed.

Lemma init_steady : steady (GUI.window_of GUI.init).
Proof. unfold GUI.init. apply draw_board_fresh. Qed.

(** ** The automatic step *)

Lemma get_solver_board_agrees w :
  agrees w →
  GUI.get_solver_board w
    = get_solver_board (rows (GUI.w_board w)) (cols (GUI.w_board w)) (GUI.w_board w).
Proof. intros (Hr & Hc & _). unfold GUI.get_solver_board. by rewrite Hr, Hc. Qed.

(** Once [end_game] has opened the board no cell is classified Unseen. *)
Lemma classify_shown_all b r c :
  Inv b → in_bounds b r c = true →
  ∃ s, classify_cell (shown_all b) r c = Ok s ∧ s ≠ AutoPlay.UNSEEN.
Proof.
  intros HI Hin. pose proof (inv_shaped b HI) as (Hrv & Hfl & Hbd).
  unfold classify_cell. rewrite (get2_shown_all b r c Hin).
  change (flagged (shown_all b)) with (flagged b).
  change (board (shown_all b)) with (board b).
  destruct (get2_in_bounds b (flagged b) r c Hfl Hin) as (f & _ & ->).
  cbn [mbind pyres_bind negb]. destruct f; [by eexists|].
  destruct (placed b) eqn:Hpl.
  - rewrite (board_count b r c HI Hpl Hin). cbn [mbind pyres_bind].
    destruct (decide ((r, c) ∈ mines b)).
    + rewrite bool_decide_eq_true_2 by done. by eexists.
    + pose proof (count_adjacent_range b r c).
      rewrite bool_decide_eq_false_2 by (unfold MINE; lia).
      rewrite py_str_small by lia.
      eexists. split; [done|]. by apply py_str_count.
  - destruct (get2_in_bounds b (board b) r c Hbd Hin) as (v & Hv & ->).
    destruct (inv_unplaced b HI Hpl) as (Hfresh & _). rewrite Hfresh in Hv.
    apply mget_fresh in Hv as ->. cbn [mbind pyres_bind].
    rewrite bool_decide_eq_false_2 by done. by eexists.
Qed.

Lemma get_solver_board_shown_all b :
  Inv b →
  ∃ view, get_solver_board (rows (shown_all b)) (cols (shown_all b)) (shown_all b) = Ok view ∧
          mat_shape (nrows b) (ncols b) view ∧
          ∀ p, in_view (rows b) (cols b) p → get2 view p.1 p.2 ≠ Ok AutoPlay.UNSEEN.
Proof.
  intros HI.
  set (g := λ r c, match classify_cell (shown_all b) r c with Ok s => s | Raise _ => "" end).
  exists ((λ r, (λ c, g r c) <$> range (cols b)) <$> range (rows b)).
  assert (mat_shape (nrows b) (ncols b)
            ((λ r, (λ c, g r c) <$> range (cols b)) <$> range (rows b))) as Hsh.
  { split; [by rewrite length_fmap, length_range|].
    apply Forall_fmap, Forall_forall. intros r _. simpl.
    by rewrite length_fmap, length_range. }
  split; [|split; [done|]].
  - unfold get_solver_board. change (rows (shown_all b)) with (rows b).
    change (cols (shown_all b)) with (cols b).
    apply mapM_Ok. intros r Hr%elem_of_range.
    apply (mapM_Ok _ (λ c, g r c)). intros c Hc%elem_of_range.
    destruct (classify_shown_all b r c HI) as (s & Hs & _); [by apply in_bounds_spec|].
    unfold g. by rewrite Hs.
  - intros [r c] [Hr Hc]. simpl in *.
    assert (in_bounds b r c = true) as Hin by (by apply in_bounds_spec).
    rewrite (proj2 (get2_cell b _ r c (g r c) Hsh Hin)).
    + destruct (classify_shown_all b r c HI Hin) as (s & Hs & Hne).
      unfold g. rewrite Hs. by intros [= ->].
    + unfold mget. rewrite list_lookup_fmap, lookup_range by lia. simpl.
      rewrite list_lookup_fmap, lookup_range by lia. simpl.
      by rewrite !Z2Nat.id by lia.
Qed.

(** A view without unseen cells gets no move. *)
Lemma solution_no_unseen view m n :
  mat_shape (Z.to_nat m) (Z.to_nat n) view →
  (∀ p, in_view m n p → get2 view p.1 p.2 ≠ Ok AutoPlay.UNSEEN) →
  ∃ e, AutoPlay.solution view m n = Raise e.
Proof.
  intros Hv Hno. destruct (AutoPlay.solution view m n) as [mv|e] eqn:Hrun; [|eauto].
  exfalso. unfold AutoPlay.solution in Hrun.
  destruct (scan_move view m n _ _ _ Hv Hrun)
    as [(t & k & s & N & _ & _ & _ & _ & _ & Hd)|(p & -> & Hne & H)].
  - destruct mv as [a U]. apply deduction_Some in Hd as (-> & Hne & _).
    destruct (unseen_around view m n t k) as [|p U] eqn:HU; [done|].
    assert (p ∈ unseen_around view m n t k) as Hp by (rewrite HU; by left).
    apply elem_of_unseen_around in Hp as (_ & Hin & Hs). by apply (Hno p).
  - destruct H as [->|[Hin Hp]]; [done|]. apply (Hno p); [|done].
    destruct p as [i j]. by apply elem_of_grid_cells in Hin.
Qed.

Lemma solution_view_of b :
  played b → ¬ lost b →
  (∃ mv, AutoPlay.solution (view_of b) (rows b) (cols b) = Ok mv) ∨
  AutoPlay.solution (view_of b) (rows b) (cols b) = Raise NoUnseenLeft.
Proof.
  intros Hpl Hnl. apply scan_total; [apply mat_shape_view_of|].
  intros [i j] Hp%elem_of_grid_cells%in_bounds_spec.
  exists (shown b (i, j)). split; [by apply get2_view_of|].
  destruct (played_symbol b (i, j) Hpl Hnl Hp) as [?|[?|(_ & _ & ? & _)]]; eauto.
Qed.

Lemma with_board_id w : GUI.with_board w (GUI.w_board w) = w.
Proof. by destruct w. Qed.

(** The loop of [autoplay_step] over the cells of a move. *)
Lemma apply_move_spec a U rnd w :
  played (GUI.w_board w) → a = 0 ∨ a = 1 →
  (∀ p, p ∈ U → in_bounds (GUI.w_board w) p.1 p.2 = true) →
  ∃ h, GUI.apply_move a U rnd w = Some h ∧
       match h with
       | GUI.Returned w' =>
           ∃ b', w' = GUI.with_board w b' ∧ played b' ∧
                 rows b' = rows (GUI.w_board w) ∧ cols b' = cols (GUI.w_board w) ∧
                 mines_count b' = mines_count (GUI.w_board w)
       | GUI.Failed e w' =>
           e = ValueError ∧ w' = w ∧ placed (GUI.w_board w) = false ∧ a = 0
       end.
Proof.
  intros Hpl Ha. revert w Hpl. induction U as [|[r c] U IH]; intros w Hpl HU.
  { exists (GUI.Returned w). split; [done|]. exists (GUI.w_board w).
    by rewrite with_board_id. }
  pose proof (HU (r, c) ltac:(left)) as Hin. simpl in Hin.
  set (b := GUI.w_board w) in *.
  set (k := if bool_decide (a = 0) then Reveal r c rnd else ToggleFlag r c).
  destruct (presentable_call b k (or_introl Hpl)) as (o & Ho & _ & Hr & Hc & Hmc & _ & Hfail).
  { unfold k. by case_bool_decide. }
  assert (played (state_of o)) as Hpl'.
  { apply (played_call b k o); [done| |done]. unfold k. by case_bool_decide. }
  assert (GUI.apply_move a ((r, c) :: U) rnd w =
            match GUI.on_board w o with
            | GUI.Returned w' => GUI.apply_move a U rnd w'
            | GUI.Failed e w' => Some (GUI.Failed e w')
            end) as ->.
  { simpl. fold b. unfold k in Ho. destruct Ha as [-> | ->]; simpl in *.
    - by rewrite Ho.
    - by injection Ho as <-. }
  destruct o as [b1|e b1]; simpl in *.
  - destruct (IH (GUI.with_board w b1)) as (h & -> & Hh); [done| |].
    { intros p Hp. simpl. rewrite (in_bounds_ext b b1) by done. apply HU. by right. }
    exists h. split; [done|]. destruct h as [w'|e w']; simpl in *.
    + destruct Hh as (b' & -> & ? & ? & ? & ?). exists b'.
      split; [by destruct w|]. split; [done|]. split; [congruence|].
      split; congruence.
    + destruct Hh as (-> & -> & Hpl1 & ->). split; [done|].
      unfold k in Ho. rewrite bool_decide_eq_true_2 in Ho by done.
      assert (b1 = b) as ->.
      { apply (reveal_unplaced b r c rnd b1); [|done..].
        apply (reachable_Inv b (played_reachable b Hpl)). }
      by rewrite with_board_id.
  - eexists. split; [done|].
    destruct (Hfail e b1 eq_refl) as (-> & -> & ? & _ & r' & c' & rnd' & Hk).
    split; [done|]. split; [apply with_board_id|]. split; [done|].
    unfold k in Hk. by case_bool_decide.
Qed.

(** ** Every handler keeps the window steady *)

Lemma steady_show w msg : steady w → steady (GUI.show w msg).
Proof. intros (Hag & Hsync & Hb). done. Qed.

Lemma steady_agrees w : steady w → agrees w.
Proof. by intros (? & _). Qed.

Lemma click_on_grid w r c :
  agrees w → 0 ≤ r < GUI.w_rows w ∧ 0 ≤ c < GUI.w_cols w →
  in_bounds (GUI.w_board w) r c = true.
Proof. intros (Hr & Hc & _) H. apply in_bounds_spec. by rewrite <- Hr, <- Hc. Qed.

Lemma left_click_steady w r c rnd :
  steady w → 0 ≤ r < GUI.w_rows w ∧ 0 ≤ c < GUI.w_cols w →
  ∃ h, GUI.left_click w r c rnd = Some h ∧ steady (GUI.window_of h) ∧
       ∀ e w', h = GUI.Failed e w' →
         e = ValueError ∧ w' = w ∧ placed (GUI.w_board w) = false ∧
         game_over (GUI.w_board w) = false.
Proof.
  intros Hst Hrc. pose proof (steady_agrees w Hst) as Hag.
  destruct (presentable_call (GUI.w_board w) (Reveal r c rnd) (steady_presentable w Hst))
    as (o & Ho & Hpres & Hr & Hc & _ & _ & Hfail); [by apply click_on_grid|].
  simpl in Ho. unfold GUI.left_click. rewrite Ho. simpl.
  destruct o as [b1|e b1]; simpl in *.
  - destruct (refresh_steady (GUI.with_board w b1)) as (w' & -> & Hst' & _);
      [by apply agrees_with_board|done|].
    eexists. split; [done|]. split; [done|]. done.
  - destruct (Hfail e b1 eq_refl) as (-> & -> & Hpl & Hg & _).
    rewrite with_board_id. eexists. split; [done|]. split; [done|].
    by intros e' w' [= <- <-].
Qed.

Lemma right_click_steady w r c :
  steady w → 0 ≤ r < GUI.w_rows w ∧ 0 ≤ c < GUI.w_cols w →
  ∃ w', GUI.right_click w r c = GUI.Returned w' ∧ steady w'.
Proof.
  intros Hst Hrc. pose proof (steady_agrees w Hst) as Hag.
  destruct (presentable_call (GUI.w_board w) (ToggleFlag r c) (steady_presentable w Hst))
    as (o & Ho & Hpres & Hr & Hc & _ & _ & Hfail); [by apply click_on_grid|].
  simpl in Ho. injection Ho as Ho. unfold GUI.right_click. rewrite Ho.
  destruct o as [b1|e b1]; simpl in *.
  - destruct (refresh_steady (GUI.with_board w b1)) as (w' & -> & Hst' & _);
      [by apply agrees_with_board|done|]. eauto.
  - destruct (Hfail e b1 eq_refl) as (_ & _ & _ & _ & ? & ? & ? & [=]).
Qed.

Lemma in_view_in_bounds b p : in_view (rows b) (cols b) p ↔ in_bounds b p.1 p.2 = true.
Proof. by rewrite in_bounds_spec. Qed.

Lemma autoplay_step_steady w rnd :
  steady w →
  ∃ h, GUI.autoplay_step w rnd = Some h ∧ steady (GUI.window_of h) ∧
       ∀ e w', h = GUI.Failed e w' →
         e = ValueError ∧ w' = w ∧ placed (GUI.w_board w) = false ∧
         game_over (GUI.w_board w) = false.
Proof.
  intros Hst. pose proof Hst as (Hag & Hsync & Hb). pose proof Hag as (Hr & Hc & _).
  unfold GUI.autoplay_step. rewrite (get_solver_board_agrees w Hag), Hr, Hc.
  destruct Hb as [[Hg Hpl]|(b0 & Hpl & Hg & Hb0)].
  - set (b := GUI.w_board w) in *.
    pose proof (reachable_Inv b (played_reachable b Hpl)) as HI.
    assert (¬ lost b) as Hnl by (intros [? _]; congruence).
    rewrite (get_solver_board_spec b HI).
    destruct (solution_view_of b Hpl Hnl) as [[[a U] Hrun]| ->].
    2:{ eexists. split; [done|]. split; [by apply steady_show|]. done. }
    rewrite Hrun.
    destruct (solution_move _ _ _ _ _ (mat_shape_view_of b) Hrun) as (Ha & _ & _ & HU).
    destruct (apply_move_spec a U rnd w Hpl Ha) as (h & -> & Hh).
    { intros p Hp. apply in_view_in_bounds. by apply HU. }
    simpl. destruct h as [w'|e w']; simpl.
    + destruct Hh as (b' & -> & Hpl' & Hr' & Hc' & _).
      destruct (refresh_steady (GUI.with_board w b')) as (w' & -> & Hst' & _);
        [by apply agrees_with_board|by left|].
      eexists. split; [done|]. split; [done|]. done.
    + destruct Hh as (-> & -> & Hpl' & _). eexists. split; [done|]. split; [done|].
      by intros e' w' [= <- <-].
  - pose proof (reachable_Inv b0 (played_reachable b0 Hpl)) as HI.
    rewrite Hb0. destruct (get_solver_board_shown_all b0 HI) as (view & -> & Hsh & Hno).
    destruct (solution_no_unseen view (rows b0) (cols b0) Hsh Hno) as [e He].
    change (rows (shown_all b0)) with (rows b0).
    change (cols (shown_all b0)) with (cols b0). rewrite He.
    eexists. split; [done|]. split; [by apply steady_show|]. done.
Qed.

Lemma apply_settings_steady w r c m :
  steady w → on_screen w (Apply_settings r c m) →
  ∃ w', GUI.apply_settings w r c m = GUI.Returned w' ∧ steady w'.
Proof.
  intros Hst [Hbad|(vr & vc & vm & Hr & Hc & Hm)]; unfold GUI.apply_settings.
  - rewrite Hbad. eexists. split; [done|]. by apply steady_show.
  - rewrite Hr, Hc, Hm.
    destruct (new_game_steady (GUI.with_mines (GUI.with_cols (GUI.with_rows w vr) vc) vm))
      as (w' & -> & Hst' & _). eauto.
Qed.

Lemma handle_steady w ev :
  steady w → on_screen w ev →
  ∃ h, handle w ev = Some h ∧ steady (GUI.window_of h) ∧
       ∀ e w', h = GUI.Failed e w' →
         e = ValueError ∧ w' = w ∧ placed (GUI.w_board w) = false ∧
         game_over (GUI.w_board w) = false ∧
         ∃ rnd, ev = Autoplay_step rnd ∨ ∃ r c, ev = Left_click r c rnd.
Proof.
  intros Hst Hev.
  destruct ev as [|r c m|r c rnd|r c|rnd]; simpl in *.
  - destruct (new_game_steady w) as (w' & -> & Hst' & _).
    eexists. split; [done|]. split; [done|]. done.
  - destruct (apply_settings_steady w r c m Hst Hev) as (w' & -> & Hst').
    eexists. split; [done|]. split; [done|]. done.
  - destruct (left_click_steady w r c rnd Hst Hev) as (h & -> & Hst' & Hfail).
    eexists. split; [done|]. split; [done|]. intros e w' ->.
    destruct (Hfail e w' eq_refl) as (-> & -> & Hpl & Hg). do 4 (split; [done|]).
    exists rnd. right. eauto.
  - destruct (right_click_steady w r c Hst Hev) as (w' & -> & Hst').
    eexists. split; [done|]. split; [done|]. done.
  - destruct (autoplay_step_steady w rnd Hst) as (h & -> & Hst' & Hfail).
    eexists. split; [done|]. split; [done|]. intros e w' ->.
    destruct (Hfail e w' eq_refl) as (-> & -> & Hpl & Hg). do 4 (split; [done|]).
    exists rnd. by left.
Qed.

Lemma displayed_steady w : displayed w → steady w.
Proof.
  induction 1 as [|w ev h _ IH Hev Hh]; [apply init_steady|].
  destruct (handle_steady w ev IH Hev) as (h' & Hh' & Hst & _). congruence.
Qed.

(** X17.  In a running window whose settings are whole, no handler ends
    in an exception, except for the [ValueError] of a first reveal whose
    mine count does not fit, which leaves the window as it was; and after
    every handler the window has the sizes of its board and each button
    shows its cell. *)
Theorem handlers_keep_window w ev :
  displayed w → on_screen w ev →
  ∃ h, handle w ev = Some h ∧
       agrees (GUI.window_of h) ∧ in_sync (GUI.window_of h) ∧
       ∀ e w', h = GUI.Failed e w' →
         e = ValueError ∧ w' = w ∧ placed (GUI.w_board w) = false ∧
         game_over (GUI.w_board w) = false ∧
         ∃ rnd, ev = Autoplay_step rnd ∨ ∃ r c, ev = Left_click r c rnd.
Proof.
  intros Hw Hev.
  destruct (handle_steady w ev (displayed_steady w Hw) Hev) as (h & Hh & (? & ? & _) & ?).
  by exists h.
Qed.

Lemma handlers_keep_window_witness :
  displayed (GUI.window_of GUI.init) ∧
  on_screen (GUI.window_of GUI.init) (Right_click 0 0) ∧
  ∃ h, handle (GUI.window_of GUI.init) (Right_click 0 0) = Some h ∧
       agrees (GUI.window_of h) ∧ in_sync (GUI.window_of h) ∧
       ∀ e w', h = GUI.Failed e w' →
         e = ValueError ∧ w' = GUI.window_of GUI.init ∧
         placed (GUI.w_board (GUI.window_of GUI.init)) = false ∧
         game_over (GUI.w_board (GUI.window_of GUI.init)) = false ∧
         ∃ rnd, Right_click 0 0 = Autoplay_step rnd ∨
                ∃ r c, Right_click 0 0 = Left_click r c rnd.
Proof.
  assert (on_screen (GUI.window_of GUI.init) (Right_click 0 0)) as Hev.
  { vm_compute. repeat split; discriminate. }
  split; [apply displayed_init|]. split; [exact Hev|].
  exact (handlers_keep_window _ _ displayed_init Hev).
Defined.

(** X18.  When the game of a running window is over, [end_game] has
    opened every cell: each cell of the grid is marked revealed, its
    button is disabled, and the button of every mine, flagged or not,
    shows the mine. *)
Theorem game_end_shows_all w r c :
  displayed w → game_over (GUI.w_board w) = true →
  in_bounds (GUI.w_board w) r c = true →
  get2 (revealed (GUI.w_board w)) r c = Ok true ∧
  ∃ btn, get2 (GUI.w_buttons w) r c = Ok btn ∧
         GUI.btn_state btn = GUI.DISABLED ∧
         ((r, c) ∈ mines (GUI.w_board w) → GUI.text btn = "*").
Proof.
  intros Hw Hg Hin.
  destruct (displayed_steady w Hw) as (Hag & Hsync & [[? _]|(b0 & Hpl & Hg0 & Hb0)]);
    [congruence|].
  assert (get2 (revealed (GUI.w_board w)) r c = Ok true) as Hv.
  { rewrite Hb0. apply get2_shown_all. by rewrite Hb0 in Hin. }
  split; [done|]. destruct (Hsync r c Hin) as (btn & Hbtn & Htext & Hstate).
  exists btn. split; [done|]. split; [by apply Hstate|].
  intros Hm. rewrite Htext. unfold label. simpl.
  rewrite decide_True by done. by rewrite decide_True.
Qed.

Lemma displayed_after_event w ev :
  displayed w → on_screen w ev → displayed (after_event w ev).
Proof.
  intros Hw Hev. unfold after_event. destruct (handle w ev) as [h|] eqn:Hh; [|done].
  by apply (displayed_event w ev h).
Qed.

Lemma displayed_won_window : displayed won_window.
Proof.
  apply displayed_after_event; [apply displayed_after_event; [apply displayed_init|]|].
  - right. exists 1, 1, 1. by vm_compute.
  - vm_compute. repeat split; discriminate.
Qed.

Lemma game_end_shows_all_witness :
  displayed won_window ∧ game_over (GUI.w_board won_window) = true ∧
  in_bounds (GUI.w_board won_window) 0 0 = true ∧
  get2 (revealed (GUI.w_board won_window)) 0 0 = Ok true ∧
  ∃ btn, get2 (GUI.w_buttons won_window) 0 0 = Ok btn ∧
         GUI.btn_state btn = GUI.DISABLED ∧
         ((0, 0) ∈ mines (GUI.w_board won_window) → GUI.text btn = "*").
Proof.
  assert (game_over (GUI.w_board won_window) = true) as Hg by (vm_compute; reflexivity).
  assert (in_bounds (GUI.w_board won_window) 0 0 = true) as Hin
    by (vm_compute; reflexivity).
  split; [apply displayed_won_window|]. split; [exact Hg|]. split; [exact Hin|].
  exact (game_end_shows_all won_window 0 0 displayed_won_window Hg Hin).
Defined.

(** ** The automatic step after the end *)

Lemma autoplay_step_ended w rnd b0 :
  agrees w → played b0 → GUI.w_board w = shown_all b0 →
  ∃ e, GUI.autoplay_step w rnd = Some (GUI.Returned (GUI.show w (GUI.AutoPlay_failed e))).
Proof.
  intros Hag Hpl Hb0. pose proof Hag as (Hr & Hc & _).
  pose proof (reachable_Inv b0 (played_reachable b0 Hpl)) as HI.
  unfold GUI.autoplay_step. rewrite (get_solver_board_agrees w Hag), Hr, Hc, Hb0.
  destruct (get_solver_board_shown_all b0 HI) as (view & -> & Hsh & Hno).
  destruct (solution_no_unseen view (rows b0) (cols b0) Hsh Hno) as [e He].
  change (rows (shown_all b0)) with (rows b0).
  change (cols (shown_all b0)) with (cols b0). rewrite He. eauto.
Qed.

(** X19.  Once the game of a running window is over the automatic step
    changes nothing: the view has no unseen cell, the solver raises, and
    the step only shows the message of the exception. *)
Theorem autoplay_after_end w rnd :
  displayed w → game_over (GUI.w_board w) = true →
  ∃ e, GUI.autoplay_step w rnd
         = Some (GUI.Returned (GUI.show w (GUI.AutoPlay_failed e))).
Proof.
  intros Hw Hg.
  destruct (displayed_steady w Hw) as (Hag & _ & [[? _]|(b0 & Hpl & _ & Hb0)]);
    [congruence|].
  by apply (autoplay_step_ended w rnd b0).
Qed.

Lemma autoplay_after_end_witness :
  displayed won_window ∧ game_over (GUI.w_board won_window) = true ∧
  ∃ e, GUI.autoplay_step won_window []
         = Some (GUI.Returned (GUI.show won_window (GUI.AutoPlay_failed e))).
Proof.
  assert (game_over (GUI.w_board won_window) = true) as Hg by (vm_compute; reflexivity).
  split; [apply displayed_won_window|]. split; [exact Hg|].
  exact (autoplay_after_end won_window [] displayed_won_window Hg).
Defined.

(** ** Settings that are applied by halves *)

Lemma classify_presentable b r c :
  presentable b → in_bounds b r c = true → ∃ s, classify_cell b r c = Ok s.
Proof.
  intros [Hpl|(b0 & Hpl & _ & ->)] Hin.
  - rewrite classify_cell_spec; [by eexists| |done].
    apply (reachable_Inv b (played_reachable b Hpl)).
  - destruct (classify_shown_all b0 r c) as (s & -> & _); [|done|by eexists].
    apply (reachable_Inv b0 (played_reachable b0 Hpl)).
Qed.

(** The classifier over more rows than the board has. *)
Lemma get_solver_board_rows w :
  presentable (GUI.w_board w) → GUI.w_cols w = cols (GUI.w_board w) →
  Z.max 0 (rows (GUI.w_board w)) < GUI.w_rows w → 0 < cols (GUI.w_board w) →
  GUI.get_solver_board w = Raise IndexError.
Proof.
  intros Hb Hc Hr Hpos. set (b := GUI.w_board w) in *.
  pose proof (presentable_shaped b Hb) as (_ & Hfl & _).
  unfold GUI.get_solver_board, get_solver_board. fold b. rewrite Hc.
  destruct (range_split (Z.max 0 (rows b)) (GUI.w_rows w)) as [rest ->]; [lia|].
  apply mapM_Raise.
  - intros r Hr'%elem_of_range. apply mapM_total. intros c Hc'%elem_of_range.
    apply classify_presentable; [done|]. apply in_bounds_spec. lia.
  - destruct (range_split 0 (cols b)) as [rest' ->]; [lia|].
    apply (mapM_Raise _ []); [by intros y []%elem_of_nil|].
    unfold classify_cell. rewrite (position_None_get2 b (flagged b)); [done..|].
    apply position_outside. lia.
Qed.

(** X20.  [apply_settings] stores each size as soon as it is read: when
    the first entry is a numeral and the second is not, the board and the
    buttons stay, but the window keeps the new number of rows.  If that
    number exceeds the rows of the board, the automatic step then ends in
    an [IndexError] raised by the classifier. *)
Theorem half_applied_settings w rows_entry cols_entry mines_entry v rnd :
  displayed w → py_int rows_entry = Ok v → py_int cols_entry = Raise ValueError →
  ∃ w1, GUI.apply_settings w rows_entry cols_entry mines_entry = GUI.Returned w1 ∧
        w1 = GUI.show (GUI.with_rows w v) GUI.Invalid_settings ∧
        (Z.max 0 (rows (GUI.w_board w)) < v → 0 < cols (GUI.w_board w) →
         GUI.autoplay_step w1 rnd = Some (GUI.Failed IndexError w1)).
Proof.
  intros Hw Hr Hc. unfold GUI.apply_settings. rewrite Hr, Hc.
  eexists. split; [done|]. split; [done|]. intros Hv Hpos.
  pose proof (displayed_steady w Hw) as Hst. pose proof (steady_agrees w Hst) as (_ & Hc' & _).
  unfold GUI.autoplay_step.
  rewrite get_solver_board_rows; [done|exact (steady_presentable w Hst)|done..].
Qed.

Lemma half_applied_settings_witness :
  displayed (GUI.window_of GUI.init) ∧
  py_int "25" = Ok 25 ∧ py_int "2o" = Raise ValueError ∧
  Z.max 0 (rows (GUI.w_board (GUI.window_of GUI.init))) < 25 ∧
  0 < cols (GUI.w_board (GUI.window_of GUI.init)) ∧
  GUI.autoplay_step
    (GUI.show (GUI.with_rows (GUI.window_of GUI.init) 25) GUI.Invalid_settings) []
    = Some (GUI.Failed IndexError
              (GUI.show (GUI.with_rows (GUI.window_of GUI.init) 25) GUI.Invalid_settings)).
Proof.
  assert (py_int "25" = Ok 25) as Hr by (vm_compute; reflexivity).
  assert (py_int "2o" = Raise ValueError) as Hc by (vm_compute; reflexivity).
  assert (Z.max 0 (rows (GUI.w_board (GUI.window_of GUI.init))) < 25) as Hv
    by (vm_compute; reflexivity).
  assert (0 < cols (GUI.w_board (GUI.window_of GUI.init))) as Hpos
    by (vm_compute; reflexivity).
  do 5 (split; [first [apply displayed_init|assumption]|]).
  destruct (half_applied_settings (GUI.window_of GUI.init) "25" "2o" "80" 25 []
              displayed_init Hr Hc) as (w1 & _ & -> & H).
  exact (H Hv Hpos).
Defined.

(** ** The automatic player *)

Lemma flags_right_shown_all b : flags_right b → flags_right (shown_all b).
Proof. done. Qed.

(** A call keeps the flags on mines, when a flag it sets goes on a mine. *)
Lemma flags_right_call b k o :
  played b → flags_right b → in_bounds b (call_cell k).1 (call_cell k).2 = true →
  (∀ r c, k = ToggleFlag r c → (r, c) ∈ mines b) →
  perform b k = Some o → flags_right (state_of o).
Proof.
  intros Hpl Hfr Hin Hk Ho. pose proof (reachable_Inv b (played_reachable b Hpl)) as HI.
  pose proof (perform_Inv b k o HI Ho) as HI'.
  destruct (perform_effect b k o HI Ho) as (Hr & Hc & _ & Heff).
  destruct (perform_same_layout b k o HI Ho) as (_ & _ & _ & Hlay).
  intros r c Hrc Hf. rewrite (in_bounds_ext b) in Hrc by done.
  destruct k as [r0 c0 rnd|r0 c0].
  - rewrite Heff in Hf. pose proof (Hfr r c Hrc Hf) as Hm.
    destruct (placed b) eqn:Hplaced.
    + destruct Hlay as (_ & _ & ->); done.
    + destruct (inv_unplaced b HI Hplaced) as (_ & Hno & _). set_solver.
  - simpl in Ho. injection Ho as <-.
    destruct (toggle_flag_fields b r0 c0 HI) as (_ & _ & _ & -> & _).
    destruct Heff as [_ Hfl]. simpl in Hin.
    destruct (decide ((r, c) = (r0, c0))) as [[= -> ->]|Hne]; [by apply Hk|].
    apply Hfr; [done|]. apply (get2_cell b); [apply HI|done|].
    rewrite <- Hfl.
    + apply (get2_cell (state_of (toggle_flag b r0 c0))); [apply HI'| |done].
      by rewrite (in_bounds_ext b).
    + rewrite (position_in_bounds b (r0, c0) Hin). simpl. intros [= ? ?].
      apply in_bounds_spec in Hin, Hrc. apply Hne. f_equal; lia.
Qed.

Lemma apply_move_flags a U rnd w h :
  played (GUI.w_board w) → flags_right (GUI.w_board w) →
  a = 0 ∨ (a = 1 ∧ ∀ p, p ∈ U → p ∈ mines (GUI.w_board w)) →
  (∀ p, p ∈ U → in_bounds (GUI.w_board w) p.1 p.2 = true) →
  GUI.apply_move a U rnd w = Some h → flags_right (GUI.w_board (GUI.window_of h)).
Proof.
  revert w. induction U as [|[r c] U IH]; intros w Hpl Hfr Ha HU Hrun.
  { simpl in Hrun. by injection Hrun as <-. }
  pose proof (HU (r, c) ltac:(left)) as Hin. simpl in Hin.
  set (b := GUI.w_board w) in *.
  pose proof (reachable_Inv b (played_reachable b Hpl)) as HI.
  set (k := if bool_decide (a = 0) then Reveal r c rnd else ToggleFlag r c).
  assert (in_bounds b (call_cell k).1 (call_cell k).2 = true) as Hink.
  { unfold k. by case_bool_decide. }
  destruct (presentable_call b k (or_introl Hpl) Hink) as (o & Ho & _ & Hr & Hc & _).
  assert (played (state_of o)) as Hpl' by (by apply (played_call b k o)).
  assert (flags_right (state_of o)) as Hfr'.
  { apply (flags_right_call b k o); try done. intros r' c' Hk.
    destruct Ha as [->|[-> Hm]]; [done|]. unfold k in Hk. simpl in Hk.
    injection Hk as <- <-. apply (Hm (r, c)). by left. }
  assert (mines b ≠ ∅ → mines (state_of o) = mines b) as Hmines.
  { intros Hne. destruct (perform_same_layout b k o HI Ho) as (_ & _ & _ & Hlay).
    destruct (placed b) eqn:Hplaced; [by destruct Hlay as (_ & _ & ->)|].
    by destruct (inv_unplaced b HI Hplaced) as (_ & ? & _). }
  assert (GUI.apply_move a ((r, c) :: U) rnd w =
            match GUI.on_board w o with
            | GUI.Returned w' => GUI.apply_move a U rnd w'
            | GUI.Failed e w' => Some (GUI.Failed e w')
            end) as Hstep.
  { simpl. fold b. unfold k in Ho. destruct Ha as [-> |[-> _]]; simpl in *.
    - by rewrite Ho.
    - by injection Ho as <-. }
  rewrite Hstep in Hrun. destruct o as [b1|e b1]; simpl in *.
  - apply (IH (GUI.with_board w b1)); simpl; try done.
    + destruct Ha as [?|[? Hm]]; [by left|]. right. split; [done|].
      intros p Hp. rewrite Hmines; [apply Hm; by right|].
      specialize (Hm p ltac:(by right)). set_solver.
    + intros p Hp. rewrite (in_bounds_ext b b1) by done. apply HU. by right.
  - by injection Hrun as <-.
Qed.

Lemma fresh_flags_right nr nc nm : flags_right (Board_init nr nc nm).
Proof.
  intros r c Hin Hf. apply (get2_cell (Board_init nr nc nm)) in Hf;
    [|apply mat_shape_fresh|done]. by apply mget_fresh in Hf.
Qed.

Lemma autoplayed_steady w : autoplayed w → steady w ∧ flags_right (GUI.w_board w).
Proof.
  induction 1 as [w|w rnd h _ [Hst Hfr] Hrun].
  { destruct (new_game_steady w) as (w' & Hrun & Hst & Hbd & _). rewrite Hrun. simpl.
    split; [done|]. rewrite Hbd. apply fresh_flags_right. }
  destruct (autoplay_step_steady w rnd Hst) as (h' & Hrun' & Hst' & _).
  rewrite Hrun in Hrun'. injection Hrun' as <-. split; [done|].
  pose proof Hst as (Hag & _ & Hb). pose proof Hag as (Hr & Hc & _).
  unfold GUI.autoplay_step in Hrun.
  rewrite (get_solver_board_agrees w Hag), Hr, Hc in Hrun.
  destruct Hb as [[Hg Hpl]|(b0 & Hpl & Hg & Hb0)].
  - set (b := GUI.w_board w) in *.
    pose proof (reachable_Inv b (played_reachable b Hpl)) as HI.
    assert (¬ lost b) as Hnl by (intros [? _]; congruence).
    rewrite (get_solver_board_spec b HI) in Hrun.
    destruct (AutoPlay.solution (view_of b) (rows b) (cols b)) as [[a U]|e] eqn:Hsol.
    2:{ by injection Hrun as <-. }
    destruct (solution_move _ _ _ _ _ (mat_shape_view_of b) Hsol) as (Ha & _ & _ & HU).
    assert (∀ p, p ∈ U → in_bounds b p.1 p.2 = true) as HU'.
    { intros p Hp. apply in_view_in_bounds. by apply HU. }
    destruct (apply_move_spec a U rnd w Hpl Ha HU') as (h1 & Hh1 & Hcase).
    rewrite Hh1 in Hrun. simpl in Hrun. injection Hrun as <-.
    assert (flags_right (GUI.w_board (GUI.window_of h1))) as Hfr1.
    { apply (apply_move_flags a U rnd w h1 Hpl Hfr); [|done..].
      destruct Ha as [->| ->]; [by left|]. right. split; [done|].
      by apply flag_move_mines. }
    destruct h1 as [w1|e w1]; simpl in *; [|done].
    destruct Hcase as (b' & -> & Hpl' & Hr' & Hc' & _).
    destruct (refresh_steady (GUI.with_board w b')) as (w' & -> & _ & _ & _ & _ & Hbd & _);
      [by apply agrees_with_board|by left|].
    simpl in *. rewrite Hbd. by destruct (game_over b').
  - destruct (autoplay_step_ended w rnd b0 Hag Hpl Hb0) as [e He].
    unfold GUI.autoplay_step in He.
    rewrite (get_solver_board_agrees w Hag), Hr, Hc in He. rewrite He in Hrun.
    by injection Hrun as <-.
Qed.

(** X21.  In a game that only the automatic step plays, every flag of
    the grid stands on a mine. *)
Theorem autoplay_flags_mines w r c :
  autoplayed w → in_bounds (GUI.w_board w) r c = true →
  get2 (flagged (GUI.w_board w)) r c = Ok true → (r, c) ∈ mines (GUI.w_board w).
Proof. intros Hw. by apply (autoplayed_steady w Hw). Qed.

Lemma autoplayed_after_event w ev :
  autoplayed w → (∃ rnd, ev = Autoplay_step rnd) → autoplayed (after_event w ev).
Proof.
  intros Hw [rnd ->]. unfold after_event. simpl.
  destruct (GUI.autoplay_step w rnd) as [h|] eqn:Hh; [|done].
  by apply (autoplayed_step w rnd h).
Qed.

Lemma autoplayed_auto_flagged : autoplayed auto_flagged.
Proof.
  unfold auto_flagged, auto_opened.
  repeat (apply autoplayed_after_event; [|by eexists]). apply autoplayed_new.
Qed.

Lemma autoplay_flags_mines_witness :
  autoplayed auto_flagged ∧ in_bounds (GUI.w_board auto_flagged) 0 1 = true ∧
  get2 (flagged (GUI.w_board auto_flagged)) 0 1 = Ok true ∧
  (0, 1) ∈ mines (GUI.w_board auto_flagged).
Proof.
  assert (in_bounds (GUI.w_board auto_flagged) 0 1 = true) as Hin
    by (vm_compute; reflexivity).
  assert (get2 (flagged (GUI.w_board auto_flagged)) 0 1 = Ok true) as Hf
    by (vm_compute; reflexivity).
  split; [apply autoplayed_auto_flagged|]. split; [exact Hin|]. split; [exact Hf|].
  exact (autoplay_flags_mines auto_flagged 0 1 autoplayed_auto_flagged Hin Hf).
Defined.

(** The scan returns the move of the first cell that has one. *)
Lemma scan_first view m n ps d :
  (∀ p, p ∈ ps → (∃ res, AutoPlay.check view p.1 p.2 m n = Ok res) ∧
                 ∃ s, get2 view p.1 p.2 = Ok s) →
  (∃ p mv, p ∈ ps ∧ AutoPlay.check view p.1 p.2 m n = Ok (Some mv)) →
  ∃ p mv, p ∈ ps ∧ AutoPlay.check view p.1 p.2 m n = Ok (Some mv) ∧
          AutoPlay.scan view m n ps d = Ok mv.
Proof.
  revert d. induction ps as [|[i j] ps IH]; intros d Hps (p & mv & Hp & Hc).
  { by apply elem_of_nil in Hp. }
  destruct (Hps (i, j)) as [[res Hres] [s Hs]]; [by left|]. simpl in Hres, Hs.
  simpl. rewrite Hres, Hs. simpl. destruct res as [mv'|].
  { exists (i, j), mv'. split; [by left|done]. }
  apply elem_of_cons in Hp as [->|Hp]; [simpl in Hc; congruence|].
  destruct (IH (if bool_decide (s = AutoPlay.UNSEEN) then (i, j) else d))
    as (p' & mv' & Hp' & Hc' & Hrun).
  { intros q Hq. apply Hps. by right. }
  { by exists p, mv. }
  exists p', mv'. split; [by right|done].
Qed.

Lemma check_total_view b t k :
  played b → ¬ lost b → in_bounds b t k = true →
  ∃ res, AutoPlay.check (view_of b) t k (rows b) (cols b) = Ok res.
Proof.
  intros Hpl Hnl Hin. rewrite (check_cases _ _ _ _ _ (mat_shape_view_of b)).
  rewrite get2_view_of by done. destruct (decide _); [by eexists|].
  destruct (played_symbol b (t, k) Hpl Hnl Hin) as [?|[?|(_ & _ & -> & _)]];
    [tauto..|by eexists].
Qed.

(** The loop of [autoplay_step] over a move that is sound. *)
Lemma apply_move_safe a U rnd w h :
  played (GUI.w_board w) → placed (GUI.w_board w) = true → ¬ lost (GUI.w_board w) →
  a = 1 ∨ (a = 0 ∧ ∀ p, p ∈ U → p ∉ mines (GUI.w_board w)) →
  (∀ p, p ∈ U → in_bounds (GUI.w_board w) p.1 p.2 = true) →
  GUI.apply_move a U rnd w = Some h → ¬ lost (GUI.w_board (GUI.window_of h)).
Proof.
  revert w. induction U as [|[r c] U IH]; intros w Hpl Hplaced Hnl Ha HU Hrun.
  { simpl in Hrun. by injection Hrun as <-. }
  pose proof (HU (r, c) ltac:(left)) as Hin. simpl in Hin.
  set (b := GUI.w_board w) in *.
  pose proof (reachable_Inv b (played_reachable b Hpl)) as HI.
  set (k := if bool_decide (a = 0) then Reveal r c rnd else ToggleFlag r c).
  assert (in_bounds b (call_cell k).1 (call_cell k).2 = true) as Hink.
  { unfold k. by case_bool_decide. }
  destruct (presentable_call b k (or_introl Hpl) Hink) as (o & Ho & _ & Hr & Hc & _ & Hover & _).
  assert (played (state_of o)) as Hpl' by (by apply (played_call b k o)).
  destruct (perform_same_layout b k o HI Ho) as (_ & _ & _ & Hlay).
  destruct (Hlay Hplaced) as (Hplaced' & _ & Hmines).
  assert (¬ lost (state_of o)) as Hnl'.
  { destruct (game_over b) eqn:Hg; [by rewrite (Hover eq_refl)|].
    intros Hl. destruct (loss_cases b k o HI Hg Ho Hl) as (r' & c' & rnd' & Hk & Hm & _).
    unfold k in Hk. destruct Ha as [->|[-> Hsafe]]; simpl in Hk; [done|].
    injection Hk as <- <- _. apply (Hsafe (r, c)); [by left|done]. }
  assert (GUI.apply_move a ((r, c) :: U) rnd w =
            match GUI.on_board w o with
            | GUI.Returned w' => GUI.apply_move a U rnd w'
            | GUI.Failed e w' => Some (GUI.Failed e w')
            end) as Hstep.
  { simpl. fold b. unfold k in Ho. destruct Ha as [-> |[-> _]]; simpl in *.
    - by injection Ho as <-.
    - by rewrite Ho. }
  rewrite Hstep in Hrun. destruct o as [b1|e b1]; simpl in *.
  - apply (IH (GUI.with_board w b1)); simpl; try done.
    + destruct Ha as [?|[? Hsafe]]; [by left|]. right. split; [done|].
      intros p Hp. rewrite Hmines. apply Hsafe. by right.
    + intros p Hp. rewrite (in_bounds_ext b b1) by done. apply HU. by right.
  - by injection Hrun as <-.
Qed.

(** X22.  The automatic player loses only by guessing: in a game that
    only the automatic step plays, a step taken while some cell of the
    view gives [check] a move does not lose the game. *)
Theorem deduction_never_loses w rnd view t k mv h :
  autoplayed w → game_over (GUI.w_board w) = false →
  GUI.get_solver_board w = Ok view → in_bounds (GUI.w_board w) t k = true →
  AutoPlay.check view t k (GUI.w_rows w) (GUI.w_cols w) = Ok (Some mv) →
  GUI.autoplay_step w rnd = Some h →
  ¬ lost (GUI.w_board (GUI.window_of h)).
Proof.
  intros Hw Hg Hview Hin Hcheck Hrun.
  destruct (autoplayed_steady w Hw) as [Hst Hfr].
  pose proof Hst as (Hag & _ & Hb). pose proof Hag as (Hr & Hc & _).
  destruct Hb as [[_ Hpl]|(b0 & _ & Hg0 & Hb0)].
  2:{ rewrite Hb0 in Hg. simpl in Hg. congruence. }
  set (b := GUI.w_board w) in *.
  pose proof (reachable_Inv b (played_reachable b Hpl)) as HI.
  assert (¬ lost b) as Hnl by (intros [? _]; congruence).
  rewrite (get_solver_board_agrees w Hag) in Hview. fold b in Hview.
  rewrite (get_solver_board_spec b HI) in Hview.
  injection Hview as <-. rewrite Hr, Hc in Hcheck. fold b in Hcheck.
  unfold GUI.autoplay_step in Hrun.
  rewrite (get_solver_board_agrees w Hag), Hr, Hc in Hrun. fold b in Hrun.
  rewrite (get_solver_board_spec b HI) in Hrun.
  destruct (scan_first (view_of b) (rows b) (cols b) (grid_cells (rows b) (cols b)) (-1, -1))
    as ([t' k'] & [a U] & Hp'%elem_of_grid_cells%in_bounds_spec & Hc' & Hsol).
  { intros [i j] Hp%elem_of_grid_cells%in_bounds_spec. split.
    - by apply check_total_view.
    - rewrite get2_view_of by done. by eexists. }
  { exists (t, k), mv. split; [|done]. by apply elem_of_grid_cells, in_bounds_spec. }
  simpl in Hc'. fold (AutoPlay.solution (view_of b) (rows b) (cols b)) in Hsol.
  rewrite Hsol in Hrun.
  destruct (check_view b t' k' _ Hpl Hnl Hp' Hc') as (Hfl & Hrv & Hd).
  assert (placed b = true) as Hplaced.
  { destruct (placed b) eqn:E; [done|]. apply in_bounds_spec in Hp' as Hp2.
    apply (get2_cell b) in Hrv; [|apply HI|done].
    rewrite (mget_unplaced_revealed b _ _ HI E) in Hrv by (unfold nrows, ncols; lia).
    done. }
  destruct (deduction_sound b t' k' a U Hpl Hnl Hp' Hfl Hrv Hd) as [Hflag Hreveal].
  destruct (solution_move _ _ _ _ _ (mat_shape_view_of b) Hsol) as (Ha & _ & _ & HU).
  assert (∀ p, p ∈ U → in_bounds b p.1 p.2 = true) as HU'.
  { intros p Hp. apply in_view_in_bounds. by apply HU. }
  destruct (apply_move_spec a U rnd w Hpl Ha HU') as (h1 & Hh1 & Hcase).
  rewrite Hh1 in Hrun. simpl in Hrun. injection Hrun as <-.
  assert (¬ lost (GUI.w_board (GUI.window_of h1))) as Hnl1.
  { apply (apply_move_safe a U rnd w h1 Hpl Hplaced Hnl); [|done..].
    destruct Ha as [->| ->]; [right|by left]. split; [done|].
    apply Hreveal; [done|]. intros q [Hq _]%elem_of_neighbors. by apply Hfr. }
  destruct h1 as [w1|e w1]; simpl in *; [|done].
  destruct Hcase as (b' & -> & Hpl' & Hr' & Hc'' & _).
  destruct (refresh_steady (GUI.with_board w b')) as (w' & -> & _ & _ & _ & _ & Hbd & _);
    [by apply agrees_with_board|by left|].
  simpl in *. rewrite Hbd. by destruct (game_over b').
Qed.

Lemma deduction_never_loses_witness :
  autoplayed auto_flagged ∧ game_over (GUI.w_board auto_flagged) = false ∧
  GUI.get_solver_board auto_flagged
    = Ok [["F"; "F"; "#"]; ["2"; "2"; "1"]; ["0"; "0"; "0"]] ∧
  in_bounds (GUI.w_board auto_flagged) 1 1 = true ∧
  AutoPlay.check [["F"; "F"; "#"]; ["2"; "2"; "1"]; ["0"; "0"; "0"]] 1 1
      (GUI.w_rows auto_flagged) (GUI.w_cols auto_flagged)
    = Ok (Some (AutoPlay.REVEAL, [(0, 2)])) ∧
  GUI.autoplay_step auto_flagged []
    = Some (GUI.Returned (after_event auto_flagged (Autoplay_step []))) ∧
  ¬ lost (GUI.w_board (after_event auto_flagged (Autoplay_step []))).
Proof.
  assert (game_over (GUI.w_board auto_flagged) = false) as Hg
    by (vm_compute; reflexivity).
  assert (GUI.get_solver_board auto_flagged
            = Ok [["F"; "F"; "#"]; ["2"; "2"; "1"]; ["0"; "0"; "0"]]) as Hview
    by (vm_compute; reflexivity).
  assert (in_bounds (GUI.w_board auto_flagged) 1 1 = true) as Hin
    by (vm_compute; reflexivity).
  assert (AutoPlay.check [["F"; "F"; "#"]; ["2"; "2"; "1"]; ["0"; "0"; "0"]] 1 1
              (GUI.w_rows auto_flagged) (GUI.w_cols auto_flagged)
            = Ok (Some (AutoPlay.REVEAL, [(0, 2)]))) as Hcheck
    by (vm_compute; reflexivity).
  assert (GUI.autoplay_step auto_flagged []
            = Some (GUI.Returned (after_event auto_flagged (Autoplay_step [])))) as Hrun
    by (vm_compute; reflexivity).
  split; [apply autoplayed_auto_flagged|]. do 5 (split; [assumption|]).
  exact (deduction_never_loses auto_flagged [] _ 1 1 _ _
           autoplayed_auto_flagged Hg Hview Hin Hcheck Hrun).
Defined.

(** * The input and output of the network *)

Lemma encode_board_concat U F B board :
  AI.encode_board U F B board = AI.encode_cell U F B <$> concat board.
Proof.
  assert (∀ row : list string,
            row ≫= (λ cell, [AI.encode_cell U F B cell]) = AI.encode_cell U F B <$> row)
    as Hrow.
  { induction row as [|cell row IHrow]; [done|]. by rewrite bind_cons, IHrow. }
  unfold AI.encode_board. induction board as [|row board IH]; [done|].
  rewrite bind_cons, IH, Hrow. change (concat (row :: board)) with (row ++ concat board).
  by rewrite fmap_app.
Qed.

Lemma lookup_concat_shape {A} nr nc (m : list (list A)) i j :
  mat_shape nr nc m → (j < nc)%nat → concat m !! (i * nc + j)%nat = mget m i j.
Proof.
  intros [Hl Hf] Hj. clear Hl. revert i. induction Hf as [|row m Hrow Hf IH]; intros i.
  { simpl. unfold mget. by rewrite !lookup_nil. }
  simpl. destruct i as [|i].
  - simpl. rewrite lookup_app_l by lia. done.
  - rewrite lookup_app_r by lia. unfold mget in *. simpl.
    rewrite <- IH. f_equal. simpl. lia.
Qed.

Lemma length_concat_shape {A} nr nc (m : list (list A)) :
  mat_shape nr nc m → length (concat m) = (nr * nc)%nat.
Proof.
  intros [<- Hf]. induction Hf as [|row m Hrow Hf IH]; [done|].
  simpl. rewrite length_app, IH, Hrow. done.
Qed.

(** X23.  The flat input of the network is laid out row by row, and the
    index arithmetic of [make_guess] and [adjust_based_on_feedback] follows
    that layout: for a view of [nr] rows of [nc] cells the input has
    [nr * nc] entries, the entry at index [r * nc + c] encodes the cell
    [(r, c)], the index of a cell is decoded to that cell, and every index
    below [nr * nc] is decoded to a cell of the view with that index. *)
Theorem encoding_layout U F B view nr nc :
  mat_shape (Z.to_nat nr) (Z.to_nat nc) view →
  length (AI.encode_board U F B view) = (Z.to_nat nr * Z.to_nat nc)%nat ∧
  (∀ r c s, 0 ≤ r → 0 ≤ c → get2 view r c = Ok s →
     AI.encode_board U F B view !! Z.to_nat (AI.true_coord nc (r, c))
       = Some (AI.encode_cell U F B s) ∧
     AI.coord nc (AI.true_coord nc (r, c)) = Some (r, c)) ∧
  (∀ idx, 0 ≤ nr → 0 ≤ idx < nr * nc →
     ∃ r c, AI.coord nc idx = Some (r, c) ∧ in_view nr nc (r, c) ∧
            AI.true_coord nc (r, c) = idx).
Proof.
  intros Hv. split; [|split].
  - by rewrite encode_board_concat, length_fmap, (length_concat_shape _ _ _ Hv).
  - intros r c s Hr Hc Hs.
    apply (get2_Ok _ _ _ _ _ _ Hv) in Hs as (i & j & Hi & Hj & Hs).
    assert (0 ≤ r < nr ∧ Z.to_nat r = i) as [Hr' <-].
    { unfold py_index in Hi. repeat case_bool_decide; simplify_eq; lia. }
    assert (0 ≤ c < nc ∧ Z.to_nat c = j) as [Hc' <-].
    { unfold py_index in Hj. repeat case_bool_decide; simplify_eq; lia. }
    unfold AI.true_coord, AI.coord. simpl. split.
    + rewrite encode_board_concat, list_lookup_fmap.
      replace (Z.to_nat (r * nc + c)) with (Z.to_nat r * Z.to_nat nc + Z.to_nat c)%nat by nia.
      rewrite (lookup_concat_shape _ _ _ _ _ Hv) by lia. by rewrite Hs.
    + rewrite bool_decide_eq_false_2 by lia. f_equal. f_equal.
      * rewrite Z.div_add_l by lia. rewrite Z.div_small by lia. lia.
      * rewrite Z.add_comm, Z.mod_add by lia. apply Z.mod_small. lia.
  - intros idx Hnr Hidx.
    assert (0 < nc) as Hnc by nia.
    exists (idx `div` nc), (idx `mod` nc). unfold AI.coord, AI.true_coord, in_view. simpl.
    rewrite bool_decide_eq_false_2 by lia. split; [done|].
    pose proof (Z.mod_pos_bound idx nc Hnc). pose proof (Z.div_mod idx nc ltac:(lia)).
    assert (0 ≤ idx `div` nc) by (apply Z.div_pos; lia).
    assert (idx `div` nc < nr) by (apply Z.div_lt_upper_bound; nia).
    split; [lia|]. lia.
Qed.

Lemma encoding_layout_witness :
  mat_shape (Z.to_nat 2) (Z.to_nat 3) [["#"; "F"; "1"]; ["0"; "*"; "#"]] ∧
  AI.encode_board "#" "F" "*" [["#"; "F"; "1"]; ["0"; "*"; "#"]] !! 4%nat = Some (-2) ∧
  AI.coord 3 4 = Some (1, 1).
Proof.
  assert (mat_shape (Z.to_nat 2) (Z.to_nat 3) [["#"; "F"; "1"]; ["0"; "*"; "#"]]) as Hv.
  { split; [reflexivity|]. by repeat constructor. }
  split; [exact Hv|].
  destruct (encoding_layout "#" "F" "*" _ 2 3 Hv) as (_ & H & _).
  exact (H 1 1 "*" ltac:(done) ltac:(done) eq_refl).
Defined.

(** The codes of the symbols that the classifier writes. *)
Lemma encode_symbol b p :
  Inv b → in_bounds b p.1 p.2 = true →
  AI.encode_cell AutoPlay.UNSEEN AutoPlay.FLAGGED BOMB (shown b p) = code b p.
Proof.
  intros HI Hin. unfold code.
  destruct (shown_cases b p HI Hin)
    as [[-> Hf]|[(-> & Hf & Hv)|[(-> & Hf & Hv & Hm)|(-> & Hf & Hv & Hm)]]];
    rewrite ?Hf, ?Hv.
  - by rewrite decide_True.
  - by rewrite !decide_False.
  - rewrite decide_False, !decide_True by done. done.
  - rewrite decide_False, decide_True, decide_False by done.
    pose proof (adjacent_mines_range b p.1 p.2) as Hrange.
    set (v := adjacent_mines b p.1 p.2) in *. clearbody v.
    assert (v = 0 ∨ v = 1 ∨ v = 2 ∨ v = 3 ∨ v = 4 ∨ v = 5 ∨ v = 6 ∨ v = 7 ∨ v = 8)
      as H by lia.
    repeat (destruct H as [->|H]); try subst v; by vm_compute.
Qed.

(** X24.  With the cell codes that the classifier writes, and for a
    trainer whose [board_cols] is the number of columns of the window, the
    entry of the network's input for a cell of the view of a reachable
    board is -1 for a flagged cell, 0 for a closed one, -2 for an open
    mine and the number of mines around an open cell otherwise; so a
    closed cell and an open cell without mines around it get the same
    entry. *)
Theorem network_input w view r c :
  reachable (GUI.w_board w) → GUI.get_solver_board w = Ok view →
  0 ≤ r < GUI.w_rows w → 0 ≤ c < GUI.w_cols w →
  AI.encode_board AutoPlay.UNSEEN AutoPlay.FLAGGED BOMB view
    !! Z.to_nat (AI.true_coord (GUI.w_cols w) (r, c))
  = Some (code (GUI.w_board w) (r, c)).
Proof.
  intros HI%reachable_Inv Hview Hr Hc.
  destruct (get_solver_board_Ok _ _ _ _ HI Hview) as [-> Hin].
  set (nr := GUI.w_rows w) in *. set (nc := GUI.w_cols w) in *.
  set (b := GUI.w_board w) in *.
  pose proof (mat_shape_view_over nr nc b) as Hv.
  unfold AI.true_coord. simpl. rewrite encode_board_concat, list_lookup_fmap.
  replace (Z.to_nat (r * nc + c))
    with (Z.to_nat r * Z.to_nat nc + Z.to_nat c)%nat by nia.
  rewrite (lookup_concat_shape _ _ _ _ _ Hv) by lia.
  assert (in_bounds (Board_init nr nc 0) r c = true) as Hin'.
  { apply in_bounds_spec. simpl. lia. }
  rewrite (proj1 (get2_cell (Board_init nr nc 0) _ r c _ Hv Hin')
             (get2_view_over nr nc b r c Hr Hc)). simpl.
  f_equal. apply encode_symbol; [done|]. by apply Hin.
Qed.

Lemma network_input_witness :
  reachable two_opened ∧
  GUI.get_solver_board (GUI.mkWindow 1 5 1 two_opened [] [])
    = Ok [["#"; "F"; "0"; "1"; "#"]] ∧
  AI.encode_board AutoPlay.UNSEEN AutoPlay.FLAGGED BOMB [["#"; "F"; "0"; "1"; "#"]]
    !! Z.to_nat (AI.true_coord 5 (0, 2)) = Some (code two_opened (0, 2)).
Proof.
  assert (reachable two_opened) as Hreach.
  { unfold two_opened. repeat apply reachable_after. apply reachable_init. }
  assert (GUI.get_solver_board (GUI.mkWindow 1 5 1 two_opened [] [])
            = Ok [["#"; "F"; "0"; "1"; "#"]]) as Hview by (vm_compute; reflexivity).
  do 2 (split; [assumption|]).
  exact (network_input (GUI.mkWindow 1 5 1 two_opened [] []) _ 0 2 Hreach Hview
           ltac:(simpl; lia) ltac:(simpl; lia)).
Defined.

(** * Winning *)

(** Mines are only ever placed on a grid that has a cell. *)
Lemma placed_sizes b : reachable b → placed b = true → 0 < rows b ∧ 0 < cols b.
Proof.
  induction 1 as [nr nc nm|b k o Hreach IH Hk]; [done|]. intros Hpl.
  pose proof (reachable_Inv b Hreach) as HI.
  destruct (perform_effect b k o HI Hk) as (-> & -> & _).
  destruct (placed b) eqn:Hplb; [by apply IH|].
  destruct k as [r c rnd|r c]; simpl in Hk.
  - destruct (reveal_outcome b r c rnd o HI Hk)
      as [[-> _]|[[-> _]|(i & j & _ & Hp & _)]]; [simpl in Hpl; congruence..|].
    apply position_lt in Hp. unfold nrows, ncols in Hp. lia.
  - injection Hk as <-. destruct (toggle_flag_fields b r c HI) as (_ & _ & _ & _ & _ & _ & H).
    congruence.
Qed.

(** X25.  A game played on the grid is won as soon as every cell that is
    not a mine is open: with the mines placed and the game not lost, such
    a board has its victory set. *)
Theorem all_safe_open_wins b :
  played b → placed b = true → ¬ lost b →
  (∀ r c, in_bounds b r c = true → (r, c) ∉ mines b → get2 (revealed b) r c = Ok true) →
  victory b = true.
Proof.
  intros Hpl Hplaced Hnl Hopen. pose proof (played_reachable b Hpl) as Hreach.
  pose proof (reachable_Inv b Hreach) as HI.
  destruct (placed_sizes b Hreach Hplaced) as [Hr Hc].
  assert (revealed_count b = safe_cells b) as Hcount.
  { unfold revealed_count, safe_cells.
    pose proof (mines_on_grid b HI Hplaced) as Hmines.
    pose proof (filter_length_not (λ p, p ∈ mines b) (grid_cells (rows b) (cols b))) as Hsplit.
    rewrite length_grid_cells in Hsplit.
    pose proof (filter_length_le (λ p, get2 (revealed b) p.1 p.2 = Ok true)
                  (λ p, p ∉ mines b) (grid_cells (rows b) (cols b))) as Hle1.
    pose proof (filter_length_le (λ p, p ∉ mines b)
                  (λ p, get2 (revealed b) p.1 p.2 = Ok true)
                  (grid_cells (rows b) (cols b))) as Hle2.
    assert (length (filter (λ p, get2 (revealed b) p.1 p.2 = Ok true)
                      (grid_cells (rows b) (cols b)))
            = length (filter (λ p, p ∉ mines b) (grid_cells (rows b) (cols b)))) as ->.
    { apply Nat.le_antisymm.
      - apply Hle1. intros [r c] Hp%elem_of_grid_cells%in_bounds_spec Hv Hm.
        rewrite (played_no_mine b (r, c) Hpl Hnl Hp Hm) in Hv. done.
      - apply Hle2. intros [r c] Hp%elem_of_grid_cells%in_bounds_spec Hm.
        by apply Hopen. }
    nia. }
  destruct (game_over b) eqn:Hg.
  - destruct (victory b) eqn:Hv; [done|]. destruct Hnl. done.
  - pose proof (in_progress_count b Hreach Hg Hcount). congruence.
Qed.

Lemma all_safe_open_wins_witness :
  played (after (Board_init 1 3 1) (Reveal 0 2 [0%nat])) ∧
  placed (after (Board_init 1 3 1) (Reveal 0 2 [0%nat])) = true ∧
  ¬ lost (after (Board_init 1 3 1) (Reveal 0 2 [0%nat])) ∧
  (∀ r c, in_bounds (after (Board_init 1 3 1) (Reveal 0 2 [0%nat])) r c = true →
          (r, c) ∉ mines (after (Board_init 1 3 1) (Reveal 0 2 [0%nat])) →
          get2 (revealed (after (Board_init 1 3 1) (Reveal 0 2 [0%nat]))) r c = Ok true) ∧
  victory (after (Board_init 1 3 1) (Reveal 0 2 [0%nat])) = true.
Proof.
  set (b := after (Board_init 1 3 1) (Reveal 0 2 [0%nat])).
  assert (played b) as Hpl.
  { unfold b. apply played_after; [apply played_init|vm_compute; reflexivity]. }
  assert (placed b = true) as Hplaced by (vm_compute; reflexivity).
  assert (¬ lost b) as Hnl by (vm_compute; intros [_ H]; discriminate H).
  assert (∀ r c, in_bounds b r c = true → (r, c) ∉ mines b →
                 get2 (revealed b) r c = Ok true) as Hopen.
  { assert (rows b = 1) as Hr by (vm_compute; reflexivity).
    assert (cols b = 3) as Hc by (vm_compute; reflexivity).
    intros r c Hin%in_bounds_spec. rewrite Hr, Hc in Hin.
    assert (r = 0) as -> by lia.
    assert (c = 0 ∨ c = 1 ∨ c = 2) as [-> | [-> | ->]] by lia.
    - intros Hm. destruct Hm. vm_compute. tauto.
    - intros _. vm_compute. reflexivity.
    - intros _. vm_compute. reflexivity. }
  do 3 (split; [assumption|]). split; [exact Hopen|].
  exact (all_safe_open_wins b Hpl Hplaced Hnl Hopen).
Defined.

(** * The automatic step applies its move *)

(** A reveal that returns at an unflagged cell of the grid has opened
    it, unless the game is over. *)
Lemma reveal_opens b r c rnd b' :
  Inv b → in_bounds b r c = true → get2 (flagged b) r c = Ok false →
  reveal b r c rnd = Some (Done b') →
  game_over b' = true ∨ get2 (revealed b') r c = Ok true.
Proof.
  intros HI Hin Hf Hk. pose proof (inv_shaped b HI) as Hb.
  pose proof (position_in_bounds b (r, c) Hin) as Hp. simpl in Hp.
  apply (get2_position_Ok b _ (r, c) _ _ _ (proj1 (proj2 Hb)) Hp) in Hf.
  destruct (reveal_outcome b r c rnd _ HI Hk)
    as [[[= ->] [?|(i & j & Hp' & H)]]|[[[=] _]|(i & j & _ & Hp' & _ & _ & H)]].
  - by left.
  - rewrite Hp in Hp'. injection Hp' as <- <-. destruct H as [?|Hv]; [congruence|].
    right. by apply (get2_position_Ok b _ (r, c) _ _ _ (proj1 Hb) Hp).
  - rewrite Hp in Hp'. injection Hp' as <- <-.
    destruct H as [[[=] _]|(b1 & Hb1 & H)].
    destruct (mines_ready_spec b r c rnd b1 HI Hb1)
      as (HI1 & _ & _ & _ & Hr1 & Hc1 & _).
    destruct H as [[_ [= ->]]|(_ & m & _ & Hinv & Ho)]; [by left|]. right.
    assert (position b1 (r, c) = Some (Z.to_nat r, Z.to_nat c)) as Hp1.
    { unfold position, nrows, ncols in *. by rewrite Hr1, Hc1. }
    destruct Hinv as (Hsh & _ & _ & _ & _ & Hs).
    destruct (check_victory_fields (with_revealed b1 m) Hsh)
      as (b2 & Hcv & Hr2 & Hc2 & _ & _ & Hrv2 & _).
    rewrite Hcv in Ho. injection Ho as ->. rewrite Hrv2. simpl in *.
    apply (get2_position_Ok (with_revealed b1 m) _ (r, c) _ _ _ (proj1 Hsh) Hp1).
    destruct (Hs _ _ Hp1) as [?|?]; [done|set_solver].
Qed.

Lemma perform_keeps_open b k o q :
  Inv b → perform b k = Some o → in_bounds b q.1 q.2 = true →
  get2 (revealed b) q.1 q.2 = Ok true → get2 (revealed (state_of o)) q.1 q.2 = Ok true.
Proof.
  intros HI Hk Hin Hr.
  destruct (perform_effect b k o HI Hk) as (Hr' & Hc' & Hmono & _).
  pose proof (perform_Inv b k o HI Hk) as HI'.
  apply (get2_cell b) in Hr; [|apply HI|done].
  apply (get2_cell (state_of o)); [apply HI'|by rewrite (in_bounds_ext b)|].
  by apply Hmono.
Qed.

(** The loop of [autoplay_step] over a reveal move. *)
Lemma apply_reveals U rnd w w' :
  played (GUI.w_board w) →
  (∀ p, p ∈ U → in_bounds (GUI.w_board w) p.1 p.2 = true ∧
                get2 (flagged (GUI.w_board w)) p.1 p.2 = Ok false) →
  GUI.apply_move 0 U rnd w = Some (GUI.Returned w') →
  flagged (GUI.w_board w') = flagged (GUI.w_board w) ∧
  rows (GUI.w_board w') = rows (GUI.w_board w) ∧
  cols (GUI.w_board w') = cols (GUI.w_board w) ∧
  (∀ q, in_bounds (GUI.w_board w) q.1 q.2 = true →
        get2 (revealed (GUI.w_board w)) q.1 q.2 = Ok true →
        get2 (revealed (GUI.w_board w')) q.1 q.2 = Ok true) ∧
  (game_over (GUI.w_board w) = true → game_over (GUI.w_board w') = true) ∧
  (game_over (GUI.w_board w') = true ∨
   ∀ p, p ∈ U → get2 (revealed (GUI.w_board w')) p.1 p.2 = Ok true).
Proof.
  revert w. induction U as [|[r c] U IH]; intros w Hpl HU Hrun.
  { simpl in Hrun. injection Hrun as <-. do 5 (split; [done|]). right.
    by intros p []%elem_of_nil. }
  destruct (HU (r, c) ltac:(left)) as [Hin Hf]. simpl in Hin, Hf.
  set (b := GUI.w_board w) in *.
  pose proof (reachable_Inv b (played_reachable b Hpl)) as HI.
  destruct (presentable_call b (Reveal r c rnd) (or_introl Hpl) Hin)
    as (o & Ho & _ & Hr & Hc & _ & Hover & _).
  assert (played (state_of o)) as Hpl' by (by apply (played_call b (Reveal r c rnd) o)).
  destruct (perform_effect b _ o HI Ho) as (_ & _ & _ & Hfl).
  pose proof (λ q, perform_keeps_open b _ o q HI Ho) as Hmono.
  simpl in Ho, Hrun. fold b in Hrun. rewrite Ho in Hrun. simpl in Hrun.
  destruct o as [b1|e b1]; simpl in *; [|done].
  destruct (IH (GUI.with_board w b1)) as (Hfl' & Hr' & Hc' & Hmono' & Hover' & Hopen);
    [done| |done|].
  { intros p Hp. simpl. rewrite (in_bounds_ext b b1), Hfl by done. apply HU. by right. }
  simpl in *. split; [congruence|]. split; [congruence|]. split; [congruence|].
  split.
  { intros q Hq Hv. apply Hmono'; [by rewrite (in_bounds_ext b b1)|by apply Hmono]. }
  split.
  { intros Hg. apply Hover'. specialize (Hover Hg). by injection Hover as ->. }
  destruct Hopen as [?|Hopen]; [by left|].
  destruct (reveal_opens b r c rnd b1 HI Hin Hf Ho) as [Hg|Hv]; [left; by apply Hover'|].
  right. intros p [->|Hp]%elem_of_cons; [|by apply Hopen].
  apply Hmono'; [by rewrite (in_bounds_ext b b1)|done].
Qed.

(** A flag set or taken on a closed cell while a game with its mines
    placed is on. *)
Lemma toggle_sets b r c f :
  reachable b → game_over b = false → placed b = true → in_bounds b r c = true →
  get2 (revealed b) r c = Ok false → get2 (flagged b) r c = Ok f →
  ∃ b1, toggle_flag b r c = Done b1 ∧ game_over b1 = false ∧ placed b1 = true ∧
        revealed b1 = revealed b ∧ rows b1 = rows b ∧ cols b1 = cols b ∧
        get2 (flagged b1) r c = Ok (negb f) ∧
        ∀ q, in_bounds b q.1 q.2 = true → q ≠ (r, c) →
             get2 (flagged b1) q.1 q.2 = get2 (flagged b) q.1 q.2.
Proof.
  intros Hreach Hg Hplaced Hin Hv Hf. pose proof (reachable_Inv b Hreach) as HI.
  pose proof (inv_shaped b HI) as Hb. pose proof Hb as (Hrv & Hfl & _).
  pose proof (position_in_bounds b (r, c) Hin) as Hp. simpl in Hp.
  apply (get2_cell b) in Hv, Hf; [|done..].
  destruct (toggle_flag_outcome b r c HI)
    as [[_ [?|(i & j & Hp' & H)]]|[[_ [_ Hp']]|(i & j & f' & _ & Hp' & _ & Hf' & Ho)]];
    [congruence|congruence|congruence|].
  rewrite Hp in Hp'. injection Hp' as <- <-.
  assert (f' = f) as -> by congruence.
  set (b1 := with_flagged b (mset (flagged b) (Z.to_nat r) (Z.to_nat c) (negb f))) in *.
  assert (shaped b1) as Hb1.
  { apply shaped_with_flagged; [done|]. by apply mat_shape_mset. }
  rewrite (check_victory_spec b1 Hb1) in Ho.
  change (game_over b1) with (game_over b) in Ho. rewrite Hg in Ho.
  rewrite bool_decide_eq_false_2 in Ho.
  2:{ intros Hcount. pose proof (in_progress_count b Hreach Hg Hcount). congruence. }
  exists b1. split; [done|]. do 5 (split; [done|]).
  apply in_bounds_spec in Hin as Hin'.
  assert (∀ q x, in_bounds b q.1 q.2 = true →
            get2 (flagged b1) q.1 q.2 = Ok x ↔
            (if decide (Z.to_nat r = Z.to_nat q.1 ∧ Z.to_nat c = Z.to_nat q.2)
             then Some (negb f) else mget (flagged b) (Z.to_nat q.1) (Z.to_nat q.2))
              = Some x) as Hcell.
  { intros q x Hq.
    rewrite (get2_cell b1 (flagged b1) q.1 q.2 x (proj1 (proj2 Hb1)) Hq). simpl.
    rewrite (mget_mset _ _ _ _ _ _ _ _ Hfl) by (unfold nrows, ncols; lia). done. }
  split.
  - apply (Hcell (r, c)); [done|]. by rewrite decide_True.
  - intros q Hq Hne.
    destruct (get2_in_bounds b (flagged b) q.1 q.2 Hfl Hq) as (x & Hx & ->).
    apply (Hcell q); [done|]. rewrite decide_False; [done|].
    intros [? ?]. apply Hne. apply in_bounds_spec in Hq. destruct q; simpl in *.
    f_equal; lia.
Qed.

(** The loop of [autoplay_step] over a flag move. *)
Lemma apply_flags U rnd w w' :
  played (GUI.w_board w) → game_over (GUI.w_board w) = false →
  placed (GUI.w_board w) = true → NoDup U →
  (∀ p, p ∈ U → in_bounds (GUI.w_board w) p.1 p.2 = true ∧
                get2 (flagged (GUI.w_board w)) p.1 p.2 = Ok false ∧
                get2 (revealed (GUI.w_board w)) p.1 p.2 = Ok false) →
  GUI.apply_move 1 U rnd w = Some (GUI.Returned w') →
  game_over (GUI.w_board w') = false ∧
  (∀ p, p ∈ U → get2 (flagged (GUI.w_board w')) p.1 p.2 = Ok true) ∧
  (∀ q, in_bounds (GUI.w_board w) q.1 q.2 = true → q ∉ U →
        get2 (flagged (GUI.w_board w')) q.1 q.2 = get2 (flagged (GUI.w_board w)) q.1 q.2).
Proof.
  revert w. induction U as [|[r c] U IH]; intros w Hpl Hg Hplaced Hnd HU Hrun.
  { simpl in Hrun. injection Hrun as <-. split; [done|]. split; [|done].
    by intros p []%elem_of_nil. }
  destruct (HU (r, c) ltac:(left)) as (Hin & Hf & Hv). simpl in Hin, Hf, Hv.
  apply NoDup_cons in Hnd as [Hnotin Hnd].
  set (b := GUI.w_board w) in *.
  destruct (toggle_sets b r c false (played_reachable b Hpl) Hg Hplaced Hin Hv Hf)
    as (b1 & Ho & Hg1 & Hpl1 & Hrv1 & Hr1 & Hc1 & Hset & Hother).
  assert (played b1) as Hplayed1.
  { apply (played_call b (ToggleFlag r c) (Done b1)); [done..|]. simpl. by rewrite Ho. }
  simpl in Hrun. fold b in Hrun. rewrite Ho in Hrun. simpl in Hrun.
  destruct (IH (GUI.with_board w b1)) as (Hg' & Hflags & Hframe); try done.
  { intros p Hp. simpl. destruct (HU p ltac:(by right)) as (Hp1 & Hp2 & Hp3).
    rewrite (in_bounds_ext b b1), Hrv1 by done. split; [done|]. split; [|done].
    rewrite Hother; [done..|]. by intros ->. }
  simpl in *. split; [done|]. split.
  - intros p [->|Hp]%elem_of_cons; [|by apply Hflags].
    rewrite (Hframe (r, c)); [done| |done]. by rewrite (in_bounds_ext b b1).
  - intros q Hq Hnot. apply not_elem_of_cons in Hnot as [Hne Hnot].
    rewrite (Hframe q); [|by rewrite (in_bounds_ext b b1)|done]. by apply Hother.
Qed.

(** X26.  The automatic step applies its whole move: when the solver
    returns a move in a running window whose game is on and the step
    returns, every cell of a reveal move is open afterwards, and every
    cell of a flag move is flagged, with the game still on. *)
Theorem autoplay_step_applies w rnd view a U w' :
  displayed w → game_over (GUI.w_board w) = false →
  GUI.get_solver_board w = Ok view →
  AutoPlay.solution view (GUI.w_rows w) (GUI.w_cols w) = Ok (a, U) →
  GUI.autoplay_step w rnd = Some (GUI.Returned w') →
  ∀ p, p ∈ U →
    (a = AutoPlay.REVEAL → get2 (revealed (GUI.w_board w')) p.1 p.2 = Ok true) ∧
    (a = AutoPlay.FLAG → get2 (flagged (GUI.w_board w')) p.1 p.2 = Ok true ∧
                         game_over (GUI.w_board w') = false).
Proof.
  intros Hw Hg Hview Hsol Hrun.
  pose proof (displayed_steady w Hw) as Hst.
  pose proof Hst as (Hag & _ & Hb). pose proof Hag as (Hr & Hc & _).
  destruct Hb as [[_ Hpl]|(b0 & _ & Hg0 & Hb0)].
  2:{ rewrite Hb0 in Hg. simpl in Hg. congruence. }
  set (b := GUI.w_board w) in *.
  pose proof (reachable_Inv b (played_reachable b Hpl)) as HI.
  assert (¬ lost b) as Hnl by (intros [? _]; congruence).
  unfold GUI.autoplay_step in Hrun. rewrite Hview, Hsol in Hrun.
  rewrite (get_solver_board_agrees w Hag) in Hview. fold b in Hview.
  rewrite (get_solver_board_spec b HI) in Hview. injection Hview as <-.
  rewrite Hr, Hc in Hsol. fold b in Hsol.
  destruct (solution_move _ _ _ _ _ (mat_shape_view_of b) Hsol) as (Ha & _ & Hnd & HU).
  assert (∀ p, p ∈ U → in_bounds b p.1 p.2 = true ∧
                       get2 (flagged b) p.1 p.2 = Ok false ∧
                       get2 (revealed b) p.1 p.2 = Ok false) as HU'.
  { intros p Hp. destruct (HU p Hp) as [Hin%in_view_in_bounds Hs].
    split; [done|]. apply (shown_unseen b p HI Hin).
    rewrite get2_view_of in Hs by done. by injection Hs. }
  destruct (GUI.apply_move a U rnd w) as [h1|] eqn:Hh1; [|done].
  simpl in Hrun. injection Hrun as Hrun.
  destruct h1 as [w1|e w1]; simpl in Hrun; [|done].
  destruct (apply_move_spec a U rnd w Hpl Ha) as (h1' & Hh1' & Hcase).
  { intros p Hp. by apply HU'. }
  rewrite Hh1 in Hh1'. injection Hh1' as <-.
  destruct Hcase as (b1 & -> & Hpl1 & Hr1 & Hc1 & _).
  destruct (refresh_steady (GUI.with_board w b1)) as (w'' & Hrun' & _ & _ & _ & _ & Hbd & _);
    [by apply agrees_with_board|by left|].
  rewrite Hrun in Hrun'. injection Hrun' as <-. simpl in Hbd.
  intros p Hp. destruct (HU' p Hp) as (Hin & Hf & Hv). split.
  - intros ->.
    destruct (apply_reveals U rnd w (GUI.with_board w b1) Hpl)
      as (_ & _ & _ & _ & _ & Hopen); [|exact Hh1|].
    { intros q Hq. destruct (HU' q Hq) as (? & ? & _). done. }
    simpl in Hopen. rewrite Hbd. destruct (game_over b1) eqn:Hg1.
    + apply get2_shown_all. by rewrite (in_bounds_ext b).
    + destruct Hopen as [?|Hopen]; [congruence|]. by apply Hopen.
  - intros ->.
    assert (placed b = true) as Hplaced.
    { destruct (scan_move _ _ _ _ _ _ (mat_shape_view_of b) Hsol)
        as [(t & k & s & N & Htk%elem_of_grid_cells%in_bounds_spec & Hs & Hu & Hfl & _)
           |(q & [=] & _)].
      rewrite get2_view_of in Hs by done. injection Hs as <-.
      destruct (played_symbol b (t, k) Hpl Hnl Htk) as [?|[?|(_ & _ & _ & _ & Hrv & _)]];
        [done..|].
      destruct (placed b) eqn:E; [done|]. apply in_bounds_spec in Htk as Htk'.
      apply (get2_cell b) in Hrv; [|apply HI|done]. simpl in *.
      rewrite (mget_unplaced_revealed b _ _ HI E) in Hrv by (unfold nrows, ncols; lia).
      done. }
    destruct (apply_flags U rnd w (GUI.with_board w b1) Hpl Hg Hplaced Hnd HU' Hh1)
      as (Hg1 & Hflags & _).
    simpl in Hg1, Hflags. rewrite Hbd, Hg1. split; [by apply Hflags|done].
Qed.

Lemma displayed_auto_opened : displayed auto_opened.
Proof.
  assert (auto_opened =
            after_event (after_event (GUI.window_of GUI.init) (Apply_settings "3" "3" "2"))
                        (Autoplay_step [0%nat; 0%nat])) as ->
    by (vm_compute; reflexivity).
  apply displayed_after_event; [apply displayed_after_event; [apply displayed_init|]|done].
  right. exists 3, 3, 2. by vm_compute.
Qed.

Lemma autoplay_step_applies_witness :
  displayed auto_opened ∧ game_over (GUI.w_board auto_opened) = false ∧
  GUI.get_solver_board auto_opened
    = Ok [["#"; "#"; "#"]; ["2"; "2"; "1"]; ["0"; "0"; "0"]] ∧
  AutoPlay.solution [["#"; "#"; "#"]; ["2"; "2"; "1"]; ["0"; "0"; "0"]]
      (GUI.w_rows auto_opened) (GUI.w_cols auto_opened)
    = Ok (AutoPlay.FLAG, [(0, 0); (0, 1)]) ∧
  GUI.autoplay_step auto_opened [] = Some (GUI.Returned auto_flagged) ∧
  get2 (flagged (GUI.w_board auto_flagged)) 0 1 = Ok true ∧
  game_over (GUI.w_board auto_flagged) = false.
Proof.
  assert (game_over (GUI.w_board auto_opened) = false) as Hg
    by (vm_compute; reflexivity).
  assert (GUI.get_solver_board auto_opened
            = Ok [["#"; "#"; "#"]; ["2"; "2"; "1"]; ["0"; "0"; "0"]]) as Hview
    by (vm_compute; reflexivity).
  assert (AutoPlay.solution [["#"; "#"; "#"]; ["2"; "2"; "1"]; ["0"; "0"; "0"]]
              (GUI.w_rows auto_opened) (GUI.w_cols auto_opened)
            = Ok (AutoPlay.FLAG, [(0, 0); (0, 1)])) as Hsol by (vm_compute; reflexivity).
  assert (GUI.autoplay_step auto_opened [] = Some (GUI.Returned auto_flagged)) as Hrun
    by (vm_compute; reflexivity).
  split; [apply displayed_auto_opened|]. do 4 (split; [assumption|]).
  apply (autoplay_step_applies auto_opened [] _ _ _ _ displayed_auto_opened
           Hg Hview Hsol Hrun (0, 1)); [|reflexivity].
  right. by left.
Defined.
